(** * Azure Synapse MCP server: session and resource-management core

    A shallow embedding of the tenant registry ([TenantManager]), the
    retry wrapper ([retryOperation]), the token cache ([AzureAuthService]),
    the connection pool with its query-result cache ([ConnectionPool]) and
    the SQL entry point ([SynapseOperations.executeSqlQuery]), followed by
    the properties established about them. *)

From Stdlib Require Import ZArith Lia Ascii String.
From stdpp Require Import base option list strings pretty gmap fin_maps sorting.

Local Open Scope string_scope.
Local Open Scope list_scope.
Local Open Scope Z_scope.

(** JavaScript truthiness of an optional string: [undefined], [null] and
    the empty string are falsy.  [a || b] on strings is [js_or a b]. *)
Definition truthy (o : option string) : option string :=
  match o with
  | Some s => if decide (s = "") then None else Some s
  | None => None
  end.

Definition js_or (a : option string) (b : string) : string :=
  match truthy a with
  | Some s => s
  | None => b
  end.

(** [String.prototype.toLowerCase] on ASCII letters. *)
Definition lowerAscii (a : ascii) : ascii :=
  let n := nat_of_ascii a in
  if (65 <=? n)%nat && (n <=? 90)%nat then ascii_of_nat (n + 32) else a.

Fixpoint toLowerCase (s : string) : string :=
  match s with
  | EmptyString => EmptyString
  | String a s => String (lowerAscii a) (toLowerCase s)
  end.

(** [hay.includes(needle)] *)
Fixpoint includes (needle hay : string) : bool :=
  String.prefix needle hay ||
  match hay with
  | EmptyString => false
  | String _ hay => includes needle hay
  end.

(** ** utils/tenant-manager.ts *)

Module TenantManager.

Inductive PoolType := dedicated | serverless.

#[global] Instance PoolType_eq_dec : EqDecision PoolType.
Proof. solve_decision. Defined.

Definition PoolType_str (k : PoolType) : string :=
  match k with dedicated => "dedicated" | serverless => "serverless" end.

Record SqlPool := mkSqlPool {
  pool_name : string;
  pool_type : PoolType;
  connectionString : string
}.

Inductive CredentialType := service_principal | managed_identity | default_credential.

Record CredentialDecl := mkCredentialDecl {
  cred_type : CredentialType;
  cred_tenantId : option string;
  cred_clientId : option string;
  cred_clientSecret : option string
}.

Record TenantConfig := mkTenantConfig {
  name : string;
  subscriptionId : string;
  resourceGroup : string;
  workspaceName : string;
  sqlPools : list SqlPool;
  credentials : CredentialDecl;
  region : option string
}.

(** The credential objects of @azure/identity that [addTenant] builds. *)
Inductive Credential :=
| ClientSecretCredential (tenantId clientId clientSecret : string)
| ManagedIdentityCredential (clientId : option string)
| DefaultAzureCredential.

(** @azure/identity is not part of this repository.  Its constructors
    check their arguments and may throw (on a tenant id with a
    character they do not accept, for one); for which arguments they do
    is left open: [refuses c] is the value thrown where [c] would have
    been built. *)
Class Identity (E : Type) := refuses : Credential → option E.

(** The three private fields of the class.  [tenants] is a [Map]: its
    entries, and in [tenantOrder] the order in which it lists its keys
    (a key written again keeps its place, a new key goes last).
    [credentialMap] holds [None] where [addTenant] stored [undefined]
    (a service principal with a missing field). *)
Record t := mk {
  tenants : gmap string TenantConfig;
  credentialMap : gmap string (option Credential);
  defaultTenant : option string;
  tenantOrder : list string
}.

Definition empty : t := mk ∅ ∅ None [].

(** The credential the [switch] of [addTenant] asks for; [None] when
    it asks for none. *)
Definition credentialFor (c : CredentialDecl) : option Credential :=
  match cred_type c with
  | service_principal =>
      match truthy (cred_tenantId c), truthy (cred_clientId c),
            truthy (cred_clientSecret c) with
      | Some ti, Some ci, Some cs => Some (ClientSecretCredential ti ci cs)
      | _, _, _ => None
      end
  | managed_identity =>
      Some (ManagedIdentityCredential (truthy (cred_clientId c)))
  | default_credential => Some DefaultAzureCredential
  end.

(** [this.tenants.set(name, config)] *)
Definition setTenant (n : string) (config : TenantConfig) (tm : t) : t :=
  mk (<[n := config]> (tenants tm)) (credentialMap tm) (defaultTenant tm)
     (match tenants tm !! n with
      | Some _ => tenantOrder tm
      | None => tenantOrder tm ++ [n]
      end).

Section Library.
Context {E : Type} `{!Identity E}.

(** [new C(...)]: the object, or ([inl]) what the constructor
    throws. *)
Definition newCredential (c : Credential) : E + Credential :=
  match refuses c with
  | Some e => inl e
  | None => inr c
  end.

(** The value of [credential] after the [switch]. *)
Definition makeCredential (c : CredentialDecl) : E + option Credential :=
  match credentialFor c with
  | Some credential =>
      match newCredential credential with
      | inl e => inl e
      | inr credential => inr (Some credential)
      end
  | None => inr None
  end.

(** [addTenant]: the configuration is stored first; when a constructor
    throws, the call ends there, with the value thrown and no
    credential stored. *)
Definition addTenant (n : string) (config : TenantConfig) (tm : t)
    : option E * t :=
  let tm := setTenant n config tm in
  match makeCredential (credentials config) with
  | inl e => (Some e, tm)
  | inr credential =>
      (None, mk (tenants tm) (<[n := credential]> (credentialMap tm))
                (defaultTenant tm) (tenantOrder tm))
  end.
End Library.

(** [name || this.defaultTenant || 'default'] *)
Definition resolveName (tm : t) (n : option string) : string :=
  js_or n (js_or (defaultTenant tm) "default").

Definition getTenant (tm : t) (n : option string) : option TenantConfig :=
  tenants tm !! resolveName tm n.

(** [this.credentials.get(tenantName) || new DefaultAzureCredential()] *)
Definition getCredential {E : Type} `{!Identity E} (tm : t) (n : option string)
    : E + Credential :=
  match credentialMap tm !! resolveName tm n with
  | Some (Some c) => inr c
  | _ => newCredential DefaultAzureCredential
  end.

(** [tenant.sqlPools.find(p => p.type === poolType)?.connectionString];
    an omitted [poolType] defaults to [serverless]. *)
Definition getConnectionString (tm : t) (tenantName : option string)
    (poolType : option PoolType) : option string :=
  let poolType := default serverless poolType in
  match getTenant tm tenantName with
  | None => None
  | Some tenant =>
      match List.find (fun p => bool_decide (pool_type p = poolType))
                      (sqlPools tenant) with
      | Some pool => Some (connectionString pool)
      | None => None
      end
  end.

(** [Array.from(this.tenants.keys())] *)
Definition listTenants (tm : t) : list string := tenantOrder tm.

(** [Array.from(this.tenants.values())] *)
Definition tenantValues (tm : t) : list TenantConfig :=
  omap (λ n, tenants tm !! n) (tenantOrder tm).

(** [setDefaultTenant] throws [Error("Tenant not found: ...")] for an
    unregistered name. *)
Definition setDefaultTenant (n : string) (tm : t) : string + t :=
  match tenants tm !! n with
  | Some _ => inr (mk (tenants tm) (credentialMap tm) (Some n) (tenantOrder tm))
  | None => inl ("Tenant not found: " +:+ n)
  end.

Definition removeTenant (n : string) (tm : t) : t :=
  mk (delete n (tenants tm))
     (delete n (credentialMap tm))
     (if decide (defaultTenant tm = Some n) then None else defaultTenant tm)
     (filter (λ m, m ≠ n) (tenantOrder tm)).

End TenantManager.

(** ** utils/error-handler.ts *)

(** What an [async] function can complete with. *)
Inductive Completion (E T : Type) :=
| Returned (v : T)
| Threw (e : E).
Arguments Returned {E T} v.
Arguments Threw {E T} e.

Module ErrorHandler.

(** Values that reach a [catch] clause.  The first five are instances
    of [Error]: the three classes of this file, a plain [Error], and
    [StatusError], an [Error] of some other class that carries an
    HTTP-like status all the same (the error of an HTTP client, say).
    [NonError] stands for any other thrown value except [undefined];
    where a caught value can be [undefined] its type is
    [option Thrown], with [None] for [undefined]. *)
Inductive Thrown :=
| SynapseApiError (message : string) (statusCode : Z) (requestId : option string)
| ConfigurationError (message : string)
| AuthenticationError (message : string)
| Error (message : string)
| StatusError (message : string) (status : Z)
| NonError (v : string).

#[global] Instance Thrown_eq_dec : EqDecision Thrown.
Proof. solve_decision. Defined.

(** [error instanceof Error] *)
Definition instanceofError (e : Thrown) : bool :=
  match e with
  | NonError _ => false
  | _ => true
  end.

(** [error.message] of an [Error] instance. *)
Definition messageOf (e : Thrown) : option string :=
  match e with
  | SynapseApiError m _ _ | ConfigurationError m
  | AuthenticationError m | Error m | StatusError m _ => Some m
  | NonError _ => None
  end.

(** The HTTP-like status a thrown value carries, if any. *)
Definition statusOf (e : Thrown) : option Z :=
  match e with
  | SynapseApiError _ statusCode _ => Some statusCode
  | StatusError _ status => Some status
  | _ => None
  end.

(** [error instanceof SynapseApiError && error.statusCode >= 400 &&
    error.statusCode < 500], on a caught value ([None] is
    [undefined]). *)
Definition isClientError (error : option Thrown) : bool :=
  match error with
  | Some (SynapseApiError _ statusCode _) =>
      bool_decide (400 <= statusCode) && bool_decide (statusCode < 500)
  | _ => false
  end.

(** Observable effects of one [retryOperation] run, in program order. *)
Inductive Effect :=
| Invoke                               (* operation() *)
| Warn (attempt total delay : Z)       (* logger.warn(...) *)
| Sleep (delay : Z).                   (* setTimeout(resolve, delay) *)

#[global] Instance Effect_eq_dec : EqDecision Effect.
Proof. solve_decision. Defined.

Section Retry.
Context {W T : Type}.

(** An operation [() => Promise<T>] run against the outside world.
    It may reject with any value, [undefined] included ([None]). *)
Definition Operation := W → Completion (option Thrown) T * W.

Record Outcome := mkOutcome {
  completion : Completion (option Thrown) T;   (* [None] is [undefined] *)
  world : W;
  effects : list Effect
}.

(** The [for (attempt = 0; attempt <= maxRetries; attempt++)] loop,
    entered at [attempt]; [fuel] bounds the remaining iterations. *)
Fixpoint retryLoop (operation : Operation) (maxRetries baseDelay : Z)
    (fuel : nat) (attempt : Z) (lastError : option Thrown)
    (w : W) (tr : list Effect) : Outcome :=
  match fuel with
  | O => mkOutcome (Threw lastError) w tr
  | S fuel =>
      if bool_decide (attempt <= maxRetries) then
        match operation w with
        | (Returned v, w) => mkOutcome (Returned v) w (tr ++ [Invoke])
        | (Threw error, w) =>
            let tr := tr ++ [Invoke] in
            if bool_decide (attempt = maxRetries) then
              mkOutcome (Threw error) w tr
            else if isClientError error then
              mkOutcome (Threw error) w tr
            else
              let delay := baseDelay * 2 ^ attempt in
              retryLoop operation maxRetries baseDelay fuel (attempt + 1)
                error w
                (tr ++ [Warn (attempt + 1) (maxRetries + 1) delay; Sleep delay])
        end
      else mkOutcome (Threw lastError) w tr
  end.

Definition retryOperation (operation : Operation)
    (maxRetries baseDelay : option Z) (w : W) : Outcome :=
  let maxRetries := default 3 maxRetries in
  let baseDelay := default 1000 baseDelay in
  retryLoop operation maxRetries baseDelay
    (Z.to_nat (maxRetries + 1)) 0 None w [].

(** The world after [n] invocations of [operation], and how the
    invocation made then completes. *)
Fixpoint worldAfter (operation : Operation) (n : nat) (w : W) : W :=
  match n with
  | O => w
  | S n => worldAfter operation n (operation w).2
  end.

Definition outcomeAt (operation : Operation) (n : nat) (w : W)
    : Completion (option Thrown) T :=
  (operation (worldAfter operation n w)).1.

(** [n] failed attempts from index [attempt] on, each followed by its
    warning and its sleep of [baseDelay * 2 ^ attempt]. *)
Fixpoint backoff (maxRetries baseDelay attempt : Z) (n : nat) : list Effect :=
  match n with
  | O => []
  | S n =>
      Invoke :: Warn (attempt + 1) (maxRetries + 1) (baseDelay * 2 ^ attempt)
             :: Sleep (baseDelay * 2 ^ attempt)
             :: backoff maxRetries baseDelay (attempt + 1) n
  end.

Definition countInvoke (tr : list Effect) : nat :=
  length (filter (λ e, e = Invoke) tr).

Definition invocations (o : Outcome) : nat := countInvoke (effects o).

Definition delays (o : Outcome) : list Z :=
  omap (λ e, match e with Sleep d => Some d | _ => None end) (effects o).
End Retry.

Arguments Operation : clear implicits.
Arguments Outcome : clear implicits.

End ErrorHandler.

(** ** services/azure-auth.service.ts *)

Module AzureAuthService.
Import ErrorHandler.

(** [AccessToken] of @azure/core-auth.  [expiresOnTimestamp] is [None]
    when the field is missing ([undefined]). *)
Record AccessToken := mkAccessToken {
  token : string;
  expiresOnTimestamp : option Z
}.

(** The ways [credential.getToken(scopes)] settles. *)
Inductive GetTokenResult :=
| GotToken (t : AccessToken)
| GotNull
| GetTokenThrew (e : Thrown).

(** The [TokenCredential] interface: acquiring a token may change the
    credential's own state (and the identity provider's). *)
Class TokenCredential (C : Type) :=
  getToken : C → list string → GetTokenResult * C.

Definition scope : list string := ["https://dev.azuresynapse.net/.default"].

(** [5 * 60 * 1000] *)
Definition tokenExpirationBuffer : Z := 5 * 60 * 1000.

Section Service.
Context {C : Type} `{!TokenCredential C}.

(** The fields of the class, plus [acquisitions], a count of the
    [credential.getToken] calls made so far. *)
Record t := mk {
  credential : C;
  cachedToken : option AccessToken;
  acquisitions : nat
}.

(** [isTokenValid]; [now] is the value of [Date.now()]. *)
Definition isTokenValid (now : Z) (tok : AccessToken) : bool :=
  match expiresOnTimestamp tok with
  | None => false
  | Some expirationTime =>
      if decide (expirationTime = 0) then false
      else
        let timeUntilExpiration := expirationTime - now in
        bool_decide (timeUntilExpiration > tokenExpirationBuffer)
  end.

(** The [catch] clause of [getAccessToken]. *)
Definition onFailure (error : Thrown) (c : C) (n : nat)
    : Completion Thrown string * t :=
  let s := mk c None n in
  match messageOf error with
  | Some m =>
      (Threw (AuthenticationError ("Failed to acquire access token: " +:+ m)), s)
  | None =>
      (Threw (AuthenticationError "Failed to acquire access token: Unknown error"), s)
  end.

(** The slow path: [credential.getToken], then the rest of the [try]
    block or the [catch] clause. *)
Definition acquire (s : t) : Completion Thrown string * t :=
  match getToken (credential s) scope with
  | (GotToken tokenResponse, c) =>
      (Returned (token tokenResponse),
       mk c (Some tokenResponse) (S (acquisitions s)))
  | (GotNull, c) =>
      onFailure (AuthenticationError "Failed to acquire access token")
                c (S (acquisitions s))
  | (GetTokenThrew error, c) => onFailure error c (S (acquisitions s))
  end.

Definition getAccessToken (now : Z) (s : t) : Completion Thrown string * t :=
  match cachedToken s with
  | Some tok =>
      if isTokenValid now tok then (Returned (token tok), s)
      else acquire s
  | None => acquire s
  end.

(** The validity rule in the words of the specification: a cached
    token exists and its expiry lies more than five minutes ahead. *)
Definition cacheFresh (now : Z) (s : t) : Prop :=
  ∃ tok expiry,
    cachedToken s = Some tok
    ∧ expiresOnTimestamp tok = Some expiry
    ∧ expiry - now > 5 * 60 * 1000.

Definition clearCache (s : t) : t :=
  mk (credential s) None (acquisitions s).

Definition refreshToken (now : Z) (s : t) : Completion Thrown string * t :=
  getAccessToken now (clearCache s).

Definition getAuthorizationHeader (now : Z) (s : t)
    : Completion Thrown string * t :=
  match getAccessToken now s with
  | (Returned tok, s) => (Returned ("Bearer " +:+ tok), s)
  | (Threw e, s) => (Threw e, s)
  end.
End Service.

Arguments t : clear implicits.

(** What the failing side of an acquisition hands to the [catch]
    clause: the thrown value, or the error raised for a missing token. *)
Definition causeOf (r : GetTokenResult) : option Thrown :=
  match r with
  | GotToken _ => None
  | GotNull => Some (AuthenticationError "Failed to acquire access token")
  | GetTokenThrew e => Some e
  end.

(** The text a thrown value carries: the message of an [Error], or the
    value itself. *)
Definition causeText (e : Thrown) : string :=
  match e with
  | NonError v => v
  | SynapseApiError m _ _ | ConfigurationError m
  | AuthenticationError m | Error m | StatusError m _ => m
  end.

(** [raised] wraps [cause]: it is an [AuthenticationError] whose
    message contains the text of the cause. *)
Definition wraps (cause raised : Thrown) : Prop :=
  ∃ m, raised = AuthenticationError m ∧ includes (causeText cause) m = true.

(** The failure rule read for every thrown value: a call that acquires
    and fails clears the cache and raises an error wrapping the cause. *)
Definition failureWrapsCause {C : Type} `{!TokenCredential C}
    (now : Z) (s : t C) : Prop :=
  ∀ cause,
    ¬ cacheFresh now s →
    causeOf (getToken (credential s) scope).1 = Some cause →
    cachedToken (getAccessToken now s).2 = None
    ∧ ∃ raised, (getAccessToken now s).1 = Threw raised ∧ wraps cause raised.

End AzureAuthService.

(** ** node-cache, as [ConnectionPool] uses it

    The library is an external dependency; this is its documented
    behaviour for [get], [set] without an explicit ttl, [flushAll] and
    [keys], with the default [useClones] (values are copied in and out,
    so a stored value is never aliased). *)

Module NodeCache.
Section Cache.
Context {V : Type}.

(** A stored value with its expiry in ms since the epoch; [0] never
    expires. *)
Record entry := mkEntry { v : V; t : Z }.

Record cache := mk {
  stdTTL : Z;                      (* seconds; [0] is unlimited *)
  data : gmap string entry
}.

Definition expired (now : Z) (e : entry) : bool :=
  bool_decide (t e ≠ 0) && bool_decide (t e < now).

Definition get (key : string) (now : Z) (c : cache) : option V * cache :=
  match data c !! key with
  | Some e =>
      if expired now e then (None, mk (stdTTL c) (delete key (data c)))
      else (Some (v e), c)
  | None => (None, c)
  end.

Definition set (key : string) (value : V) (now : Z) (c : cache) : cache :=
  let livetime :=
    if decide (stdTTL c = 0) then 0 else now + stdTTL c * 1000 in
  mk (stdTTL c) (<[key := mkEntry value livetime]> (data c)).

Definition flushAll (c : cache) : cache := mk (stdTTL c) ∅.

Definition keys (c : cache) : list string := (map_to_list (data c)).*1.
End Cache.
Arguments entry : clear implicits.
Arguments cache : clear implicits.
End NodeCache.

(** ** utils/connection-pool.ts *)

Module ConnectionPool.
Import ErrorHandler.

(** The states of a tedious [Connection] that matter here; the pool
    only ever compares against [LOGGED_IN]. *)
Inductive ConnState := CONNECTING | LOGGED_IN | SENT_CLIENT_REQUEST | FINAL.

#[global] Instance ConnState_eq_dec : EqDecision ConnState.
Proof. solve_decision. Defined.

(** Connections and the promises of their creation are heap objects;
    the [n]-th [createConnection] call allocates connection [n] and
    promise [n]. *)
Inductive PromiseState :=
| Pending
| Fulfilled (connection : nat)
| Rejected (err : Thrown).

#[global] Instance PromiseState_eq_dec : EqDecision PromiseState.
Proof. solve_decision. Defined.

Inductive SqlValue := VNull | VString (s : string) | VNumber (z : Z) | VBool (b : bool).

(** A row object, as its own enumerable properties in the order in
    which [JSON.stringify] and [Object.keys] list them: the names that
    are array indices first, in ascending numeric order, then the other
    names in the order of their creation. *)
Definition Row := list (string * SqlValue).
Definition Rows := list Row.

Definition digitOf (a : ascii) : option N :=
  let n := N_of_ascii a in
  if ((48 <=? n) && (n <=? 57))%N then Some (n - 48)%N else None.

Fixpoint decimalValue (acc : N) (s : string) : option N :=
  match s with
  | EmptyString => Some acc
  | String a s =>
      match digitOf a with
      | Some d => decimalValue (acc * 10 + d)%N s
      | None => None
      end
  end.

(** The array index a property name denotes: the name is the decimal
    numeral, without sign or leading zero, of a number below
    [2^32 - 1]. *)
Definition arrayIndex (k : string) : option N :=
  match k with
  | EmptyString => None
  | String "0" EmptyString => Some 0%N
  | String "0" _ => None
  | _ =>
      match decimalValue 0 k with
      | Some n => if (n <? 4294967295)%N then Some n else None
      | None => None
      end
  end.


(** A row object starts out as [{}], with [Object.prototype] as its
    prototype; assigning [null] to [__proto__] leaves it without one. *)
Inductive Prototype := ObjectPrototype | NullPrototype.

Record RowObject := mkRowObject {
  prototype : Prototype;
  ownProperties : Row
}.

Definition hasOwn (k : string) (row : Row) : bool := bool_decide (k ∈ row.*1).

(** Writing to an own property keeps its place. *)
Definition overwrite (k : string) (x : SqlValue) (row : Row) : Row :=
  (λ kv, if decide (kv.1 = k) then (k, x) else kv) <$> row.

(** A new own property: an array index goes before the first larger
    index and before every other name, any other name goes last. *)
Fixpoint insertProp (k : string) (x : SqlValue) (row : Row) : Row :=
  match row with
  | [] => [(k, x)]
  | (k', x') :: rest =>
      match arrayIndex k, arrayIndex k' with
      | Some i, Some i' =>
          if (i <? i')%N then (k, x) :: row else (k', x') :: insertProp k x rest
      | Some _, None => (k, x) :: row
      | None, _ => (k', x') :: insertProp k x rest
      end
  end.

(** [row[colName] = value].  An own property is overwritten.  Failing
    that, the name [__proto__] reaches the accessor it inherits from
    [Object.prototype], which creates no property (and takes [null],
    the one value of [SqlValue] that is not a primitive, as the new
    prototype); any other name, and [__proto__] itself once the
    prototype is gone, becomes a new own property. *)
Definition setProp (k : string) (x : SqlValue) (o : RowObject) : RowObject :=
  if hasOwn k (ownProperties o) then
    mkRowObject (prototype o) (overwrite k x (ownProperties o))
  else if decide (k = "__proto__") then
    match prototype o, x with
    | ObjectPrototype, VNull => mkRowObject NullPrototype (ownProperties o)
    | ObjectPrototype, _ => o
    | NullPrototype, _ =>
        mkRowObject NullPrototype (insertProp k x (ownProperties o))
    end
  else mkRowObject (prototype o) (insertProp k x (ownProperties o)).

(** The ['row'] handler: one object per row event. *)
Definition buildRow (columns : list (string * SqlValue)) : Row :=
  ownProperties
    (fold_left (λ o col, setProp col.1 col.2 o) columns
       (mkRowObject ObjectPrototype [])).

Inductive JsNumber := Integer (z : Z) | NonInteger (repr : string).

Inductive ParamValue :=
| PString (s : string)
| PNumber (n : JsNumber)
| PBoolean (b : bool)
| PDate (ms : Z)
| POther (repr : string).

(** The members of tedious' [TYPES] that [getParameterType] returns. *)
Inductive TYPES := NVarChar | Int | Float | Bit | DateTime.

Definition getParameterType (value : ParamValue) : TYPES :=
  match value with
  | PString _ => NVarChar
  | PNumber (Integer _) => Int
  | PNumber (NonInteger _) => Float
  | PBoolean _ => Bit
  | PDate _ => DateTime
  | POther _ => NVarChar
  end.

Definition Parameters := list (string * ParamValue).

Record Request := mkRequest {
  sqlText : string;
  requestParameters : list (string * TYPES * ParamValue)
}.

(** What the server answers to [connection.execSql(request)]: the
    ['row'] events in arrival order, then the completion callback's
    [err] argument. *)
Record ExecResult := mkExecResult {
  rowEvents : list (list (string * SqlValue));
  execErr : option Thrown
}.

Class Driver (B : Type) :=
  execSql : B → nat → Request → ExecResult * B.

(** What a [getConnection] call hands back before any further event:
    a connection, or the promise it is waiting on. *)
Inductive Handle := Resolved (connection : nat) | Awaiting (promise : nat).

#[global] Instance Handle_eq_dec : EqDecision Handle.
Proof. solve_decision. Defined.

Definition getConnectionKey (workspace database poolType : string) : string :=
  workspace +:+ "-" +:+ database +:+ "-" +:+ poolType.

Section Pool.
Context {B : Type} `{!Driver B}.
(** [JSON.stringify] on a parameter object. *)
Variable JSON_stringify : Parameters → string.

(** The three fields of the class; the heap of connection and promise
    objects they refer to; the server; and three histories kept for
    stating properties ([createLog]: the [createConnection] calls,
    [getConnectionCalls], [submitted]: the [execSql] calls). *)
Record t := mk {
  connections : gmap string nat;
  connectionPromises : gmap string nat;
  cache : NodeCache.cache Rows;
  nextId : nat;
  attemptKey : gmap nat string;
  attemptConfig : gmap nat string;
  promiseState : gmap nat PromiseState;
  connState : gmap nat ConnState;
  awaiting : gset nat;
  backend : B;
  createLog : list (nat * string);
  getConnectionCalls : nat;
  submitted : list (nat * string)
}.

Definition init (stdTTL : Z) (b : B) : t :=
  mk ∅ ∅ (NodeCache.mk stdTTL ∅) 0 ∅ ∅ ∅ ∅ ∅ b [] 0 [].

Definition setConnections (m : gmap string nat) (s : t) : t :=
  mk m (connectionPromises s) (cache s) (nextId s) (attemptKey s)
     (attemptConfig s) (promiseState s) (connState s) (awaiting s)
     (backend s) (createLog s) (getConnectionCalls s) (submitted s).

Definition setConnState (m : gmap nat ConnState) (s : t) : t :=
  mk (connections s) (connectionPromises s) (cache s) (nextId s)
     (attemptKey s) (attemptConfig s) (promiseState s) m (awaiting s)
     (backend s) (createLog s) (getConnectionCalls s) (submitted s).

Definition setPromiseState (m : gmap nat PromiseState) (s : t) : t :=
  mk (connections s) (connectionPromises s) (cache s) (nextId s)
     (attemptKey s) (attemptConfig s) m (connState s) (awaiting s)
     (backend s) (createLog s) (getConnectionCalls s) (submitted s).

Definition setCache (c : NodeCache.cache Rows) (s : t) : t :=
  mk (connections s) (connectionPromises s) c (nextId s)
     (attemptKey s) (attemptConfig s) (promiseState s) (connState s)
     (awaiting s) (backend s) (createLog s) (getConnectionCalls s)
     (submitted s).

(** [existingConnection.state === existingConnection.STATE.LOGGED_IN] *)
Definition loggedIn (s : t) (c : nat) : bool :=
  bool_decide (connState s !! c = Some LOGGED_IN).

(** [createConnection] followed by [connectionPromises.set(key, ...)]:
    a fresh connection in state [CONNECTING], its pending promise, and
    the caller suspended at [await connectionPromise].  [attemptConfig]
    keeps the connection string that [parseConnectionString] turns
    into the driver's configuration. *)
Definition startCreation (connectionString key : string) (s : t) : nat * t :=
  let p := nextId s in
  (p, mk (connections s) (<[key := p]> (connectionPromises s)) (cache s)
         (S p) (<[p := key]> (attemptKey s))
         (<[p := connectionString]> (attemptConfig s))
         (<[p := Pending]> (promiseState s))
         (<[p := CONNECTING]> (connState s))
         ({[p]} ∪ awaiting s) (backend s)
         (createLog s ++ [(p, key)]) (getConnectionCalls s) (submitted s)).

(** Entering [getConnection] is recorded in [getConnectionCalls]. *)
Definition countCall (s : t) : t :=
  mk (connections s) (connectionPromises s) (cache s) (nextId s)
     (attemptKey s) (attemptConfig s) (promiseState s) (connState s)
     (awaiting s) (backend s) (createLog s) (S (getConnectionCalls s))
     (submitted s).

(** The part of [getConnection] that runs before its first [await]. *)
Definition getConnection (connectionString workspace database poolType : string)
    (s : t) : Handle * t :=
  let key := getConnectionKey workspace database poolType in
  let s := countCall s in
  let otherwise :=
    match connectionPromises s !! key with
    | Some existingPromise => (Awaiting existingPromise, s)
    | None =>
        let '(p, s) := startCreation connectionString key s in
        (Awaiting p, s)
    end in
  match connections s !! key with
  | Some existingConnection =>
      if loggedIn s existingConnection then (Resolved existingConnection, s)
      else otherwise
  | None => otherwise
  end.

(** The ['connect'] handler: [reject(err)] or [resolve(connection)].
    Settling a promise twice has no effect. *)
Definition onConnect (c : nat) (err : option Thrown) (s : t) : t :=
  match promiseState s !! c with
  | Some Pending =>
      match err with
      | Some e =>
          setConnState (<[c := FINAL]> (connState s))
            (setPromiseState (<[c := Rejected e]> (promiseState s)) s)
      | None =>
          setConnState (<[c := LOGGED_IN]> (connState s))
            (setPromiseState (<[c := Fulfilled c]> (promiseState s)) s)
      end
  | _ => s
  end.

(** The rest of the creating [getConnection] call, run once its
    promise has settled: the [try] body after the [await], or the
    [catch] clause. *)
Definition resume (p : nat) (s : t) : t :=
  if decide (p ∈ awaiting s) then
    match attemptKey s !! p, promiseState s !! p with
    | Some key, Some (Fulfilled connection) =>
        mk (<[key := connection]> (connections s))
           (delete key (connectionPromises s)) (cache s) (nextId s)
           (attemptKey s) (attemptConfig s) (promiseState s) (connState s)
           (awaiting s ∖ {[p]}) (backend s) (createLog s)
           (getConnectionCalls s) (submitted s)
    | Some key, Some (Rejected _) =>
        mk (connections s) (delete key (connectionPromises s)) (cache s)
           (nextId s) (attemptKey s) (attemptConfig s) (promiseState s)
           (connState s) (awaiting s ∖ {[p]}) (backend s) (createLog s)
           (getConnectionCalls s) (submitted s)
    | _, _ => s
    end
  else s.

(** What the creating call completes with when it resumes: the
    connection it returns, or the error it rethrows. *)
Definition resumeAnswer (p : nat) (s : t) : option (Completion Thrown nat) :=
  if decide (p ∈ awaiting s) then
    match attemptKey s !! p, promiseState s !! p with
    | Some _, Some (Fulfilled connection) => Some (Returned connection)
    | Some _, Some (Rejected error) => Some (Threw error)
    | _, _ => None
    end
  else None.

(** What [resolve(connection)] or [reject(err)] settles the promise of
    creation [c] with. *)
Definition settlement (c : nat) (err : option Thrown) : Completion Thrown nat :=
  match err with
  | Some e => Threw e
  | None => Returned c
  end.

(** The ['error'] handler. *)
Definition onError (c : nat) (s : t) : t :=
  match attemptKey s !! c with
  | Some key => setConnections (delete key (connections s)) s
  | None => s
  end.

(** The ['end'] handler; the connection is closed by then. *)
Definition onEnd (c : nat) (s : t) : t :=
  match attemptKey s !! c with
  | Some key =>
      setConnState (<[c := FINAL]> (connState s))
        (setConnections (delete key (connections s)) s)
  | None => s
  end.

Definition closeConnection (workspace database poolType : string) (s : t) : t :=
  let key := getConnectionKey workspace database poolType in
  match connections s !! key with
  | Some connection =>
      setConnections (delete key (connections s))
        (setConnState (<[connection := FINAL]> (connState s)) s)
  | None => s
  end.

(** [closeAll] up to its [await]: [close()] on every pooled
    connection. *)
Definition closeAllBegin (s : t) : t :=
  setConnState
    (map_fold (λ _ c st, <[c := FINAL]> st) (connState s) (connections s)) s.

(** [closeAll] after the [await]. *)
Definition closeAllEnd (s : t) : t :=
  setCache (NodeCache.flushAll (cache s)) (setConnections ∅ s).

Definition clearCache (s : t) : t :=
  setCache (NodeCache.flushAll (cache s)) s.

Definition cacheKeyOf (query : string) (parameters : option Parameters) : string :=
  query +:+ "-" +:+ JSON_stringify (default [] parameters).

Definition makeRequest (query : string) (parameters : option Parameters) : Request :=
  mkRequest query
    (match parameters with
     | Some ps => (λ nv, (nv.1, getParameterType nv.2, nv.2)) <$> ps
     | None => []
     end).

(** [executeQuery], called at time [now]; when the statement is
    submitted its completion callback runs at time [doneAt]. *)
Definition executeQuery (connection : nat) (query : string)
    (parameters : option Parameters) (now doneAt : Z) (s : t)
    : Completion Thrown Rows * t :=
  let cacheKey := cacheKeyOf query parameters in
  match NodeCache.get cacheKey now (cache s) with
  | (Some cachedResult, c) => (Returned cachedResult, setCache c s)
  | (None, c) =>
      let '(res, b) :=
        execSql (backend s) connection (makeRequest query parameters) in
      let results := buildRow <$> rowEvents res in
      let c' :=
        match execErr res with
        | Some _ => c
        | None => NodeCache.set cacheKey results doneAt c
        end in
      (match execErr res with
       | Some err => Threw err
       | None => Returned results
       end,
       mk (connections s) (connectionPromises s) c' (nextId s)
          (attemptKey s) (attemptConfig s) (promiseState s) (connState s)
          (awaiting s) b (createLog s) (getConnectionCalls s)
          (submitted s ++ [(connection, query)]))
  end.

Definition getConnectionStats (s : t) : nat * nat * list string :=
  (size (connections s), length (NodeCache.keys (cache s)),
   (map_to_list (connections s)).*1).

(** Everything that can happen to a pool between two suspension
    points of the event loop. *)
Inductive Event :=
| CallGetConnection (connectionString workspace database poolType : string)
| EmitConnect (c : nat) (err : option Thrown)
| Resume (p : nat)
| EmitError (c : nat)
| EmitEnd (c : nat)
| StateChange (c : nat) (st : ConnState)
| CallCloseConnection (workspace database poolType : string)
| CloseAllBegin
| CloseAllEnd
| CallClearCache
| CallExecuteQuery (connection : nat) (query : string)
    (parameters : option Parameters) (now doneAt : Z).

Definition step (s : t) (e : Event) : t :=
  match e with
  | CallGetConnection cs w d k => (getConnection cs w d k s).2
  | EmitConnect c err => onConnect c err s
  | Resume p => resume p s
  | EmitError c => onError c s
  | EmitEnd c => onEnd c s
  | StateChange c st =>
      match connState s !! c with
      | Some _ => setConnState (<[c := st]> (connState s)) s
      | None => s
      end
  | CallCloseConnection w d k => closeConnection w d k s
  | CloseAllBegin => closeAllBegin s
  | CloseAllEnd => closeAllEnd s
  | CallClearCache => clearCache s
  | CallExecuteQuery c q ps now doneAt => (executeQuery c q ps now doneAt s).2
  end.

Definition run (s : t) (evs : list Event) : t := fold_left step evs s.

Definition reachable (s : t) : Prop :=
  ∃ ttl b evs, s = run (init ttl b) evs.

(** A creation is in flight from its [createConnection] call until
    the creating call has resumed and dropped it. *)
Definition inFlight (s : t) (key : string) (p : nat) : Prop :=
  attemptKey s !! p = Some key ∧ p ∈ awaiting s.

(** A pooled session that [getConnection] would hand out as is. *)
Definition ready (s : t) (key : string) : Prop :=
  ∃ c, connections s !! key = Some c ∧ connState s !! c = Some LOGGED_IN.

(** What the promise (or connection) a [getConnection] call handed
    back has settled with so far: the connection, the error, or
    nothing yet.  A joining caller is answered with exactly that; the
    creating call is answered when it resumes ([resumeAnswer]). *)
Definition observed (s : t) (h : Handle) : option (Completion Thrown nat) :=
  match h with
  | Resolved c => Some (Returned c)
  | Awaiting p =>
      match promiseState s !! p with
      | Some (Fulfilled c) => Some (Returned c)
      | Some (Rejected e) => Some (Threw e)
      | _ => None
      end
  end.

(** The creations started for [key], oldest first. *)
Definition creationsFor (key : string) (s : t) : list (nat * string) :=
  filter (λ e, e.2 = key) (createLog s).

(** How the books of a pool hang together: the promise map lists
    exactly the creations whose creating call is still suspended, and
    object identifiers are handed out in increasing order. *)
Record consistent (s : t) : Prop := mkConsistent {
  promise_inFlight : ∀ key p,
    connectionPromises s !! key = Some p → inFlight s key p;
  inFlight_promise : ∀ p,
    p ∈ awaiting s →
    ∃ key, attemptKey s !! p = Some key ∧ connectionPromises s !! key = Some p;
  key_allocated : ∀ p, is_Some (attemptKey s !! p) → (p < nextId s)%nat;
  promise_allocated : ∀ p, is_Some (promiseState s !! p) → (p < nextId s)%nat;
  pending_awaiting : ∀ p, promiseState s !! p = Some Pending → p ∈ awaiting s
}.

(** The exclusion rule read as a property of states: no key has a
    pooled session and an in-flight creation at once. *)
Definition exclusive (s : t) : Prop :=
  ∀ key, ¬ (is_Some (connections s !! key)
            ∧ is_Some (connectionPromises s !! key)).
End Pool.

Arguments t : clear implicits.

End ConnectionPool.

(** ** operations/synapse-operations.ts *)

Module SynapseOperations.
Import ErrorHandler.
Import TenantManager (PoolType, dedicated, serverless, PoolType_str).

Record Params := mkParams {
  workspace : string;
  database : string;
  query : string;
  poolType : option PoolType;
  tenant : option string
}.

Record Metadata := mkMetadata {
  md_workspace : string;
  md_database : string;
  md_poolType : PoolType;
  md_executionTime : option Z;
  md_tenant : string
}.

(** The object that is serialised into the tool response. *)
Inductive Payload :=
| Success (rowCount : nat) (data : ConnectionPool.Rows) (metadata : Metadata)
| Failure (error : option string) (hint : string) (metadata : Metadata).

Definition getErrorHint (error : Thrown) : string :=
  let errorMessage := toLowerCase (default "" (messageOf error)) in
  if includes "login failed" errorMessage then
    "Check your authentication credentials and ensure the user has access to the database"
  else if includes "cannot open database" errorMessage then
    "Database does not exist or user lacks permission to access it"
  else if includes "syntax" errorMessage then
    "SQL syntax error - review your query for typos or invalid SQL constructs"
  else if includes "timeout" errorMessage then
    "Query took too long to execute - consider optimizing or increasing timeout"
  else if includes "connection" errorMessage then
    "Connection issue - verify network connectivity and firewall settings"
  else
    "Check Azure Synapse workspace settings and ensure proper permissions".

(** The readings of the clock one call makes. *)
Record Clock := mkClock { tQuery : Z; tDone : Z; tReturn : Z }.

Section Operations.
Context {B : Type} `{!ConnectionPool.Driver B}.
Variable JSON_stringify : ConnectionPool.Parameters → string.

Abbreviation Pool := (ConnectionPool.t B).
Abbreviation Event := (@ConnectionPool.Event).

(** The [catch] clause of [executeSqlQuery]. *)
Definition failurePayload (params : Params) (error : Thrown) : Payload :=
  Failure (messageOf error) (getErrorHint error)
    (mkMetadata (workspace params) (database params)
       (default serverless (poolType params)) None
       (js_or (tenant params) "default")).

(** [executeQuery] and the success payload. *)
Definition runQuery (params : Params) (clock : Clock) (connection : nat)
    (pool : Pool) : option Payload * Pool :=
  match ConnectionPool.executeQuery JSON_stringify connection (query params)
          None (tQuery clock) (tDone clock) pool with
  | (Returned results, pool) =>
      (Some (Success (length results) results
               (mkMetadata (workspace params) (database params)
                  (default serverless (poolType params))
                  (Some (tReturn clock))
                  (js_or (tenant params) "default"))), pool)
  | (Threw error, pool) => (Some (failurePayload params error), pool)
  end.

(** [executeSqlQuery].  While the call is suspended at
    [await getConnection(...)] the events [during] happen; the result
    is [None] when the awaited promise has not settled by then. *)
Definition executeSqlQuery (tenantManager : TenantManager.t)
    (params : Params) (during : list Event) (clock : Clock) (pool : Pool)
    : option Payload * Pool :=
  let poolType := default serverless (poolType params) in
  match truthy (TenantManager.getConnectionString tenantManager
                  (tenant params) (Some poolType)) with
  | None =>
      (Some (failurePayload params
               (Error ("No " +:+ PoolType_str poolType +:+
                       " pool configured for tenant: " +:+
                       js_or (tenant params) "default"))), pool)
  | Some connectionString =>
      match ConnectionPool.getConnection connectionString
              (workspace params) (database params) (PoolType_str poolType)
              pool with
      | (ConnectionPool.Resolved connection, pool) =>
          runQuery params clock connection pool
      | (ConnectionPool.Awaiting p, pool) =>
          let pool := ConnectionPool.run JSON_stringify pool during in
          let pool := ConnectionPool.resume p pool in
          match ConnectionPool.promiseState pool !! p with
          | Some (ConnectionPool.Fulfilled connection) =>
              runQuery params clock connection pool
          | Some (ConnectionPool.Rejected error) =>
              (Some (failurePayload params error), pool)
          | _ => (None, pool)
          end
      end
  end.
End Operations.

End SynapseOperations.


(** ** utils/error-handler.ts, the remaining helpers *)

Module ErrorHandlerUtils.
Import ErrorHandler.

(** Values as they come out of [JSON.parse] or off a thrown object.
    Numbers are integers here; an object lists its properties under
    distinct names. *)
#[warnings="-register-all"]
Inductive JsVal :=
| JUndefined
| JNull
| JBool (b : bool)
| JNumber (z : Z)
| JString (s : string)
| JObject (props : list (string * JsVal)).

Fixpoint assoc (k : string) (props : list (string * JsVal)) : JsVal :=
  match props with
  | [] => JUndefined
  | (k', x) :: props => if decide (k' = k) then x else assoc k props
  end.

(** [v?.k]: reading a property of anything but an object gives
    [undefined]. *)
Definition getProp (v : JsVal) (k : string) : JsVal :=
  match v with
  | JObject props => assoc k props
  | _ => JUndefined
  end.

Definition truthyVal (v : JsVal) : bool :=
  match v with
  | JUndefined | JNull => false
  | JBool b => b
  | JNumber z => negb (z =? 0)
  | JString s => negb (bool_decide (s = ""))
  | JObject _ => true
  end.

Definition extractErrorMessage (error : JsVal) : JsVal :=
  match error with
  | JString s => JString s
  | _ =>
      if truthyVal (getProp error "message") then getProp error "message"
      else if truthyVal (getProp (getProp error "error") "message") then
        getProp (getProp error "error") "message"
      else if truthyVal
                (getProp (getProp (getProp (getProp error "response") "data")
                            "error") "message") then
        getProp (getProp (getProp (getProp error "response") "data") "error")
                "message"
      else JString "Unknown error occurred"
  end.

(** [str.substring(0, maxLength)]: a negative bound counts as 0. *)
Definition truncateString (str : string) (maxLength : option Z) : string :=
  let maxLength := default 1000 maxLength in
  if bool_decide (Z.of_nat (String.length str) <= maxLength) then str
  else String.substring 0 (Z.to_nat maxLength) str +:+ "... (truncated)".

(** The two members of the MCP SDK's [ErrorCode] that are used. *)
Inductive ErrorCode := InvalidRequest | InternalError.

Definition mapHttpStatusToMcpError (statusCode : Z) : ErrorCode :=
  if bool_decide (statusCode = 400) then InvalidRequest
  else if bool_decide (statusCode = 401) then InvalidRequest
  else if bool_decide (statusCode = 403) then InvalidRequest
  else if bool_decide (statusCode = 404) then InvalidRequest
  else if bool_decide (statusCode = 429) then InvalidRequest
  else InternalError.

(** The time spent asleep in a run. *)
Definition sumDelays (tr : list Effect) : Z :=
  foldr Z.add 0 (omap (λ e, match e with Sleep d => Some d | _ => None end) tr).

Definition totalDelay {W T : Type} (o : Outcome W T) : Z :=
  sumDelays (effects o).
End ErrorHandlerUtils.

(** ** utils/tenant-manager.ts, configuration sources *)

Module TenantManagerConfig.
Import TenantManager.

(** The variables of [process.env] that the registry reads. *)
Record Env := mkEnv {
  AZURE_SYNAPSE_WORKSPACE : option string;
  AZURE_SUBSCRIPTION_ID : option string;
  AZURE_RESOURCE_GROUP : option string;
  AZURE_TENANT_ID : option string;
  AZURE_CLIENT_ID : option string;
  AZURE_CLIENT_SECRET : option string;
  SYNAPSE_DEDICATED_POOL : option string;
  SYNAPSE_DEDICATED_CONNECTION : option string;
  SYNAPSE_SERVERLESS_ENDPOINT : option string;
  SYNAPSE_SERVERLESS_CONNECTION : option string
}.

(** The configuration file as [loadConfiguration] finds it: absent,
    unreadable (reading it or [JSON.parse] throws, or what is parsed is
    not an object; this is caught and logged), or a document of the
    shape [saveConfiguration] writes. *)
Inductive ConfigFile :=
| NoFile
| Unreadable
| Document (defaultTenant : option string) (tenants : option (list TenantConfig)).

Definition parseSqlPoolsFromEnv (env : Env) : list SqlPool :=
  (match truthy (SYNAPSE_DEDICATED_POOL env) with
   | Some poolName =>
       [mkSqlPool poolName dedicated (js_or (SYNAPSE_DEDICATED_CONNECTION env) "")]
   | None => []
   end) ++
  (match truthy (SYNAPSE_SERVERLESS_ENDPOINT env) with
   | Some _ =>
       [mkSqlPool "serverless" serverless
          (js_or (SYNAPSE_SERVERLESS_CONNECTION env) "")]
   | None => []
   end).

Definition envTenant (env : Env) (workspace : string) : TenantConfig :=
  mkTenantConfig "default"
    (js_or (AZURE_SUBSCRIPTION_ID env) "")
    (js_or (AZURE_RESOURCE_GROUP env) "")
    workspace
    (parseSqlPoolsFromEnv env)
    (mkCredentialDecl default_credential (AZURE_TENANT_ID env)
       (AZURE_CLIENT_ID env) (AZURE_CLIENT_SECRET env))
    None.

Section Library.
Context {E : Type} `{!Identity E}.

(** The [for (const tenant of config.tenants || [])] loop; it ends
    at the first [addTenant] that throws. *)
Fixpoint addAll (configs : list TenantConfig) (tm : TenantManager.t)
    : option E * TenantManager.t :=
  match configs with
  | [] => (None, tm)
  | tenant :: configs =>
      match addTenant (name tenant) tenant tm with
      | (Some e, tm) => (Some e, tm)
      | (None, tm) => addAll configs tm
      end
  end.

(** The [try] block that reads the file.  Whatever is thrown in it is
    caught and logged: the tenants added before the throw stay, the
    rest of the file and its default are skipped. *)
Definition loadFile (file : ConfigFile) (tm : TenantManager.t)
    : TenantManager.t :=
  match file with
  | Document defaultName configs =>
      match addAll (default [] configs) tm with
      | (Some _, tm) => tm
      | (None, tm) =>
          TenantManager.mk (tenants tm) (credentialMap tm)
            (truthy defaultName) (tenantOrder tm)
      end
  | _ => tm
  end.

(** [loadConfiguration]; what the [addTenant] of the environment's
    tenant throws is not caught. *)
Definition loadConfiguration (file : ConfigFile) (env : Env)
    (tm : TenantManager.t) : option E * TenantManager.t :=
  let tm := loadFile file tm in
  match truthy (AZURE_SYNAPSE_WORKSPACE env) with
  | Some workspace =>
      match addTenant "default" (envTenant env workspace) tm with
      | (Some e, tm) => (Some e, tm)
      | (None, tm) =>
          (None,
           match truthy (defaultTenant tm) with
           | Some _ => tm
           | None =>
               TenantManager.mk (tenants tm) (credentialMap tm)
                 (Some "default") (tenantOrder tm)
           end)
      end
  | None => (None, tm)
  end.

(** [new TenantManager()]: the registry, or ([inl]) what the
    constructor throws. *)
Definition construct (file : ConfigFile) (env : Env) : E + TenantManager.t :=
  match loadConfiguration file env TenantManager.empty with
  | (Some e, _) => inl e
  | (None, tm) => inr tm
  end.
End Library.

(** The document [saveConfiguration] writes. *)
Definition saveConfiguration (tm : TenantManager.t) : ConfigFile :=
  Document (defaultTenant tm) (Some (tenantValues tm)).

(** The calls that change a registry once it is constructed.  A call
    that throws leaves the registry as it is at the throw: unchanged
    for [setDefaultTenant], with the configuration stored for
    [addTenant]. *)
Inductive Call :=
| AddTenant (n : string) (config : TenantConfig)
| RemoveTenant (n : string)
| SetDefaultTenant (n : string).

Definition apply {E : Type} `{!Identity E} (tm : TenantManager.t) (c : Call)
    : TenantManager.t :=
  match c with
  | AddTenant n config => (addTenant n config tm).2
  | RemoveTenant n => removeTenant n tm
  | SetDefaultTenant n =>
      match setDefaultTenant n tm with
      | inr tm => tm
      | inl _ => tm
      end
  end.

(** What makes [tenants] and [tenantOrder] one [Map]: the order lists
    the keys that have an entry, each once. *)
Definition keysListed (tm : TenantManager.t) : Prop :=
  NoDup (tenantOrder tm)
  ∧ (∀ n, n ∈ tenantOrder tm ↔ is_Some (tenants tm !! n)).

(** What holds of a registry that was built through its methods: the
    default, when set, names a registered tenant; only registered
    tenants have a credential entry; and the key order lists the
    registered names, each once. *)
Definition coherent (tm : TenantManager.t) : Prop :=
  (∀ d, defaultTenant tm = Some d → is_Some (tenants tm !! d))
  ∧ (∀ n, is_Some (credentialMap tm !! n) → is_Some (tenants tm !! n))
  ∧ keysListed tm.

(** The identity library builds the credential that [config] asks
    for, if it asks for one. *)
Definition accepts {E : Type} `{!Identity E} (config : TenantConfig) : Prop :=
  ∀ c, credentialFor (credentials config) = Some c → refuses c = None.

(** Each tenant has the credential its own declaration asks for. *)
Definition credentialsMatch (tm : TenantManager.t) : Prop :=
  ∀ n, credentialMap tm !! n
       = (λ config, credentialFor (credentials config)) <$> tenants tm !! n.
End TenantManagerConfig.

(** ** services/azure-auth.service.ts, choice of credential *)

Module AzureAuthSetup.
Import ErrorHandler.

(** The fields of the loaded configuration that [createCredential]
    reads; [authMethod] is whatever [AZURE_AUTH_METHOD] holds. *)
Record Config := mkConfig {
  authMethod : string;
  tenantId : string;
  clientId : string;
  clientSecret : string
}.

Inductive Credential :=
| ClientSecretCredential (tenantId clientId clientSecret : string)
| DefaultAzureCredential (tenantId : string).

Inductive CredentialObject :=
| Single (c : Credential)
| ChainedTokenCredential (cs : list Credential).

(** The constructors of @azure/identity, which is not part of this
    repository: [refuses o] is the value a constructor throws where it
    would have built [o] (the library checks the tenant id it is given,
    for one). *)
Class Identity := refuses : CredentialObject → option Thrown.

Section Library.
Context `{!Identity}.

Definition newCredential (c : Credential) : Completion Thrown Credential :=
  match refuses (Single c) with
  | Some e => Threw e
  | None => Returned c
  end.

(** What follows the [switch]: the fallback is built and appended,
    and a chain is built when there are two credentials. *)
Definition finish (credentials : list Credential) (config : Config)
    : Completion Thrown CredentialObject :=
  match newCredential (DefaultAzureCredential (tenantId config)) with
  | Threw e => Threw e
  | Returned fallback =>
      match credentials ++ [fallback] with
      | [c] => Returned (Single c)
      | credentials =>
          match refuses (ChainedTokenCredential credentials) with
          | Some e => Threw e
          | None => Returned (ChainedTokenCredential credentials)
          end
      end
  end.

Definition createCredential (config : Config)
    : Completion Thrown CredentialObject :=
  if decide (authMethod config = "client_credentials") then
    if negb (bool_decide (clientId config = ""))
       && negb (bool_decide (clientSecret config = ""))
       && negb (bool_decide (tenantId config = "")) then
      match newCredential
              (ClientSecretCredential (tenantId config) (clientId config)
                 (clientSecret config)) with
      | Threw e => Threw e
      | Returned c => finish [c] config
      end
    else
      Threw (AuthenticationError
               "Client credentials authentication requires AZURE_TENANT_ID, AZURE_CLIENT_ID, and AZURE_CLIENT_SECRET")
  else if decide (authMethod config = "managed_identity") then finish [] config
  else if decide (authMethod config = "azure_cli") then finish [] config
  else
    Threw (AuthenticationError
             ("Unsupported authentication method: " +:+ authMethod config)).
End Library.

(** The credentials an object tries, in order. *)
Definition chain (o : CredentialObject) : list Credential :=
  match o with
  | Single c => [c]
  | ChainedTokenCredential cs => cs
  end.
End AzureAuthSetup.

(** ** services/artifact.service.ts, the request wrapper *)

Module ArtifactService.
Import ErrorHandler ErrorHandlerUtils AzureAuthService.

Record HttpRequest := mkHttpRequest {
  method : string;
  url : string;
  data : JsVal;
  authorization : string
}.

Record HttpResponse := mkHttpResponse {
  status : Z;
  statusText : string;
  body : JsVal;
  headers : list (string * string)
}.

(** How [httpClient.request] settles: with a response axios accepts,
    with an axios error that carries the server's response, or with an
    error that carries none (no connection, timeout). *)
Inductive HttpResult :=
| Responded (r : HttpResponse)
| Refused (message : string) (r : HttpResponse)
| Failed (message : string).

Class HttpClient (H : Type) :=
  request : H → HttpRequest → HttpResult * H.

(** [headers[name]] *)
Fixpoint header (name : string) (hs : list (string * string)) : option string :=
  match hs with
  | [] => None
  | (k, x) :: hs => if decide (k = name) then Some x else header name hs
  end.

(** The message an [Error] gets from a truthy constructor argument. *)
Definition toStringVal (x : JsVal) : string :=
  match x with
  | JString s => s
  | JNumber z => pretty z
  | JBool true => "true"
  | JBool false => "false"
  | JNull => "null"
  | JUndefined => "undefined"
  | JObject _ => "[object Object]"
  end.

Section Service.
Context {C H : Type} `{!TokenCredential C} `{!HttpClient H}.
(** [Date.now()] as read by the [n]-th invocation of the operation. *)
Variable clockAt : nat → Z.

(** The token service, the server, the requests sent so far and the
    number of invocations so far. *)
Record World := mkWorld {
  auth : AzureAuthService.t C;
  http : H;
  sent : list HttpRequest;
  attempts : nat
}.

(** The function handed to [retryOperation]. *)
Definition operation (method url : string) (data : JsVal)
    : Operation World HttpResponse :=
  λ w,
    match getAuthorizationHeader (clockAt (attempts w)) (auth w) with
    | (Threw error, a) =>
        (Threw (Some error), mkWorld a (http w) (sent w) (S (attempts w)))
    | (Returned authHeader, a) =>
        let req := mkHttpRequest method url data authHeader in
        match request (http w) req with
        | (Responded r, h) =>
            (Returned r, mkWorld a h (sent w ++ [req]) (S (attempts w)))
        | (Refused message r, h) =>
            let extracted := extractErrorMessage (body r) in
            let text :=
              if truthyVal extracted then toStringVal extracted else message in
            (Threw (Some (SynapseApiError text (status r)
                            (header "x-ms-request-id" (headers r)))),
             mkWorld a h (sent w ++ [req]) (S (attempts w)))
        | (Failed message, h) =>
            (Threw (Some (Error message)),
             mkWorld a h (sent w ++ [req]) (S (attempts w)))
        end
    end.

Definition makeRequest (method url : string) (data : JsVal) (w : World)
    : Outcome World HttpResponse :=
  retryOperation (operation method url data) None None w.
End Service.

Arguments World : clear implicits.
End ArtifactService.

(** ** operations/stored-procedure-operations.ts, the EXEC statement *)

Module StoredProcedureOperations.

(** A parameter value: a string, [null], or anything else, which the
    template literal renders through [String(value)]. *)
Inductive ParamValue :=
| PString (s : string)
| PNull
| POther (rendered : string).

(** [value.replace(/'/g, "''")] *)
Fixpoint escapeQuotes (s : string) : string :=
  match s with
  | EmptyString => EmptyString
  | String a s =>
      if decide (a = "'"%char) then String "'" (String "'" (escapeQuotes s))
      else String a (escapeQuotes s)
  end.

Definition renderParameter (kv : string * ParamValue) : string :=
  match kv.2 with
  | PString value => "@" +:+ kv.1 +:+ " = '" +:+ escapeQuotes value +:+ "'"
  | PNull => "@" +:+ kv.1 +:+ " = NULL"
  | POther rendered => "@" +:+ kv.1 +:+ " = " +:+ rendered
  end.

(** [parts.join(', ')] *)
Fixpoint join (sep : string) (parts : list string) : string :=
  match parts with
  | [] => ""
  | [x] => x
  | x :: parts => x +:+ sep +:+ join sep parts
  end.

(** The statement [executeProcedure] submits. *)
Definition execStatement (schema procedureName : string)
    (parameters : option (list (string * ParamValue))) : string :=
  let execQuery := "EXEC [" +:+ schema +:+ "].[" +:+ procedureName +:+ "]" in
  match parameters with
  | Some (kv :: rest) =>
      execQuery +:+ " " +:+ join ", " (renderParameter <$> (kv :: rest))
  | _ => execQuery
  end.

(** How T-SQL reads the inside of a quoted literal: two quotes stand
    for one, a single quote would end the literal. *)
Fixpoint readLiteral (s : string) : option string :=
  match s with
  | EmptyString => Some EmptyString
  | String a s1 =>
      if decide (a = "'"%char) then
        match s1 with
        | String b s2 =>
            if decide (b = "'"%char) then String "'" <$> readLiteral s2
            else None
        | EmptyString => None
        end
      else String a <$> readLiteral s1
  end.
End StoredProcedureOperations.

(** ** utils/connection-pool.ts, reading a connection string

    Strings are taken to hold ASCII characters only, and [parseInt]
    yields exact integers. *)

Module ConnectionString.

(** [s.split(sep)] for a one-character separator. *)
Fixpoint split (sep : ascii) (s : string) : list string :=
  match s with
  | EmptyString => [EmptyString]
  | String a s =>
      if decide (a = sep) then EmptyString :: split sep s
      else
        match split sep s with
        | x :: xs => String a x :: xs
        | [] => [String a EmptyString]
        end
  end.

(** The white space and line terminators below 128. *)
Definition isWhiteSpace (a : ascii) : bool :=
  let n := nat_of_ascii a in
  ((9 <=? n)%nat && (n <=? 13)%nat) || (n =? 32)%nat.

Fixpoint trimStart (s : string) : string :=
  match s with
  | EmptyString => EmptyString
  | String a s' => if isWhiteSpace a then trimStart s' else s
  end.

Fixpoint trimEnd (s : string) : string :=
  match s with
  | EmptyString => EmptyString
  | String a s =>
      match trimEnd s with
      | EmptyString => if isWhiteSpace a then EmptyString else String a EmptyString
      | r => String a r
      end
  end.

Definition trim (s : string) : string := trimEnd (trimStart s).

Fixpoint dropChars (n : nat) (s : string) : string :=
  match n, s with
  | S n, String _ s => dropChars n s
  | _, _ => s
  end.

(** [s.replace(needle, '')] for a non-empty [needle]: the first
    occurrence is removed. *)
Fixpoint removeFirst (needle s : string) : string :=
  if String.prefix needle s then dropChars (String.length needle) s
  else
    match s with
    | EmptyString => EmptyString
    | String a s => String a (removeFirst needle s)
    end.

Definition digitValue (radix : Z) (a : ascii) : option Z :=
  let n := Z.of_nat (nat_of_ascii a) in
  let x :=
    if (48 <=? n) && (n <=? 57) then Some (n - 48)
    else if (97 <=? n) && (n <=? 122) then Some (n - 87)
    else if (65 <=? n) && (n <=? 90) then Some (n - 55)
    else None in
  match x with
  | Some x => if x <? radix then Some x else None
  | None => None
  end.

(** The longest run of digits at the start of [s], read in [radix],
    continuing from [acc]; [None] when there is no digit. *)
Fixpoint readDigits (radix : Z) (acc : option Z) (s : string) : option Z :=
  match s with
  | EmptyString => acc
  | String a s =>
      match digitValue radix a with
      | Some x => readDigits radix (Some (default 0 acc * radix + x)) s
      | None => acc
      end
  end.

(** The Numbers [parseInt] returns.  An integer of magnitude up to
    [2^53] is a Number as it stands ([Exact]); for a larger one the
    result is the Number nearest to the integer read (or to an
    approximation of it, which an implementation may take beyond 20
    significant digits), possibly an infinity: [Rounded] records the
    integer read and leaves the Number open. *)
Inductive ParsedInt :=
| NaN
| NegativeZero
| Exact (z : Z)
| Rounded (mathInt : Z).

Definition numberFor (sign mathInt : Z) : ParsedInt :=
  if mathInt =? 0 then (if sign <? 0 then NegativeZero else Exact 0)
  else if mathInt <=? 2 ^ 53 then Exact (sign * mathInt)
  else Rounded (sign * mathInt).

(** [parseInt(s)] with no radix given. *)
Definition parseInt (s : string) : ParsedInt :=
  let s := trimStart s in
  let '(sign, s) :=
    match s with
    | String "-" s => (-1, s)
    | String "+" s => (1, s)
    | _ => (1, s)
    end in
  let '(radix, s) :=
    match s with
    | String "0" (String "x" s) | String "0" (String "X" s) => (16, s)
    | _ => (10, s)
    end in
  match readDigits radix None s with
  | Some mathInt => numberFor sign mathInt
  | None => NaN
  end.

(** [a || b] where [a] may be [undefined] and [b] too. *)
Definition orElse (a b : option string) : option string :=
  match truthy a with
  | Some s => Some s
  | None => b
  end.

Inductive AuthenticationType := azure_active_directory_password | default_authentication.

(** The [ConnectionConfig] handed to tedious. *)
Record ConnectionConfig := mkConnectionConfig {
  server : string;
  authenticationType : AuthenticationType;
  userName : option string;
  password : option string;
  database : string;
  encrypt : bool;
  trustServerCertificate : bool;
  connectTimeout : Z;
  requestTimeout : Z;
  port : ParsedInt
}.

(** The body of the [forEach]: what one part adds to [params]. *)
Definition addPart (params : gmap string string) (part : string)
    : gmap string string :=
  match split "=" part with
  | key :: value :: _ =>
      if negb (bool_decide (key = "")) && negb (bool_decide (value = "")) then
        <[trim (toLowerCase key) := trim value]> params
      else params
  | _ => params
  end.

Definition readParams (connectionString : string) : gmap string string :=
  fold_left addPart (split ";" connectionString) ∅.

Definition parseConnectionString (connectionString : string) : ConnectionConfig :=
  let params := readParams connectionString in
  let server :=
    match params !! "server" with
    | Some x => js_or (head (split "," (removeFirst "tcp:" x))) ""
    | None => ""
    end in
  let port :=
    parseInt
      (match params !! "server" with
       | Some x => js_or (split "," x !! 1%nat) "1433"
       | None => "1433"
       end) in
  let database :=
    js_or (params !! "database") (js_or (params !! "initial catalog") "") in
  let authType := js_or (params !! "authentication") "default" in
  mkConnectionConfig server
    (if decide (authType = "Active Directory Password")
     then azure_active_directory_password else default_authentication)
    (orElse (params !! "user id") (params !! "uid"))
    (orElse (params !! "password") (params !! "pwd"))
    database true false 30000 30000 port.

(** No character of [s] is [c]. *)
Fixpoint without (c : ascii) (s : string) : Prop :=
  match s with
  | EmptyString => True
  | String a s => a ≠ c ∧ without c s
  end.

(** [s] is a non-empty run of decimal digits, and its value. *)
Fixpoint allDigits (s : string) : Prop :=
  match s with
  | EmptyString => True
  | String a s => is_Some (digitValue 10 a) ∧ allDigits s
  end.

Definition decimal (s : string) : Prop := s ≠ "" ∧ allDigits s.

Definition valueOfDecimal (s : string) : Z :=
  default 0 (readDigits 10 None s).
End ConnectionString.

(** * Concrete inputs used by the examples below *)

Module TenantExamples.
Import TenantManager.

Definition acme : TenantConfig :=
  mkTenantConfig "acme" "sub-1" "rg-1" "ws-acme"
    [ mkSqlPool "pool1" dedicated "Server=tcp:a,1433;Database=d1";
      mkSqlPool "ondemand" serverless "Server=tcp:b,1433;Database=d2";
      mkSqlPool "ondemand2" serverless "Server=tcp:c,1433;Database=d3" ]
    (mkCredentialDecl managed_identity None None None) None.

Definition globex : TenantConfig :=
  mkTenantConfig "globex" "sub-2" "rg-2" "ws-globex"
    [ mkSqlPool "pool1" dedicated "Server=tcp:g,1433;Database=d1" ]
    (mkCredentialDecl default_credential None None None) None.

(** An identity library that takes a tenant id made of letters,
    digits, dots and dashes, and throws on any other. *)
Definition tenantIdChar (a : ascii) : bool :=
  let n := nat_of_ascii a in
  ((48 <=? n) && (n <=? 57) || (65 <=? n) && (n <=? 90)
   || (97 <=? n) && (n <=? 122) || (n =? 45) || (n =? 46))%nat.

Fixpoint tenantIdChars (s : string) : bool :=
  match s with
  | EmptyString => true
  | String a s => tenantIdChar a && tenantIdChars s
  end.

#[global] Instance strict : Identity string :=
  λ c,
    match c with
    | ClientSecretCredential tenantId _ _ =>
        if tenantIdChars tenantId then None
        else Some "Invalid tenant id provided."
    | _ => None
    end.

Definition registry : TenantManager.t :=
  match setDefaultTenant "acme"
          (addTenant "globex" globex (addTenant "acme" acme empty).2).2 with
  | inr tm => tm
  | inl _ => empty
  end.

(** A service principal whose tenant id the library refuses. *)
Definition mistyped : TenantConfig :=
  mkTenantConfig "umbrella" "sub-4" "rg-4" "ws-umbrella" []
    (mkCredentialDecl service_principal (Some "contoso corp") (Some "cid")
       (Some "s3cret")) None.
End TenantExamples.

Module RetryExamples.
Import ErrorHandler.

(** An operation over a call counter that fails with a connection reset
    on its first two invocations and returns 42 afterwards. *)
Definition flaky : Operation nat Z :=
  λ calls,
    if (calls <? 2)%nat then (Threw (Some (Error "read ECONNRESET")), S calls)
    else (Returned 42, S calls).

(** An operation that is always answered with 404. *)
Definition notFound : Operation nat Z :=
  λ calls, (Threw (Some (SynapseApiError "Notebook not found" 404 None)), S calls).

(** An operation that is always answered with 503. *)
Definition unavailable : Operation nat Z :=
  λ calls, (Threw (Some (SynapseApiError "Service unavailable" 503 (Some "req-1"))), S calls).

(** One timeout, then the server answers 404. *)
Definition timeoutThenMissing : Operation nat Z :=
  λ calls,
    if (calls <? 1)%nat then (Threw (Some (Error "connect ETIMEDOUT")), S calls)
    else (Threw (Some (SynapseApiError "Notebook not found" 404 None)), S calls).

(** An operation that hands on the error of its HTTP client: an [Error]
    with status 404 that is not a [SynapseApiError]. *)
Definition missingUpstream : Operation nat Z :=
  λ calls,
    (Threw (Some (StatusError "Request failed with status code 404" 404)),
     S calls).

(** An operation that rejects with no value at all ([Promise.reject()]). *)
Definition rejectsBare : Operation nat Z :=
  λ calls, (Threw None, S calls).
End RetryExamples.

Module AuthExamples.
Import ErrorHandler AzureAuthService.

(** A credential driven by a script: each [getToken] call consumes the
    next scripted answer, and answers with [null] once the script has
    run out. *)
#[global] Instance scripted : TokenCredential (list GetTokenResult) :=
  λ script _,
    match script with
    | r :: script => (r, script)
    | [] => (GotNull, [])
    end.

Definition tokenA : AccessToken := mkAccessToken "eyJ.A" (Some 4000000).
Definition tokenB : AccessToken := mkAccessToken "eyJ.B" (Some 8000000).
Definition tokenNoExpiry : AccessToken := mkAccessToken "eyJ.N" None.

Definition service (script : list GetTokenResult) : AzureAuthService.t (list GetTokenResult) :=
  AzureAuthService.mk script None 0.

(** A service holding [tokenA], acquired earlier, whose credential now
    throws a bare string. *)
Definition stale : AzureAuthService.t (list GetTokenResult) :=
  AzureAuthService.mk [GetTokenThrew (NonError "quota exceeded")] (Some tokenA) 1.
End AuthExamples.

Module PoolExamples.
Import ErrorHandler ConnectionPool.

(** A server driven by a script: each [execSql] consumes the next
    scripted answer; an exhausted script answers with no rows. *)
#[global] Instance scriptedServer : Driver (list ExecResult) :=
  λ script _ _,
    match script with
    | r :: script => (r, script)
    | [] => (mkExecResult [] None, [])
    end.

Definition renderValue (x : ParamValue) : string :=
  match x with
  | PString s => "'" +:+ s +:+ "'"
  | PNumber (Integer z) => pretty z
  | PNumber (NonInteger r) => r
  | PBoolean true => "true"
  | PBoolean false => "false"
  | PDate ms => "@" +:+ pretty ms
  | POther r => r
  end.

(** A stand-in for [JSON.stringify] on parameter objects. *)
Definition stringify (ps : Parameters) : string :=
  "{" +:+ foldr (λ nv acc, nv.1 +:+ ":" +:+ renderValue nv.2 +:+ "," +:+ acc) "}" ps.

Definition dedicatedCs : string :=
  "Server=tcp:acme.sql.azuresynapse.net,1433;Database=db1".

Definition oneRow : ExecResult :=
  mkExecResult [[("n", VNumber 1)]] None.

Definition fresh : ConnectionPool.t (list ExecResult) := init 300 [oneRow].

(** Something else happening between two calls for "ws-db1-dedicated". *)
Definition elsewhere : list Event :=
  [CallGetConnection dedicatedCs "ws" "db2" "serverless"].

(** Two callers for "ws-db1-dedicated", with [elsewhere] in between. *)
Definition firstCall : Handle * ConnectionPool.t (list ExecResult) :=
  getConnection dedicatedCs "ws" "db1" "dedicated" fresh.

Definition secondCall : Handle * ConnectionPool.t (list ExecResult) :=
  getConnection dedicatedCs "ws" "db1" "dedicated"
    (run stringify firstCall.2 elsewhere).

(** A session is pooled, a statement is sent on it (tedious moves the
    connection to [SENT_CLIENT_REQUEST]), and a second caller asks for
    the same key before the statement has completed. *)
Definition busyTrace : list Event :=
  [CallGetConnection dedicatedCs "ws" "db1" "dedicated";
   EmitConnect 0 None;
   Resume 0;
   StateChange 0 SENT_CLIENT_REQUEST;
   CallGetConnection dedicatedCs "ws" "db1" "dedicated"].

(** The pool after a first caller's creation for "ws-db1-dedicated"
    has connected and the caller has resumed. *)
Definition pooled : ConnectionPool.t (list ExecResult) :=
  resume 0 (onConnect 0 None
              (getConnection dedicatedCs "ws" "db1" "dedicated" fresh).2).
End PoolExamples.

Module ConfigExamples.
Import TenantManager TenantManagerConfig.

(** A single-workspace setup: a dedicated pool is named but its
    connection string is not given. *)
Definition env : Env :=
  mkEnv (Some "ws-acme") (Some "sub-1") (Some "rg-1") None None None
        (Some "pool1") None None None.

Definition noEnv : Env :=
  mkEnv None None None None None None None None None None.

(** A file that registers its own "default" tenant and names "prod",
    which it does not define, as the default. *)
Definition fileDefault : TenantConfig :=
  mkTenantConfig "default" "sub-9" "rg-9" "ws-from-file" []
    (mkCredentialDecl managed_identity None None None) None.

Definition file : ConfigFile := Document (Some "prod") (Some [fileDefault]).

(** The registry constructed from [env] alone. *)
Definition envRegistry : TenantManager.t :=
  match construct NoFile env with
  | inr tm => tm
  | inl _ => TenantManager.empty
  end.

(** A file whose first tenant the identity library refuses. *)
Definition fileRefused : ConfigFile :=
  Document (Some "prod") (Some [TenantExamples.mistyped; fileDefault]).

(** A service principal whose secret was left empty. *)
Definition incomplete : TenantConfig :=
  mkTenantConfig "initech" "sub-3" "rg-3" "ws-initech" []
    (mkCredentialDecl service_principal (Some "tid") (Some "cid") (Some "")) None.
End ConfigExamples.

Module AuthSetupExamples.
Import ErrorHandler AzureAuthSetup.

(** An identity library that throws on a client secret credential
    whose tenant id has a character other than a letter, a digit, a
    dot or a dash. *)
#[global] Instance strictSetup : Identity :=
  λ o,
    match o with
    | Single (ClientSecretCredential tenantId _ _) =>
        if TenantExamples.tenantIdChars tenantId then None
        else Some (Error "Invalid tenant id provided.")
    | _ => None
    end.
End AuthSetupExamples.

Module ArtifactExamples.
Import ErrorHandler ErrorHandlerUtils AzureAuthService ArtifactService.

(** A server driven by a script of answers; once the script has run
    out, requests fail without a response. *)
#[global] Instance scriptedHttp : HttpClient (list HttpResult) :=
  λ script _,
    match script with
    | r :: script => (r, script)
    | [] => (Failed "socket hang up", [])
    end.

Definition notFound : HttpResult :=
  Refused "Request failed with status code 404"
    (mkHttpResponse 404 "Not Found"
       (JObject [("error", JObject [("code", JString "NotebookNotFound");
                                    ("message", JString "Notebook nb1 not found")])])
       [("content-type", "application/json"); ("x-ms-request-id", "req-42")]).

Definition clock : nat → Z := λ n, 1000 + 1000 * Z.of_nat n.

(** A service with a usable credential facing a server that answers
    404. *)
Definition world404 : World (list GetTokenResult) (list HttpResult) :=
  mkWorld (AuthExamples.service [GotToken AuthExamples.tokenA])
          [notFound] [] 0.

(** A credential that never yields a token. *)
#[global] Instance denied : TokenCredential unit :=
  λ _ _, (GetTokenThrew (Error "AADSTS7000215: invalid client secret"), tt).

Definition worldDenied : World unit (list HttpResult) :=
  mkWorld (AzureAuthService.mk tt None 0) [notFound] [] 0.
End ArtifactExamples.

(** * Properties *)

(** ** Tenant registry *)

Section TenantRegistry.
Import TenantManager.

Lemma find_kind_Some (kind : PoolType) (pools : list SqlPool) (pool : SqlPool) :
  List.find (λ p, bool_decide (pool_type p = kind)) pools = Some pool ↔
  ∃ before after, pools = before ++ pool :: after ∧
    Forall (λ p, pool_type p ≠ kind) before ∧ pool_type pool = kind.
Proof.
  induction pools as [|q pools IH]; simpl.
  - split; [done|]. intros (before & after & E & _). by destruct before.
  - case_bool_decide as Hq.
    + split.
      * intros [= ->]. by exists [], pools.
      * intros ([|q' before] & after & E & Hall & Hk); simplify_eq/=; [done|].
        by apply Forall_cons in Hall as [? _].
    + rewrite IH. split.
      * intros (before & after & -> & Hall & Hk).
        exists (q :: before), after. by repeat split; [constructor|].
      * intros ([|q' before] & after & E & Hall & Hk); simplify_eq/=.
        apply Forall_cons in Hall as [_ Hall]. by exists before, after.
Qed.

Lemma find_kind_None (kind : PoolType) (pools : list SqlPool) :
  List.find (λ p, bool_decide (pool_type p = kind)) pools = None ↔
  Forall (λ p, pool_type p ≠ kind) pools.
Proof.
  induction pools as [|q pools IH]; simpl; [by split|].
  case_bool_decide as Hq.
  - split; [done|]. by intros [? _]%Forall_cons.
  - rewrite IH. split; [by constructor | by intros [_ ?]%Forall_cons].
Qed.

(** C7: an omitted tenant name resolves to the explicitly set default
    tenant, else to the tenant registered as "default", else to nothing;
    for a resolved tenant the lookup returns the connection string of the
    first pool of the requested kind in list order, and nothing when the
    tenant is absent or has no pool of that kind. *)
Theorem getConnectionString_first_match
    (tm : TenantManager.t) (tenantName : option string) (kind : PoolType) :
  (∀ d, defaultTenant tm = Some d → d ≠ "" → getTenant tm None = tenants tm !! d)
  ∧ (defaultTenant tm = None → getTenant tm None = tenants tm !! "default")
  ∧ (getTenant tm tenantName = None →
       getConnectionString tm tenantName (Some kind) = None)
  ∧ (∀ tenant, getTenant tm tenantName = Some tenant →
       (∀ cs, getConnectionString tm tenantName (Some kind) = Some cs ↔
          ∃ before pool after,
            sqlPools tenant = before ++ pool :: after
            ∧ Forall (λ p, pool_type p ≠ kind) before
            ∧ pool_type pool = kind
            ∧ connectionString pool = cs)
       ∧ (getConnectionString tm tenantName (Some kind) = None ↔
            Forall (λ p, pool_type p ≠ kind) (sqlPools tenant))).
Proof.
  repeat split.
  - intros d Hd Hne. unfold getTenant, resolveName, js_or. simpl.
    rewrite Hd. simpl. by destruct (decide (d = "")).
  - intros Hd. unfold getTenant, resolveName, js_or. simpl. by rewrite Hd.
  - intros Hn. unfold getConnectionString. by rewrite Hn.
  - unfold getConnectionString. rewrite H. simpl.
    destruct (List.find _ _) as [pool|] eqn:Hf; [|done].
    intros [= <-]. apply find_kind_Some in Hf as (before & after & ? & ? & ?).
    by exists before, pool, after.
  - intros (before & pool & after & E & Hall & Hk & <-).
    unfold getConnectionString. rewrite H. simpl.
    assert (List.find (λ p, bool_decide (pool_type p = kind)) (sqlPools tenant)
            = Some pool) as ->; [|done].
    apply find_kind_Some. by exists before, after.
  - unfold getConnectionString. rewrite H. simpl.
    destruct (List.find _ _) eqn:Hf; [done|]. intros _. by apply find_kind_None.
  - intros Hall. unfold getConnectionString. rewrite H. simpl.
    apply find_kind_None in Hall. by rewrite Hall.
Qed.

(** C10: removing a registered tenant deletes its configuration and its
    credential, resets the default when it named that tenant, and leaves
    the entries of every other tenant (and any other default) as they
    were. *)
Theorem removeTenant_frame (tm : TenantManager.t) (n : string) :
  is_Some (tenants tm !! n) →
  tenants (removeTenant n tm) !! n = None
  ∧ credentialMap (removeTenant n tm) !! n = None
  ∧ (defaultTenant tm = Some n → defaultTenant (removeTenant n tm) = None)
  ∧ (defaultTenant tm ≠ Some n →
       defaultTenant (removeTenant n tm) = defaultTenant tm)
  ∧ (∀ m, m ≠ n →
       tenants (removeTenant n tm) !! m = tenants tm !! m
       ∧ credentialMap (removeTenant n tm) !! m = credentialMap tm !! m).
Proof.
  intros _. unfold removeTenant; simpl. repeat split.
  - apply lookup_delete_eq.
  - apply lookup_delete_eq.
  - intros Hd. by rewrite decide_True.
  - intros Hd. by rewrite decide_False.
  - by apply lookup_delete_ne.
  - by apply lookup_delete_ne.
Qed.
End TenantRegistry.

Lemma getConnectionString_first_match_witness :
  TenantManager.getConnectionString TenantExamples.registry None
    (Some TenantManager.serverless) = Some "Server=tcp:b,1433;Database=d2".
Proof.
  destruct (getConnectionString_first_match TenantExamples.registry None
              TenantManager.serverless) as (_ & _ & _ & H).
  destruct (H TenantExamples.acme) as [H1 _]; [reflexivity|].
  apply H1.
  exists [TenantManager.mkSqlPool "pool1" TenantManager.dedicated
            "Server=tcp:a,1433;Database=d1"],
    (TenantManager.mkSqlPool "ondemand" TenantManager.serverless
       "Server=tcp:b,1433;Database=d2"),
    [TenantManager.mkSqlPool "ondemand2" TenantManager.serverless
       "Server=tcp:c,1433;Database=d3"].
  repeat split. by repeat constructor.
Defined.

Lemma removeTenant_frame_witness :
  TenantManager.tenants
    (TenantManager.removeTenant "acme" TenantExamples.registry) !! "acme" = None
  ∧ TenantManager.defaultTenant
      (TenantManager.removeTenant "acme" TenantExamples.registry) = None
  ∧ TenantManager.tenants
      (TenantManager.removeTenant "acme" TenantExamples.registry) !! "globex"
    = Some TenantExamples.globex.
Proof.
  destruct (removeTenant_frame TenantExamples.registry "acme")
    as (H1 & _ & H3 & _ & H5).
  - by exists TenantExamples.acme.
  - split; [exact H1|]. split; [by apply H3|].
    destruct (H5 "globex") as [-> _]; [done|]. reflexivity.
Defined.

(** ** Resilient request executor *)

Section RetryProperties.
Import ErrorHandler.
Context {W T : Type}.
Implicit Types (op : Operation W T) (w : W) (tr : list Effect).

Lemma outcomeAt_S op n w :
  outcomeAt op (S n) w = outcomeAt op n (op w).2.
Proof. reflexivity. Qed.

Lemma outcomeAt_O op w : outcomeAt op 0 w = (op w).1.
Proof. reflexivity. Qed.

(** [n] transient failures followed by a success, with room for them. *)
Lemma retryLoop_success op m b v n :
  ∀ fuel attempt lastError w tr,
    (n < fuel)%nat → attempt + Z.of_nat n <= m →
    (∀ i, (i < n)%nat →
       ∃ e, outcomeAt op i w = Threw e ∧ isClientError e = false) →
    outcomeAt op n w = Returned v →
    retryLoop op m b fuel attempt lastError w tr
    = mkOutcome (Returned v) (worldAfter op (S n) w)
        (tr ++ backoff m b attempt n ++ [Invoke]).
Proof.
  induction n as [|n IH]; intros fuel attempt lastError w tr Hfuel Hm Hfail Hok.
  - destruct fuel as [|fuel]; [lia|]. simpl.
    rewrite bool_decide_eq_true_2 by lia.
    rewrite outcomeAt_O in Hok. destruct (op w) as [c w'] eqn:E.
    simpl in Hok. by subst c.
  - destruct fuel as [|fuel]; [lia|]. simpl.
    rewrite bool_decide_eq_true_2 by lia.
    destruct (Hfail 0%nat) as (e & He & Hc); [lia|].
    rewrite outcomeAt_O in He. destruct (op w) as [c w'] eqn:E.
    simpl in He. subst c.
    rewrite bool_decide_eq_false_2 by lia. rewrite Hc.
    rewrite (IH fuel (attempt + 1) e w'); try lia.
    + f_equal. rewrite <-!app_assoc. reflexivity.
    + intros i Hi. destruct (Hfail (S i)) as (e' & He' & Hc'); [lia|].
      rewrite outcomeAt_S, E in He'. eauto.
    + by rewrite outcomeAt_S, E in Hok.
Qed.

(** [n] transient failures followed by a failure on the last attempt. *)
Lemma retryLoop_exhausted op m b e n :
  ∀ fuel attempt lastError w tr,
    (n < fuel)%nat → attempt + Z.of_nat n = m →
    (∀ i, (i < n)%nat →
       ∃ e', outcomeAt op i w = Threw e' ∧ isClientError e' = false) →
    outcomeAt op n w = Threw e →
    retryLoop op m b fuel attempt lastError w tr
    = mkOutcome (Threw e) (worldAfter op (S n) w)
        (tr ++ backoff m b attempt n ++ [Invoke]).
Proof.
  induction n as [|n IH]; intros fuel attempt lastError w tr Hfuel Hm Hfail Hlast.
  - destruct fuel as [|fuel]; [lia|]. simpl.
    rewrite bool_decide_eq_true_2 by lia.
    rewrite outcomeAt_O in Hlast. destruct (op w) as [c w'] eqn:E.
    simpl in Hlast. subst c.
    by rewrite bool_decide_eq_true_2 by lia.
  - destruct fuel as [|fuel]; [lia|]. simpl.
    rewrite bool_decide_eq_true_2 by lia.
    destruct (Hfail 0%nat) as (e' & He' & Hc); [lia|].
    rewrite outcomeAt_O in He'. destruct (op w) as [c w'] eqn:E.
    simpl in He'. subst c.
    rewrite bool_decide_eq_false_2 by lia. rewrite Hc.
    rewrite (IH fuel (attempt + 1) e' w'); try lia.
    + f_equal. rewrite <-!app_assoc. reflexivity.
    + intros i Hi. destruct (Hfail (S i)) as (e'' & He'' & Hc''); [lia|].
      rewrite outcomeAt_S, E in He''. eauto.
    + by rewrite outcomeAt_S, E in Hlast.
Qed.

Lemma countInvoke_app tr1 tr2 :
  countInvoke (tr1 ++ tr2) = (countInvoke tr1 + countInvoke tr2)%nat.
Proof. unfold countInvoke. by rewrite filter_app, length_app. Qed.

(** No run invokes the operation more often than the loop iterates. *)
Lemma retryLoop_invocations op m b :
  ∀ fuel attempt lastError w tr,
    (invocations (retryLoop op m b fuel attempt lastError w tr)
     <= countInvoke tr + fuel)%nat.
Proof.
  induction fuel as [|fuel IH]; intros attempt lastError w tr; simpl.
  - unfold invocations, countInvoke. simpl. lia.
  - case_bool_decide; [|unfold invocations, countInvoke; simpl; lia].
    destruct (op w) as [[v|e] w'].
    + unfold invocations. simpl. fold (countInvoke (tr ++ [Invoke])).
      rewrite countInvoke_app. unfold countInvoke at 2. simpl. lia.
    + case_bool_decide.
      { unfold invocations. simpl. fold (countInvoke (tr ++ [Invoke])).
        rewrite countInvoke_app. unfold countInvoke at 2. simpl. lia. }
      destruct (isClientError e).
      { unfold invocations. simpl. fold (countInvoke (tr ++ [Invoke])).
        rewrite countInvoke_app. unfold countInvoke at 2. simpl. lia. }
      etrans; [apply IH|]. rewrite !countInvoke_app.
      unfold countInvoke at 2 3. simpl. lia.
Qed.

Lemma delays_backoff m b attempt n :
  omap (λ e, match e with Sleep d => Some d | _ => None end)
       (backoff m b attempt n ++ [Invoke])
  = (λ i : nat, b * 2 ^ (attempt + Z.of_nat i)) <$> seq 0 n.
Proof.
  revert attempt. induction n as [|n IH]; intros attempt; simpl; [done|].
  rewrite IH. f_equal; [by rewrite Z.add_0_r|].
  rewrite <-fmap_S_seq, <-list_fmap_compose. apply list_fmap_ext.
  intros _ i _. simpl. do 2 f_equal. lia.
Qed.

(** C2, as amended: when the operation fails with a [SynapseApiError]
    whose status lies in [400,500), [retryOperation] has invoked it
    exactly once, logs no retry, sleeps not at all, and throws that
    very error.  (The status of an error of any other class is not
    looked at.) *)
Theorem retryOperation_client_error op maxRetries baseDelay w
    message statusCode requestId w' :
  0 <= default 3 maxRetries →
  op w = (Threw (Some (SynapseApiError message statusCode requestId)), w') →
  400 <= statusCode < 500 →
  retryOperation op maxRetries baseDelay w
  = mkOutcome (Threw (Some (SynapseApiError message statusCode requestId)))
      w' [Invoke]
  ∧ invocations (retryOperation op maxRetries baseDelay w) = 1%nat
  ∧ delays (retryOperation op maxRetries baseDelay w) = [].
Proof.
  intros Hm Hop Hstatus.
  assert (retryOperation op maxRetries baseDelay w
          = mkOutcome (Threw (Some (SynapseApiError message statusCode requestId)))
              w' [Invoke]) as ->; [|done].
  unfold retryOperation.
  destruct (Z.to_nat (default 3 maxRetries + 1)) as [|fuel] eqn:Hfuel; [lia|].
  simpl. rewrite bool_decide_eq_true_2 by lia. rewrite Hop.
  case_bool_decide; [done|]. simpl.
  by rewrite !bool_decide_eq_true_2 by lia.
Qed.

(** C5: a failure that is not a client error is retried after a sleep
    of [baseDelay * 2 ^ attempt]; the first success among the allowed
    attempts is returned at once; when every allowed attempt has failed
    the error of the last one is thrown; no more than [maxRetries + 1]
    attempts are ever made, which is 4 with the defaults (and then the
    delays are multiples of 1000 ms). *)
Theorem retryOperation_backoff op maxRetries baseDelay w :
  let m := default 3 maxRetries in
  let b := default 1000 baseDelay in
  0 <= m →
  (∀ (n : nat) v,
      Z.of_nat n <= m →
      (∀ i, (i < n)%nat →
         ∃ e, outcomeAt op i w = Threw e ∧ isClientError e = false) →
      outcomeAt op n w = Returned v →
      retryOperation op maxRetries baseDelay w
      = mkOutcome (Returned v) (worldAfter op (S n) w)
          (backoff m b 0 n ++ [Invoke])
      ∧ delays (retryOperation op maxRetries baseDelay w)
        = (λ i : nat, b * 2 ^ Z.of_nat i) <$> seq 0 n)
  ∧ (∀ e,
      (∀ i, (i < Z.to_nat m)%nat →
         ∃ e', outcomeAt op i w = Threw e' ∧ isClientError e' = false) →
      outcomeAt op (Z.to_nat m) w = Threw e →
      retryOperation op maxRetries baseDelay w
      = mkOutcome (Threw e) (worldAfter op (S (Z.to_nat m)) w)
          (backoff m b 0 (Z.to_nat m) ++ [Invoke])
      ∧ delays (retryOperation op maxRetries baseDelay w)
        = (λ i : nat, b * 2 ^ Z.of_nat i) <$> seq 0 (Z.to_nat m))
  ∧ (invocations (retryOperation op maxRetries baseDelay w)
     <= Z.to_nat (m + 1))%nat
  ∧ (invocations (retryOperation op None None w) <= 4)%nat.
Proof.
  intros m b Hm. repeat split.
  - unfold retryOperation. fold m b.
    rewrite (retryLoop_success op m b v n); [done|lia|lia|done|done].
  - unfold retryOperation, delays. fold m b.
    rewrite (retryLoop_success op m b v n); [|lia|lia|done|done].
    simpl. by rewrite delays_backoff.
  - unfold retryOperation. fold m b.
    rewrite (retryLoop_exhausted op m b e (Z.to_nat m)); [done|lia|lia|done|done].
  - unfold retryOperation, delays. fold m b.
    rewrite (retryLoop_exhausted op m b e (Z.to_nat m)); [|lia|lia|done|done].
    simpl. by rewrite delays_backoff.
  - unfold retryOperation. fold m. etrans; [apply retryLoop_invocations|].
    unfold countInvoke. simpl. lia.
  - unfold retryOperation. etrans; [apply retryLoop_invocations|].
    unfold countInvoke. simpl. lia.
Qed.
End RetryProperties.

Lemma retryOperation_client_error_witness :
  ErrorHandler.retryOperation RetryExamples.notFound None None 0%nat
  = ErrorHandler.mkOutcome
      (Threw (Some (ErrorHandler.SynapseApiError "Notebook not found" 404 None)))
      1%nat [ErrorHandler.Invoke].
Proof.
  refine (proj1 (retryOperation_client_error RetryExamples.notFound None None
                   0%nat "Notebook not found" 404 None 1%nat _ _ _)).
  - simpl. lia.
  - reflexivity.
  - lia.
Defined.

(** C2 as first stated fails: an error that carries status 404 but is not
    a [SynapseApiError] is retried like any transient failure, four
    invocations and three delays with the defaults. *)
Lemma retryOperation_status_error_retried :
  ¬ (∀ (op : ErrorHandler.Operation nat Z) e status w,
       ErrorHandler.statusOf e = Some status → 400 <= status < 500 →
       (∀ w', (op w').1 = Threw (Some e)) →
       ErrorHandler.invocations (ErrorHandler.retryOperation op None None w) = 1%nat
       ∧ ErrorHandler.delays (ErrorHandler.retryOperation op None None w) = []).
Proof.
  intros H.
  destruct (H RetryExamples.missingUpstream
              (ErrorHandler.StatusError "Request failed with status code 404" 404)
              404 0%nat) as [Hinv _]; [reflexivity|lia|done|].
  vm_compute in Hinv. discriminate.
Qed.

Lemma retryOperation_backoff_witness :
  ErrorHandler.retryOperation RetryExamples.flaky None None 0%nat
  = ErrorHandler.mkOutcome (Returned 42) 3%nat
      [ErrorHandler.Invoke; ErrorHandler.Warn 1 4 1000; ErrorHandler.Sleep 1000;
       ErrorHandler.Invoke; ErrorHandler.Warn 2 4 2000; ErrorHandler.Sleep 2000;
       ErrorHandler.Invoke]
  ∧ ErrorHandler.delays
      (ErrorHandler.retryOperation RetryExamples.flaky None None 0%nat)
    = [1000; 2000].
Proof.
  assert (0 <= default 3 (@None Z)) as Hm by (simpl; lia).
  destruct (retryOperation_backoff RetryExamples.flaky None None 0%nat Hm)
    as (Hsucc & _).
  apply (Hsucc 2%nat 42).
  - simpl. lia.
  - intros i Hi. exists (Some (ErrorHandler.Error "read ECONNRESET")).
    destruct i as [|[|i]]; [done|done|lia].
  - reflexivity.
Defined.

(** ** Token cache *)

Section TokenCache.
Import ErrorHandler AzureAuthService.
Context {C : Type} `{!TokenCredential C}.
Implicit Types (s : AzureAuthService.t C) (now : Z) (tok : AccessToken).

Lemma isTokenValid_true now tok :
  0 <= now →
  isTokenValid now tok = true ↔
  ∃ expiry, expiresOnTimestamp tok = Some expiry ∧ expiry - now > 5 * 60 * 1000.
Proof.
  intros Hnow. unfold isTokenValid, tokenExpirationBuffer.
  destruct (expiresOnTimestamp tok) as [e|].
  - destruct (decide (e = 0)) as [->|Hne].
    + split; [done|]. intros (? & [= <-] & ?). lia.
    + rewrite bool_decide_eq_true. split; [eauto|]. by intros (? & [= <-] & ?).
  - split; [done|]. by intros (? & ? & _).
Qed.

Lemma acquire_acquisitions s :
  acquisitions (acquire s).2 = S (acquisitions s).
Proof.
  unfold acquire, onFailure.
  destruct (getToken (credential s) scope) as [[tokenResponse| |e] c]; simpl;
    try done; by destruct (messageOf _).
Qed.

Lemma getAccessToken_fresh now s :
  0 <= now → cacheFresh now s →
  ∃ tok, cachedToken s = Some tok ∧ getAccessToken now s = (Returned (token tok), s).
Proof.
  intros Hnow (tok & e & Hc & He & Hlt). exists tok. split; [done|].
  unfold getAccessToken. rewrite Hc.
  assert (isTokenValid now tok = true) as ->; [|done].
  apply isTokenValid_true; eauto.
Qed.

Lemma getAccessToken_not_fresh now s :
  0 <= now → ¬ cacheFresh now s → getAccessToken now s = acquire s.
Proof.
  intros Hnow Hnf. unfold getAccessToken.
  destruct (cachedToken s) as [tok|] eqn:Hc; [|done].
  destruct (isTokenValid now tok) eqn:Hv; [|done].
  exfalso. apply Hnf. apply isTokenValid_true in Hv as (e & ? & ?); [|done].
  by exists tok, e.
Qed.

Lemma classic_fresh now s : cacheFresh now s ∨ ¬ cacheFresh now s.
Proof.
  unfold cacheFresh.
  destruct (cachedToken s) as [tok|]; [|right; by intros (? & ? & ? & _)].
  destruct (expiresOnTimestamp tok) as [e|] eqn:He;
    [|right; intros (? & ? & ? & ? & _); congruence].
  destruct (decide (e - now > 5 * 60 * 1000)).
  - left. by exists tok, e.
  - right. intros (? & ? & ? & ? & ?). simplify_eq. lia.
Qed.

(** C3: the cached token is returned, with no new acquisition, exactly
    when a token is cached and expires more than five minutes from now;
    every other call acquires once; a cached token without expiry is
    never served; two calls made while the first call's token is still
    that far from expiry acquire once in total; and a call after the
    cache was dropped, or after the token came within five minutes of
    expiry, acquires again. *)
Theorem getAccessToken_cache s now :
  0 <= now →
  (acquisitions (getAccessToken now s).2 = acquisitions s ↔ cacheFresh now s)
  ∧ (cacheFresh now s →
       ∃ tok, cachedToken s = Some tok
              ∧ getAccessToken now s = (Returned (token tok), s))
  ∧ (¬ cacheFresh now s →
       acquisitions (getAccessToken now s).2 = S (acquisitions s))
  ∧ (∀ tok, cachedToken s = Some tok → expiresOnTimestamp tok = None →
       acquisitions (getAccessToken now s).2 = S (acquisitions s))
  ∧ (∀ fresh c expiry later,
       ¬ cacheFresh now s →
       getToken (credential s) scope = (GotToken fresh, c) →
       expiresOnTimestamp fresh = Some expiry →
       0 <= later → expiry - later > 5 * 60 * 1000 →
       (getAccessToken now s).1 = Returned (token fresh)
       ∧ (getAccessToken later (getAccessToken now s).2).1 = Returned (token fresh)
       ∧ acquisitions (getAccessToken later (getAccessToken now s).2).2
         = S (acquisitions s))
  ∧ acquisitions (refreshToken now s).2 = S (acquisitions s)
  ∧ (∀ tok expiry, cachedToken s = Some tok →
       expiresOnTimestamp tok = Some expiry → expiry - now <= 5 * 60 * 1000 →
       acquisitions (getAccessToken now s).2 = S (acquisitions s)).
Proof.
  intros Hnow.
  assert (¬ cacheFresh now s →
          acquisitions (getAccessToken now s).2 = S (acquisitions s)) as Hslow.
  { intros Hnf. rewrite getAccessToken_not_fresh by done.
    apply acquire_acquisitions. }
  split; [|split; [|split; [|split; [|split; [|split]]]]].
  - split.
    + intros Heq. destruct (classic_fresh now s) as [?|Hnf]; [done|].
      rewrite Hslow in Heq by done. lia.
    + intros Hf. by destruct (getAccessToken_fresh now s) as (? & _ & ->).
  - by apply getAccessToken_fresh.
  - done.
  - intros tok Hc He. apply Hslow. intros (tok' & e & Hc' & He' & _). congruence.
  - intros fresh c expiry later Hnf Hget He Hlater Hlt.
    rewrite getAccessToken_not_fresh by done.
    unfold acquire. rewrite Hget. simpl.
    split; [done|].
    destruct (getAccessToken_fresh later
                (AzureAuthService.mk c (Some fresh) (S (acquisitions s))))
      as (tok & [= <-] & ->); [done| |done].
    by exists fresh, expiry.
  - unfold refreshToken. rewrite getAccessToken_not_fresh; [|done|].
    + by rewrite acquire_acquisitions.
    + by intros (? & ? & ? & _).
  - intros tok expiry Hc He Hle. apply Hslow.
    intros (tok' & e & Hc' & He' & ?). simplify_eq. lia.
Qed.
End TokenCache.

Lemma getAccessToken_cache_witness :
  (AzureAuthService.getAccessToken 1000
     (AuthExamples.service [AzureAuthService.GotToken AuthExamples.tokenA;
                            AzureAuthService.GotToken AuthExamples.tokenB])).1
  = Returned "eyJ.A"
  ∧ (AzureAuthService.getAccessToken 2000000
       (AzureAuthService.getAccessToken 1000
          (AuthExamples.service [AzureAuthService.GotToken AuthExamples.tokenA;
                                 AzureAuthService.GotToken AuthExamples.tokenB])).2).1
    = Returned "eyJ.A"
  ∧ AzureAuthService.acquisitions
      (AzureAuthService.getAccessToken 2000000
         (AzureAuthService.getAccessToken 1000
            (AuthExamples.service [AzureAuthService.GotToken AuthExamples.tokenA;
                                   AzureAuthService.GotToken AuthExamples.tokenB])).2).2
    = 1%nat.
Proof.
  assert (0 <= 1000) as Hnow by lia.
  destruct (getAccessToken_cache
              (AuthExamples.service [AzureAuthService.GotToken AuthExamples.tokenA;
                                     AzureAuthService.GotToken AuthExamples.tokenB])
              1000 Hnow) as (_ & _ & _ & _ & H & _).
  apply (H AuthExamples.tokenA [AzureAuthService.GotToken AuthExamples.tokenB]
           4000000 2000000).
  - by intros (? & ? & ? & _).
  - reflexivity.
  - reflexivity.
  - lia.
  - lia.
Defined.

Section TokenFailure.
Import ErrorHandler AzureAuthService.
Context {C : Type} `{!TokenCredential C}.
Implicit Types (s : AzureAuthService.t C) (now : Z).

Lemma prefix_refl (x : string) : String.prefix x x = true.
Proof.
  induction x as [|a x IH]; simpl; [done|].
  by destruct (ascii_dec a a).
Qed.

Lemma includes_append (pre x : string) : includes x (pre +:+ x) = true.
Proof.
  assert (∀ needle hay, String.prefix needle hay = true →
                        includes needle hay = true) as Hpre.
  { intros needle [|b hay] Hp; cbn [includes]; by rewrite Hp. }
  induction pre as [|a pre IH]; simpl.
  - apply Hpre, prefix_refl.
  - rewrite IH. apply orb_true_r.
Qed.

Lemma acquire_failure s cause :
  causeOf (getToken (credential s) scope).1 = Some cause →
  acquire s
  = (Threw (AuthenticationError
              ("Failed to acquire access token: " +:+
               default "Unknown error" (messageOf cause))),
     AzureAuthService.mk (getToken (credential s) scope).2 None
       (S (acquisitions s))).
Proof.
  unfold acquire, onFailure.
  destruct (getToken (credential s) scope) as [[tokenResponse| |e] c]; simpl;
    intros [= <-]; [done|].
  by destruct (messageOf e).
Qed.

(** C8, as the code has it: when the credential throws or yields no
    token, the call clears the cached token and throws an
    [AuthenticationError] whose message is "Failed to acquire access
    token: " followed by the message of the cause when the cause is an
    [Error], and by "Unknown error" when it is any other thrown value;
    in the former case the raised error wraps the cause. *)
Theorem getAccessToken_failure s now cause :
  0 <= now →
  ¬ cacheFresh now s →
  causeOf (getToken (credential s) scope).1 = Some cause →
  cachedToken (getAccessToken now s).2 = None
  ∧ (getAccessToken now s).1
    = Threw (AuthenticationError
               ("Failed to acquire access token: " +:+
                default "Unknown error" (messageOf cause)))
  ∧ (instanceofError cause = true →
     ∃ raised, (getAccessToken now s).1 = Threw raised ∧ wraps cause raised)
  ∧ (instanceofError cause = false →
     (getAccessToken now s).1
     = Threw (AuthenticationError "Failed to acquire access token: Unknown error")).
Proof.
  intros Hnow Hnf Hcause.
  rewrite getAccessToken_not_fresh by done.
  rewrite (acquire_failure s cause Hcause). simpl.
  split; [done|]. split; [done|]. split.
  - intros Herr. eexists. split; [done|]. eexists. split; [done|].
    destruct cause; try discriminate; apply includes_append.
  - intros Herr. by destruct cause.
Qed.
End TokenFailure.

Lemma getAccessToken_failure_witness :
  AzureAuthService.cachedToken
    (AzureAuthService.getAccessToken 5000000
       (AzureAuthService.mk
          [AzureAuthService.GetTokenThrew (ErrorHandler.Error "AADSTS700016")]
          (Some AuthExamples.tokenA) 1)).2 = None
  ∧ (AzureAuthService.getAccessToken 5000000
       (AzureAuthService.mk
          [AzureAuthService.GetTokenThrew (ErrorHandler.Error "AADSTS700016")]
          (Some AuthExamples.tokenA) 1)).1
    = Threw (ErrorHandler.AuthenticationError
               "Failed to acquire access token: AADSTS700016").
Proof.
  assert (0 <= 5000000) as Hnow by lia.
  destruct (getAccessToken_failure
              (AzureAuthService.mk
                 [AzureAuthService.GetTokenThrew (ErrorHandler.Error "AADSTS700016")]
                 (Some AuthExamples.tokenA) 1)
              5000000 (ErrorHandler.Error "AADSTS700016") Hnow)
    as (H1 & H2 & _).
  - intros (tok & e & [= <-] & [= <-] & Hlt). lia.
  - reflexivity.
  - split; [exact H1 | exact H2].
Defined.

(** C8 as first stated fails: a credential that throws a value which is
    not an [Error] has that value replaced by "Unknown error". *)
Lemma getAccessToken_non_error_cause_not_wrapped :
  ¬ AzureAuthService.failureWrapsCause 5000000 AuthExamples.stale.
Proof.
  intros H.
  destruct (H (ErrorHandler.NonError "quota exceeded")) as (_ & raised & Hr & m & -> & Hm).
  - intros (tok & e & [= <-] & [= <-] & Hlt). lia.
  - reflexivity.
  - vm_compute in Hr. injection Hr as <-. vm_compute in Hm. discriminate.
Qed.

(** ** Connection pool *)

Section PoolInvariant.
Import ErrorHandler ConnectionPool.
Context {B : Type} `{!Driver B}.
Variable JSON_stringify : Parameters → string.
Implicit Types (s : ConnectionPool.t B) (p q : nat) (key : string).

Abbreviation step := (ConnectionPool.step JSON_stringify).
Abbreviation run := (ConnectionPool.run JSON_stringify).
Abbreviation reachable := (ConnectionPool.reachable JSON_stringify).

(** [consistent] only reads five of the fields. *)
Lemma consistent_frame s s' :
  connectionPromises s' = connectionPromises s →
  attemptKey s' = attemptKey s →
  promiseState s' = promiseState s →
  awaiting s' = awaiting s →
  nextId s' = nextId s →
  consistent s → consistent s'.
Proof.
  intros E1 E2 E3 E4 E5 [H1 H2 H3 H4 H5].
  split; unfold inFlight; rewrite ?E1, ?E2, ?E3, ?E4, ?E5; auto.
Qed.

Lemma consistent_init ttl (b : B) : consistent (init ttl b).
Proof.
  split; unfold inFlight; simpl.
  - intros key p. by rewrite lookup_empty.
  - intros p. set_solver.
  - intros p [? Hp]. by rewrite lookup_empty in Hp.
  - intros p [? Hp]. by rewrite lookup_empty in Hp.
  - intros p. by rewrite lookup_empty.
Qed.

Lemma consistent_startCreation cs key s :
  consistent s → connectionPromises s !! key = None →
  consistent (startCreation cs key s).2.
Proof.
  intros [H1 H2 H3 H4 H5] Hnone.
  assert (∀ q, is_Some (attemptKey s !! q) → q ≠ nextId s) as Hfresh.
  { intros q Hq%H3. lia. }
  split; unfold inFlight; simpl.
  - intros k q. destruct (decide (key = k)) as [->|Hk].
    + rewrite lookup_insert_eq. intros [= <-].
      rewrite lookup_insert_eq. split; [done|set_solver].
    + rewrite lookup_insert_ne by done. intros Hq.
      destruct (H1 _ _ Hq) as [Hkq Haw].
      rewrite lookup_insert_ne by (apply not_eq_sym, Hfresh; eauto).
      split; [done|set_solver].
  - intros q [->%elem_of_singleton|Hq]%elem_of_union.
    + exists key. by rewrite !lookup_insert_eq.
    + destruct (H2 _ Hq) as (k & Hk & Hp). exists k.
      rewrite lookup_insert_ne by (apply not_eq_sym, Hfresh; eauto).
      split; [done|]. rewrite lookup_insert_ne; [done|]. congruence.
  - intros q. destruct (decide (nextId s = q)) as [<-|Hq]; [lia|].
    rewrite lookup_insert_ne by done. intros ?%H3. lia.
  - intros q. destruct (decide (nextId s = q)) as [<-|Hq]; [lia|].
    rewrite lookup_insert_ne by done. intros ?%H4. lia.
  - intros q. destruct (decide (nextId s = q)) as [<-|Hq]; [set_solver|].
    rewrite lookup_insert_ne by done. intros ?%H5. set_solver.
Qed.

Lemma consistent_getConnection cs w d k s :
  consistent s → consistent (getConnection cs w d k s).2.
Proof.
  intros Hs. unfold getConnection.
  set (s0 := countCall s).
  assert (consistent s0) as Hs0 by (by apply (consistent_frame s)).
  assert (consistent
            (match connectionPromises s0 !! getConnectionKey w d k with
             | Some existingPromise => (Awaiting existingPromise, s0)
             | None =>
                 let '(p, s1) := startCreation cs (getConnectionKey w d k) s0 in
                 (Awaiting p, s1)
             end).2) as Hrest.
  { destruct (connectionPromises s0 !! getConnectionKey w d k) eqn:Hp; [done|].
    by apply (consistent_startCreation cs) in Hp. }
  destruct (connections s0 !! getConnectionKey w d k) as [c|]; [|done].
  by destruct (loggedIn s0 c).
Qed.

Lemma consistent_onConnect c err s :
  consistent s → consistent (onConnect c err s).
Proof.
  intros [H1 H2 H3 H4 H5]. unfold onConnect.
  destruct (promiseState s !! c) as [[| |]|] eqn:Hc; try by split.
  assert (c < nextId s)%nat as Hlt by (apply H4; eauto).
  destruct err as [e|]; split; unfold inFlight; simpl; auto.
  - intros q [v Hq]. destruct (decide (c = q)) as [<-|?]; [done|].
    rewrite lookup_insert_ne in Hq by done. apply H4; eauto.
  - intros q. destruct (decide (c = q)) as [<-|?].
    + by rewrite lookup_insert_eq.
    + rewrite lookup_insert_ne by done. auto.
  - intros q [v Hq]. destruct (decide (c = q)) as [<-|?]; [done|].
    rewrite lookup_insert_ne in Hq by done. apply H4; eauto.
  - intros q. destruct (decide (c = q)) as [<-|?].
    + by rewrite lookup_insert_eq.
    + rewrite lookup_insert_ne by done. auto.
Qed.

Lemma consistent_resume p s : consistent s → consistent (resume p s).
Proof.
  intros Hs. unfold resume. destruct (decide (p ∈ awaiting s)) as [Hp|]; [|done].
  destruct (attemptKey s !! p) as [key|] eqn:Hkey; [|done].
  destruct (promiseState s !! p) as [[|c|e]|] eqn:Hpr; try done.
  all: destruct Hs as [H1 H2 H3 H4 H5];
    destruct (H2 _ Hp) as (key' & Hkey' & Hcp); simplify_eq;
    split; unfold inFlight; simpl; auto.
  all: try (intros k q Hq; apply lookup_delete_Some in Hq as [Hne Hq];
            destruct (H1 _ _ Hq) as [Hkq Haw]; split; [done|];
            apply elem_of_difference; split; [done|];
            intros ->%elem_of_singleton; congruence).
  all: try (intros q [Hq Hne]%elem_of_difference;
            destruct (H2 _ Hq) as (k & Hk & Hpk); exists k; split; [done|];
            rewrite lookup_delete_ne; [done|];
            intros <-; rewrite Hcp in Hpk; set_solver).
  all: intros q Hq; apply elem_of_difference; split; [auto|];
    intros ->%elem_of_singleton; congruence.
Qed.

Lemma consistent_step s e : consistent s → consistent (step s e).
Proof.
  intros Hs. destruct e; simpl.
  - by apply consistent_getConnection.
  - by apply consistent_onConnect.
  - by apply consistent_resume.
  - unfold onError. destruct (attemptKey s !! c); [|done].
    by apply (consistent_frame s).
  - unfold onEnd. destruct (attemptKey s !! c); [|done].
    by apply (consistent_frame s).
  - destruct (connState s !! c); [|done]. by apply (consistent_frame s).
  - unfold closeConnection. destruct (connections s !! _); [|done].
    by apply (consistent_frame s).
  - by apply (consistent_frame s).
  - by apply (consistent_frame s).
  - by apply (consistent_frame s).
  - unfold executeQuery. destruct (NodeCache.get _ _ _) as [[rows|] c'].
    + by apply (consistent_frame s).
    + destruct (execSql _ _ _) as [res b]. by apply (consistent_frame s).
Qed.

Lemma run_snoc s evs e : run s (evs ++ [e]) = step (run s evs) e.
Proof. unfold ConnectionPool.run. by rewrite fold_left_app. Qed.

Lemma run_app s evs evs' : run s (evs ++ evs') = run (run s evs) evs'.
Proof. unfold ConnectionPool.run. by rewrite fold_left_app. Qed.

Lemma consistent_run s evs : consistent s → consistent (run s evs).
Proof.
  induction evs as [|e evs IH] using rev_ind; [done|].
  intros Hs. rewrite run_snoc. by apply consistent_step, IH.
Qed.

Lemma reachable_consistent s : reachable s → consistent s.
Proof. intros (ttl & b & evs & ->). apply consistent_run, consistent_init. Qed.

(** At most one creation is in flight per key. *)
Lemma inFlight_unique s key p q :
  consistent s → inFlight s key p → inFlight s key q → p = q.
Proof.
  intros [_ H2 _ _ _] [Hkp Hp] [Hkq Hq].
  destruct (H2 _ Hp) as (k & Hk & Hcp). destruct (H2 _ Hq) as (k' & Hk' & Hcq).
  congruence.
Qed.
End PoolInvariant.

Section PoolCoalescing.
Import ErrorHandler ConnectionPool.
Context {B : Type} `{!Driver B}.
Variable JSON_stringify : Parameters → string.
Implicit Types (s : ConnectionPool.t B) (p q : nat) (key : string).

Abbreviation step := (ConnectionPool.step JSON_stringify).
Abbreviation run := (ConnectionPool.run JSON_stringify).
Abbreviation reachable := (ConnectionPool.reachable JSON_stringify).

(** The three ways through [getConnection]. *)
Lemma getConnection_cases cs w d k s :
  let key := getConnectionKey w d k in
  (∃ c, connections s !! key = Some c ∧ connState s !! c = Some LOGGED_IN
        ∧ getConnection cs w d k s = (Resolved c, countCall s))
  ∨ (¬ ready s key
     ∧ ∃ p, connectionPromises s !! key = Some p
            ∧ getConnection cs w d k s = (Awaiting p, countCall s))
  ∨ (¬ ready s key ∧ connectionPromises s !! key = None
     ∧ getConnection cs w d k s
       = (Awaiting (nextId s), (startCreation cs key (countCall s)).2)).
Proof.
  intros key. unfold getConnection, ready. fold key. simpl.
  destruct (connections s !! key) as [c|] eqn:Hc.
  - unfold loggedIn. simpl. case_bool_decide as Hst.
    + left. by exists c.
    + right. assert (¬ ∃ c0, Some c = Some c0 ∧ connState s !! c0 = Some LOGGED_IN)
        as Hnr by (intros (? & [= <-] & ?); done).
      destruct (connectionPromises s !! key) as [p|] eqn:Hp.
      * left. split; [done|]. by exists p.
      * right. done.
  - right. assert (¬ ∃ c0, None = Some c0 ∧ connState s !! c0 = Some LOGGED_IN)
      as Hnr by (intros (? & [=] & ?)).
    destruct (connectionPromises s !! key) as [p|] eqn:Hp.
    + left. split; [done|]. by exists p.
    + right. done.
Qed.

(** Only a [getConnection] call that finds neither a ready session nor
    a creation in flight allocates: every other event leaves the heap
    bookkeeping alone. *)
Lemma step_allocation s e :
  (nextId (step s e) = nextId s
   ∧ attemptKey (step s e) = attemptKey s
   ∧ createLog (step s e) = createLog s
   ∧ awaiting (step s e) ⊆ awaiting s)
  ∨ (∃ cs w d k,
       e = CallGetConnection cs w d k
       ∧ ¬ ready s (getConnectionKey w d k)
       ∧ connectionPromises s !! getConnectionKey w d k = None
       ∧ step s e = (startCreation cs (getConnectionKey w d k) (countCall s)).2).
Proof.
  destruct e; simpl.
  - destruct (getConnection_cases connectionString workspace database poolType s)
      as [(c & _ & _ & ->)|[(_ & p & _ & ->)|(Hnr & Hnone & ->)]].
    + by left.
    + by left.
    + right. by exists connectionString, workspace, database, poolType.
  - left. unfold onConnect.
    destruct (promiseState s !! c) as [[| |]|]; try done. by destruct err.
  - left. unfold resume. destruct (decide _); [|done].
    destruct (attemptKey s !! p); [|done].
    destruct (promiseState s !! p) as [[| |]|]; try done;
      simpl; split_and!; try done; by intros x [? _]%elem_of_difference.
  - left. unfold onError. by destruct (attemptKey s !! c).
  - left. unfold onEnd. by destruct (attemptKey s !! c).
  - left. by destruct (connState s !! c).
  - left. unfold closeConnection. by destruct (connections s !! _).
  - by left.
  - by left.
  - by left.
  - left. unfold executeQuery. destruct (NodeCache.get _ _ _) as [[rows|] c']; [done|].
    by destruct (execSql _ _ _).
Qed.

Lemma step_nextId s e : (nextId s <= nextId (step s e))%nat.
Proof.
  destruct (step_allocation s e) as [(-> & _)|(cs & w & d & k & _ & _ & _ & ->)];
    simpl; lia.
Qed.

Lemma run_nextId s evs : (nextId s <= nextId (run s evs))%nat.
Proof.
  induction evs as [|e evs IH] using rev_ind; [done|].
  rewrite run_snoc. etrans; [apply IH|apply step_nextId].
Qed.

Lemma step_attemptKey s e p :
  (p < nextId s)%nat → attemptKey (step s e) !! p = attemptKey s !! p.
Proof.
  intros Hp.
  destruct (step_allocation s e) as [(_ & -> & _)|(cs & w & d & k & _ & _ & _ & ->)];
    [done|]. simpl. apply lookup_insert_ne. lia.
Qed.

Lemma run_attemptKey s evs p :
  (p < nextId s)%nat → attemptKey (run s evs) !! p = attemptKey s !! p.
Proof.
  intros Hp. induction evs as [|e evs IH] using rev_ind; [done|].
  rewrite run_snoc, step_attemptKey; [done|].
  pose proof (run_nextId s evs). lia.
Qed.

(** A creation in flight after an event was in flight before it, and no
    creation for its key was started by the event. *)
Lemma step_inFlight_back s e key p :
  consistent s → (p < nextId s)%nat → inFlight (step s e) key p →
  inFlight s key p ∧ creationsFor key (step s e) = creationsFor key s.
Proof.
  intros Hs Hp [Hk Haw]. rewrite step_attemptKey in Hk by done.
  unfold creationsFor.
  destruct (step_allocation s e)
    as [(_ & _ & -> & Hsub)|(cs & w & d & k & _ & _ & Hnone & Heq)].
  - split; [|done]. split; [done|]. by apply Hsub.
  - rewrite Heq in Haw |- *. simpl in *.
    apply elem_of_union in Haw as [Hnew%elem_of_singleton|Hin]; [lia|].
    split; [done|].
    destruct (inFlight_promise s Hs p Hin) as (key' & Hk' & Hcp).
    rewrite filter_app. simpl.
    rewrite filter_cons_False, filter_nil, app_nil_r; [done|].
    simpl. intros Heqk. congruence.
Qed.

Lemma run_inFlight_back s evs key p :
  consistent s → (p < nextId s)%nat → inFlight (run s evs) key p →
  inFlight s key p ∧ creationsFor key (run s evs) = creationsFor key s.
Proof.
  intros Hs Hp. induction evs as [|e evs IH] using rev_ind; [done|].
  rewrite run_snoc. intros Hfl.
  apply step_inFlight_back in Hfl as [Hfl ->].
  - by apply IH.
  - by apply consistent_run.
  - pose proof (run_nextId s evs). lia.
Qed.

(** A promise settles once. *)
Lemma step_settled s e p o :
  consistent s → promiseState s !! p = Some o → o ≠ Pending →
  promiseState (step s e) !! p = Some o.
Proof.
  intros Hs Ho Hne.
  assert (p < nextId s)%nat as Hp by (apply (promise_allocated s Hs); eauto).
  destruct e; simpl; try done.
  - destruct (getConnection_cases connectionString workspace database poolType s)
      as [(c & _ & _ & ->)|[(_ & p' & _ & ->)|(Hnr & Hnone & ->)]]; try done.
    simpl. rewrite lookup_insert_ne by lia. done.
  - unfold onConnect. destruct (promiseState s !! c) as [[| |]|] eqn:Hc; try done.
    assert (c ≠ p) by congruence.
    destruct err; simpl; by rewrite lookup_insert_ne.
  - unfold resume. destruct (decide _); [|done].
    destruct (attemptKey s !! p0); [|done].
    by destruct (promiseState s !! p0) as [[| |]|].
  - unfold onError. by destruct (attemptKey s !! c).
  - unfold onEnd. by destruct (attemptKey s !! c).
  - by destruct (connState s !! c).
  - unfold closeConnection. by destruct (connections s !! _).
  - unfold executeQuery. destruct (NodeCache.get _ _ _) as [[rows|] c']; [done|].
    by destruct (execSql _ _ _).
Qed.

Lemma run_settled s evs p o :
  consistent s → promiseState s !! p = Some o → o ≠ Pending →
  promiseState (run s evs) !! p = Some o.
Proof.
  intros Hs Ho Hne. induction evs as [|e evs IH] using rev_ind; [done|].
  rewrite run_snoc. apply step_settled; [by apply consistent_run|done..].
Qed.

Lemma consistent_countCall s : consistent s → consistent (countCall s).
Proof. by apply consistent_frame. Qed.

(** A later call for a key whose creation [p] is still pending joins
    [p], whatever happened in between. *)
Lemma getConnection_joins s1 evs cs w d k p :
  let key := getConnectionKey w d k in
  let between := run s1 evs in
  consistent s1 → (p < nextId s1)%nat → attemptKey s1 !! p = Some key →
  promiseState between !! p = Some Pending →
  ¬ ready between key →
  getConnection cs w d k between = (Awaiting p, countCall between)
  ∧ creationsFor key between = creationsFor key s1
  ∧ inFlight between key p.
Proof.
  intros key between Hs1 Hp Hkey Hpending Hnr.
  assert (consistent between) as Hb by (by apply consistent_run).
  assert (inFlight between key p) as Hfl.
  { split; [|by apply (pending_awaiting between Hb)].
    unfold between. by rewrite run_attemptKey. }
  destruct (run_inFlight_back s1 evs key p) as [_ Hlog]; [done..|].
  split; [|done].
  destruct Hfl as [Hk Haw].
  destruct (inFlight_promise between Hb p Haw) as (key' & Hk' & Hcp).
  assert (key' = key) as -> by congruence.
  destruct (getConnection_cases cs w d k between)
    as [(c & Hc & Hst & _)|[(_ & p' & Hp' & ->)|(_ & Hnone & _)]].
  - exfalso. apply Hnr. by exists c.
  - fold key in Hp'. congruence.
  - fold key in Hnone. congruence.
Qed.

(** C1: two calls for one key, the second made while the creation the
    first one waits on is still pending and no ready session is pooled,
    wait on the same promise [p]; between them and by them at most one
    creation is started for the key (exactly one when none was in flight
    before), and [p] is the only creation in flight for it.  That
    promise is still pending after the second call; whenever the
    ['connect'] event then arrives, it settles what both callers wait
    on, with the session of that one creation or with its error; once
    settled it does not change; the creating call, when it resumes,
    returns that same session, pools it under the key and drops the
    creation (or rethrows the error and drops the creation).  And in
    every reachable state a key has at most one creation in flight. *)
Theorem getConnection_coalesces s cs1 cs2 w d k evs :
  let key := getConnectionKey w d k in
  let first := getConnection cs1 w d k s in
  let between := run first.2 evs in
  let second := getConnection cs2 w d k between in
  reachable s →
  ¬ ready s key → ¬ ready between key →
  (∀ p, first.1 = Awaiting p → promiseState between !! p = Some Pending) →
  (∃ p,
     first.1 = Awaiting p ∧ second.1 = Awaiting p
     ∧ creationsFor key second.2
       = creationsFor key s ++
         (if connectionPromises s !! key is Some _ then [] else [(p, key)])
     ∧ (∀ q, inFlight second.2 key q → q = p)
     ∧ promiseState second.2 !! p = Some Pending
     ∧ observed second.2 first.1 = None
     ∧ observed second.2 second.1 = None
     ∧ (∀ later err,
          promiseState (run second.2 later) !! p = Some Pending →
          observed (step (run second.2 later) (EmitConnect p err)) first.1
          = Some (settlement p err)
          ∧ observed (step (run second.2 later) (EmitConnect p err)) second.1
            = Some (settlement p err))
     ∧ (∀ later later' o,
          observed (run second.2 later) second.1 = Some o →
          observed (run (run second.2 later) later') first.1 = Some o
          ∧ observed (run (run second.2 later) later') second.1 = Some o)
     ∧ (∀ later c,
          promiseState (run second.2 later) !! p = Some (Fulfilled c) →
          p ∈ awaiting (run second.2 later) →
          resumeAnswer p (run second.2 later) = Some (Returned c)
          ∧ connections (resume p (run second.2 later)) !! key = Some c
          ∧ connectionPromises (resume p (run second.2 later)) !! key = None
          ∧ ¬ inFlight (resume p (run second.2 later)) key p)
     ∧ (∀ later e,
          promiseState (run second.2 later) !! p = Some (Rejected e) →
          p ∈ awaiting (run second.2 later) →
          resumeAnswer p (run second.2 later) = Some (Threw e)
          ∧ connections (resume p (run second.2 later))
            = connections (run second.2 later)
          ∧ connectionPromises (resume p (run second.2 later)) !! key = None
          ∧ ¬ inFlight (resume p (run second.2 later)) key p))
  ∧ (∀ key' p q, inFlight s key' p → inFlight s key' q → p = q).
Proof.
  intros key first between second Hreach Hnr Hnr' Hpending.
  assert (consistent s) as Hs by (by apply (reachable_consistent JSON_stringify)).
  split; [|intros key' p q; by apply inFlight_unique].
  assert (∃ p extra,
            first = (Awaiting p, first.2) ∧ consistent first.2
            ∧ (p < nextId first.2)%nat ∧ attemptKey first.2 !! p = Some key
            ∧ creationsFor key first.2 = creationsFor key s ++ extra
            ∧ extra = (if connectionPromises s !! key is Some _ then []
                       else [(p, key)]))
    as (p & extra & Hfirst & Hs1 & Hp & Hkey & Hlog & Hextra).
  { unfold first.
    destruct (getConnection_cases cs1 w d k s)
      as [(c & Hc & Hst & _)|[(_ & p & Hcp & ->)|(_ & Hnone & ->)]].
    - exfalso. apply Hnr. by exists c.
    - fold key in Hcp. exists p, []. simpl.
      destruct (promise_inFlight s Hs key p Hcp) as [Hk Haw].
      split_and!; try done.
      + by apply consistent_countCall.
      + apply (key_allocated s Hs). eauto.
      + by rewrite app_nil_r.
      + by rewrite Hcp.
    - fold key in Hnone |- *. exists (nextId s), [(nextId s, key)].
      split_and!; try done.
      + apply consistent_startCreation; [by apply consistent_countCall|done].
      + simpl. lia.
      + simpl. by rewrite lookup_insert_eq.
      + unfold creationsFor. simpl. rewrite filter_app.
        by rewrite filter_cons_True, filter_nil.
      + by rewrite Hnone. }
  assert (first.1 = Awaiting p) as Hh by (by rewrite Hfirst).
  destruct (getConnection_joins first.2 evs cs2 w d k p)
    as (Hsecond & Hlog' & Hfl); [done|done|done|by apply Hpending|done|].
  fold key between in Hsecond, Hlog', Hfl. fold second in Hsecond.
  assert (consistent between) as Hb by (by apply consistent_run).
  assert (consistent (countCall between)) as Hcb
    by (by apply consistent_countCall).
  assert (promiseState (countCall between) !! p = Some Pending) as Hpend
    by (by apply Hpending).
  assert (∀ later, attemptKey (run (countCall between) later) !! p = Some key)
    as Hkeys.
  { intros later. rewrite run_attemptKey; [by destruct Hfl|].
    apply (key_allocated _ Hcb). destruct Hfl as [Hk _]. simpl. eauto. }
  exists p. rewrite Hsecond, Hh. simpl.
  split_and!; [done|done| | |done| | | | | |].
  - unfold creationsFor in *. simpl. by rewrite Hlog', Hlog, Hextra.
  - intros q Hq. symmetry. by apply (inFlight_unique between key).
  - simpl in Hpend. by rewrite Hpend.
  - simpl in Hpend. by rewrite Hpend.
  - intros later err Hlater.
    assert (promiseState (onConnect p err (run (countCall between) later)) !! p
            = Some (match err with
                    | Some e => Rejected e
                    | None => Fulfilled p
                    end)) as ->.
    { unfold onConnect. rewrite Hlater.
      destruct err; simpl; by rewrite lookup_insert_eq. }
    by destruct err.
  - intros later later' o.
    assert (consistent (run (countCall between) later)) as Hl
      by (by apply consistent_run).
    destruct (promiseState (run (countCall between) later) !! p)
      as [[|c|e]|] eqn:Hp'; try done; intros [= <-].
    + by rewrite (run_settled _ later' p (Fulfilled c)).
    + by rewrite (run_settled _ later' p (Rejected e)).
  - intros later c Hful Haw. unfold resumeAnswer, resume, inFlight.
    rewrite !decide_True by done. rewrite Hkeys, Hful. simpl.
    rewrite lookup_insert_eq, lookup_delete_eq.
    split_and!; [done..|]. intros [_ Hin].
    apply elem_of_difference in Hin as [_ Hn]. apply Hn. by apply elem_of_singleton.
  - intros later e Hrej Haw. unfold resumeAnswer, resume, inFlight.
    rewrite !decide_True by done. rewrite Hkeys, Hrej. simpl.
    rewrite lookup_delete_eq.
    split_and!; [done..|]. intros [_ Hin].
    apply elem_of_difference in Hin as [_ Hn]. apply Hn. by apply elem_of_singleton.
Qed.
End PoolCoalescing.

Lemma getConnection_coalesces_witness :
  PoolExamples.firstCall.1 = ConnectionPool.Awaiting 0
  ∧ PoolExamples.secondCall.1 = ConnectionPool.Awaiting 0
  ∧ ConnectionPool.observed
      (ConnectionPool.step PoolExamples.stringify PoolExamples.secondCall.2
         (ConnectionPool.EmitConnect 0 None))
      PoolExamples.firstCall.1 = Some (Returned 0%nat)
  ∧ ConnectionPool.observed
      (ConnectionPool.step PoolExamples.stringify PoolExamples.secondCall.2
         (ConnectionPool.EmitConnect 0 None))
      PoolExamples.secondCall.1 = Some (Returned 0%nat)
  ∧ ConnectionPool.connections
      (ConnectionPool.resume 0
         (ConnectionPool.run PoolExamples.stringify PoolExamples.secondCall.2
            [ConnectionPool.EmitConnect 0 None]))
    !! "ws-db1-dedicated" = Some 0%nat.
Proof.
  destruct (getConnection_coalesces PoolExamples.stringify PoolExamples.fresh
              PoolExamples.dedicatedCs PoolExamples.dedicatedCs
              "ws" "db1" "dedicated" PoolExamples.elsewhere)
    as [(p & H1 & H2 & _ & _ & _ & _ & _ & Hsettle & _ & Hresume & _) _].
  - by exists 300, [PoolExamples.oneRow], [].
  - intros (c & Hc & _). vm_compute in Hc. discriminate.
  - intros (c & Hc & _). vm_compute in Hc. discriminate.
  - intros p Hp. vm_compute in Hp. injection Hp as <-. by vm_compute.
  - assert (p = 0%nat) as ->.
    { vm_compute in H1. by injection H1 as <-. }
    destruct (Hsettle [] None) as [Ha Hb]; [by vm_compute|].
    destruct (Hresume [ConnectionPool.EmitConnect 0 None] 0%nat)
      as (_ & Hpooled & _); [by vm_compute|by vm_compute|].
    split_and!; [exact H1|exact H2|exact Ha|exact Hb|exact Hpooled].
Defined.

Section PoolExclusion.
Import ErrorHandler ConnectionPool.
Context {B : Type} `{!Driver B}.
Variable JSON_stringify : Parameters → string.
Implicit Types (s : ConnectionPool.t B) (p q : nat) (key : string).

Abbreviation step := (ConnectionPool.step JSON_stringify).
Abbreviation reachable := (ConnectionPool.reachable JSON_stringify).

(** A session is put into the pool only by the resumption that also
    takes the key out of the promise map. *)
Lemma step_new_session s e key c :
  connections (step s e) !! key = Some c →
  connections s !! key ≠ Some c →
  (∃ p, e = Resume p) ∧ connectionPromises (step s e) !! key = None.
Proof.
  intros Hnew Hold. destruct e; simpl in *.
  - destruct (getConnection_cases connectionString workspace database poolType s)
      as [(c' & _ & _ & Heq)|[(_ & p' & _ & Heq)|(_ & _ & Heq)]];
      rewrite Heq in Hnew; done.
  - unfold onConnect in Hnew.
    destruct (promiseState s !! c0) as [[| |]|]; try done. by destruct err.
  - unfold resume in *. destruct (decide _); [|done].
    destruct (attemptKey s !! p) as [key'|] eqn:Hk; [|done].
    destruct (promiseState s !! p) as [[|c'|]|] eqn:Hp; try done.
    simpl in *. destruct (decide (key' = key)) as [->|Hne].
    + rewrite lookup_delete_eq. split; [by exists p|done].
    + by rewrite lookup_insert_ne in Hnew.
  - unfold onError in Hnew. destruct (attemptKey s !! c0); [|done].
    simpl in Hnew. by apply lookup_delete_Some in Hnew as [_ ?].
  - unfold onEnd in Hnew. destruct (attemptKey s !! c0); [|done].
    simpl in Hnew. by apply lookup_delete_Some in Hnew as [_ ?].
  - by destruct (connState s !! c0).
  - unfold closeConnection in Hnew. destruct (connections s !! _); [|done].
    simpl in Hnew. by apply lookup_delete_Some in Hnew as [_ ?].
  - done.
  - done.
  - done.
  - unfold executeQuery in Hnew.
    destruct (NodeCache.get _ _ _) as [[rows|] c']; [done|].
    by destruct (execSql _ _ _).
Qed.

(** C6, as the code has it: in every reachable state a key has at most
    one pooled session and at most one creation in flight, the promise
    map listing exactly the creations in flight; a creation is started
    only by a call that finds neither a ready session nor a creation in
    flight for its key; and a session is pooled only by the resumption
    that removes the creation of its key. *)
Theorem pool_exclusion s :
  reachable s →
  (∀ key c c', connections s !! key = Some c →
               connections s !! key = Some c' → c = c')
  ∧ (∀ key p q, inFlight s key p → inFlight s key q → p = q)
  ∧ (∀ key p, connectionPromises s !! key = Some p ↔ inFlight s key p)
  ∧ (∀ e, createLog (step s e) ≠ createLog s →
       ∃ cs w d k,
         e = CallGetConnection cs w d k
         ∧ ¬ ready s (getConnectionKey w d k)
         ∧ connectionPromises s !! getConnectionKey w d k = None
         ∧ inFlight (step s e) (getConnectionKey w d k) (nextId s))
  ∧ (∀ e key c,
       connections (step s e) !! key = Some c →
       connections s !! key ≠ Some c →
       (∃ p, e = Resume p) ∧ connectionPromises (step s e) !! key = None).
Proof.
  intros Hreach.
  assert (consistent s) as Hs by (by apply (reachable_consistent JSON_stringify)).
  split_and!.
  - congruence.
  - intros key p q. by apply inFlight_unique.
  - intros key p. split; [by apply (promise_inFlight s Hs)|].
    intros [Hk Haw]. destruct (inFlight_promise s Hs p Haw) as (key' & Hk' & Hcp).
    congruence.
  - intros e Hlog.
    destruct (step_allocation JSON_stringify s e)
      as [(_ & _ & Heq & _)|(cs & w & d & k & -> & Hnr & Hnone & Heq)]; [done|].
    exists cs, w, d, k. split_and!; try done.
    rewrite Heq. split; simpl; [by rewrite lookup_insert_eq|set_solver].
  - intros e key c. apply step_new_session.
Qed.
End PoolExclusion.

Lemma pool_exclusion_witness :
  ConnectionPool.connectionPromises
    (ConnectionPool.run PoolExamples.stringify PoolExamples.fresh
       PoolExamples.busyTrace) !! "ws-db1-dedicated" = Some 1%nat
  ∧ ConnectionPool.inFlight
      (ConnectionPool.run PoolExamples.stringify PoolExamples.fresh
         PoolExamples.busyTrace) "ws-db1-dedicated" 1.
Proof.
  destruct (pool_exclusion PoolExamples.stringify
              (ConnectionPool.run PoolExamples.stringify PoolExamples.fresh
                 PoolExamples.busyTrace)) as (_ & _ & H & _).
  - by exists 300, [PoolExamples.oneRow], PoolExamples.busyTrace.
  - assert (ConnectionPool.connectionPromises
              (ConnectionPool.run PoolExamples.stringify PoolExamples.fresh
                 PoolExamples.busyTrace) !! "ws-db1-dedicated" = Some 1%nat)
      as Hcp by (by vm_compute).
    split; [exact Hcp|]. apply H, Hcp.
Defined.

(** C6 as first stated fails: while a pooled session is busy with a
    statement, a call for its key starts a creation, and the key then has
    a pooled session and a creation in flight at once. *)
Lemma pooled_session_with_creation_in_flight :
  ¬ (∀ s : ConnectionPool.t (list ConnectionPool.ExecResult),
       ConnectionPool.reachable PoolExamples.stringify s →
       ConnectionPool.exclusive s).
Proof.
  intros H.
  apply (H (ConnectionPool.run PoolExamples.stringify PoolExamples.fresh
              PoolExamples.busyTrace)
           ltac:(by exists 300, [PoolExamples.oneRow], PoolExamples.busyTrace)
           "ws-db1-dedicated").
  split; [exists 0%nat|exists 1%nat]; by vm_compute.
Qed.

(** ** Result cache *)

Section ResultCache.
Import ErrorHandler ConnectionPool.
Context {B : Type} `{!Driver B}.
Variable JSON_stringify : Parameters → string.
Implicit Types (s : ConnectionPool.t B) (c : NodeCache.cache Rows).

Abbreviation executeQuery := (ConnectionPool.executeQuery JSON_stringify).
Abbreviation cacheKeyOf := (ConnectionPool.cacheKeyOf JSON_stringify).

Lemma get_hit (fp : string) (now : Z) c rows c' :
  NodeCache.get fp now c = (Some rows, c') →
  c' = c ∧ ∃ e, NodeCache.data c !! fp = Some e ∧ NodeCache.v e = rows.
Proof.
  unfold NodeCache.get. destruct (NodeCache.data c !! fp) as [e|]; [|done].
  destruct (NodeCache.expired now e); [done|]. intros [= <- <-]. eauto.
Qed.

Lemma get_miss (fp : string) (now : Z) c c' :
  NodeCache.get fp now c = (None, c') →
  NodeCache.stdTTL c' = NodeCache.stdTTL c
  ∧ NodeCache.data c' !! fp = None
  ∧ NodeCache.data c' ⊆ NodeCache.data c.
Proof.
  unfold NodeCache.get. destruct (NodeCache.data c !! fp) as [e|] eqn:He.
  - destruct (NodeCache.expired now e); [|done]. intros [= <-]. simpl.
    split_and!; [done|apply lookup_delete_eq|apply delete_subseteq].
  - by intros [= <-].
Qed.

Lemma get_set_live (fp : string) (rows : Rows) (doneAt now : Z) c :
  NodeCache.stdTTL c = 0 ∨ now <= doneAt + NodeCache.stdTTL c * 1000 →
  NodeCache.get fp now (NodeCache.set fp rows doneAt c)
  = (Some rows, NodeCache.set fp rows doneAt c).
Proof.
  intros Hlive. unfold NodeCache.get, NodeCache.set. simpl.
  rewrite lookup_insert_eq. unfold NodeCache.expired. simpl.
  destruct (decide (NodeCache.stdTTL c = 0)) as [Hz|Hnz].
  - by rewrite bool_decide_eq_false_2 by (by intros ?).
  - destruct Hlive as [?|Hle]; [done|].
    rewrite (bool_decide_eq_false_2 (_ < now)) by lia.
    by rewrite andb_false_r.
Qed.

(** C4: a successful [executeQuery] leaves its rows in the cache under
    the fingerprint of statement and parameters; when it had to submit
    the statement, a second call with the same statement and parameters
    made before the entry's time to live has passed returns those rows
    and changes nothing, so nothing is submitted; a failed call leaves
    no entry under the fingerprint and adds none elsewhere. *)
Theorem executeQuery_cached s connection query parameters now doneAt :
  let fp := cacheKeyOf query parameters in
  let first := executeQuery connection query parameters now doneAt s in
  (∀ rows, first.1 = Returned rows →
     (∃ e, NodeCache.data (cache first.2) !! fp = Some e ∧ NodeCache.v e = rows)
     ∧ ((NodeCache.get fp now (cache s)).1 = None →
        submitted first.2 = submitted s ++ [(connection, query)]
        ∧ ∀ connection' now' doneAt',
            NodeCache.stdTTL (cache s) = 0
            ∨ now' <= doneAt + NodeCache.stdTTL (cache s) * 1000 →
            executeQuery connection' query parameters now' doneAt' first.2
            = (Returned rows, first.2)))
  ∧ (∀ err, first.1 = Threw err →
       NodeCache.data (cache first.2) !! fp = None
       ∧ NodeCache.data (cache first.2) ⊆ NodeCache.data (cache s)).
Proof.
  intros fp first. unfold first, executeQuery. fold fp.
  destruct (NodeCache.get fp now (cache s)) as [[hit|] c] eqn:Hget.
  - apply get_hit in Hget as (-> & e & He & Hv). simpl. split.
    + intros rows [= <-]. split; [eauto|done].
    + done.
  - apply get_miss in Hget as (Httl & Hnone & Hsub).
    destruct (execSql (backend s) connection (makeRequest query parameters))
      as [res b].
    destruct (execErr res) as [err|]; simpl.
    + split; [done|]. by intros _ [= <-].
    + split; [|done]. intros rows [= <-]. split.
      * eexists. unfold NodeCache.set. simpl. by rewrite lookup_insert_eq.
      * intros _. split; [done|]. intros connection' now' doneAt' Hlive.
        fold fp. rewrite get_set_live; [done|]. by rewrite Httl.
Qed.
End ResultCache.

Lemma executeQuery_cached_witness :
  (ConnectionPool.executeQuery PoolExamples.stringify 0 "SELECT 1" None 1000 1200
     PoolExamples.fresh).1
  = Returned [[("n", ConnectionPool.VNumber 1)]]
  ∧ (ConnectionPool.executeQuery PoolExamples.stringify 0 "SELECT 1" None 200000 200100
       (ConnectionPool.executeQuery PoolExamples.stringify 0 "SELECT 1" None 1000 1200
          PoolExamples.fresh).2).1
    = Returned [[("n", ConnectionPool.VNumber 1)]]
  ∧ ConnectionPool.submitted
      (ConnectionPool.executeQuery PoolExamples.stringify 0 "SELECT 1" None 200000 200100
         (ConnectionPool.executeQuery PoolExamples.stringify 0 "SELECT 1" None 1000 1200
            PoolExamples.fresh).2).2
    = [(0%nat, "SELECT 1")].
Proof.
  destruct (executeQuery_cached PoolExamples.stringify PoolExamples.fresh
              0%nat "SELECT 1" None 1000 1200) as [H _].
  destruct (H [[("n", ConnectionPool.VNumber 1)]]) as [_ H2]; [reflexivity|].
  destruct H2 as [Hsub Hsecond]; [reflexivity|].
  rewrite (Hsecond 0%nat 200000 200100); [|right; simpl; lia].
  split; [reflexivity|]. split; [reflexivity|]. exact Hsub.
Defined.

(** ** SQL entry point *)

Section SqlEntryPoint.
Import ErrorHandler ConnectionPool SynapseOperations.
Context {B : Type} `{!Driver B}.
Variable JSON_stringify : Parameters → string.

Abbreviation executeSqlQuery := (SynapseOperations.executeSqlQuery JSON_stringify).

(** C9: when the tenant has no pool of the requested kind, the call
    returns a failure payload that carries the "No ... pool configured"
    error, and the pool is left as it was: [getConnection] has not been
    entered and no creation has been started. *)
Theorem executeSqlQuery_no_pool (tm : TenantManager.t) (params : Params)
    (during : list Event) (clock : Clock) (pool : ConnectionPool.t B) :
  let kind := default TenantManager.serverless (poolType params) in
  TenantManager.getConnectionString tm (tenant params) (Some kind) = None →
  (∃ hint,
     executeSqlQuery tm params during clock pool
     = (Some (Failure
                (Some ("No " +:+ TenantManager.PoolType_str kind +:+
                       " pool configured for tenant: " +:+
                       js_or (tenant params) "default"))
                hint
                (mkMetadata (workspace params) (database params) kind None
                   (js_or (tenant params) "default"))),
        pool))
  ∧ getConnectionCalls (executeSqlQuery tm params during clock pool).2
    = getConnectionCalls pool
  ∧ createLog (executeSqlQuery tm params during clock pool).2 = createLog pool.
Proof.
  intros kind Hnone. unfold executeSqlQuery. fold kind. rewrite Hnone. simpl.
  split; [|done]. eexists. reflexivity.
Qed.
End SqlEntryPoint.

Lemma executeSqlQuery_no_pool_witness :
  ∃ hint,
    SynapseOperations.executeSqlQuery PoolExamples.stringify
      TenantExamples.registry
      (SynapseOperations.mkParams "ws-globex" "db1" "SELECT 1" None (Some "globex"))
      [] (SynapseOperations.mkClock 10 20 30) PoolExamples.fresh
    = (Some (SynapseOperations.Failure
               (Some "No serverless pool configured for tenant: globex") hint
               (SynapseOperations.mkMetadata "ws-globex" "db1"
                  TenantManager.serverless None "globex")),
       PoolExamples.fresh).
Proof.
  refine (proj1 (executeSqlQuery_no_pool PoolExamples.stringify
                   TenantExamples.registry
                   (SynapseOperations.mkParams "ws-globex" "db1" "SELECT 1" None
                      (Some "globex"))
                   [] (SynapseOperations.mkClock 10 20 30) PoolExamples.fresh _)).
  reflexivity.
Defined.

(** * Further properties *)

(** ** Retry loop: bounds and stopping *)

Section RetryBounds.
Import ErrorHandler ErrorHandlerUtils.
Context {W T : Type}.
Implicit Types (op : Operation W T) (w : W) (tr : list Effect).

(** A negative retry count: the loop body never runs, the operation
    is not invoked, and [undefined] is thrown. *)
Theorem retryOperation_negative_retries op (m : Z) baseDelay w :
  m < 0 →
  retryOperation op (Some m) baseDelay w = mkOutcome (Threw None) w [].
Proof.
  intros Hm. unfold retryOperation. simpl.
  destruct (Z.to_nat (m + 1)) as [|fuel] eqn:Hfuel; [done|]. lia.
Qed.

Lemma retryLoop_invocations_lower op m b :
  ∀ fuel attempt lastError w tr,
    (countInvoke tr
     <= invocations (retryLoop op m b fuel attempt lastError w tr))%nat.
Proof.
  induction fuel as [|fuel IH]; intros attempt lastError w tr; simpl; [done|].
  assert (countInvoke tr <= countInvoke (tr ++ [Invoke]))%nat as Hle
    by (rewrite countInvoke_app; lia).
  case_bool_decide; [|done].
  destruct (op w) as [[v|e] w']; [done|].
  case_bool_decide; [done|]. destruct (isClientError e); [done|].
  etrans; [|apply IH]. rewrite countInvoke_app. lia.
Qed.

Lemma worldAfter_S op n w :
  worldAfter op (S n) w = (op (worldAfter op n w)).2.
Proof. revert w. induction n as [|n IH]; intros w; [done|]. simpl. apply IH. Qed.

(** A run that enters the loop body ends with the completion of its
    last invocation, in the world that invocation left. *)
Lemma retryLoop_last op m b w0 :
  ∀ fuel attempt lastError w tr,
    fuel = Z.to_nat (m + 1 - attempt) → attempt <= m →
    w = worldAfter op (countInvoke tr) w0 →
    (countInvoke tr < invocations (retryLoop op m b fuel attempt lastError w tr))%nat
    ∧ world (retryLoop op m b fuel attempt lastError w tr)
      = worldAfter op
          (invocations (retryLoop op m b fuel attempt lastError w tr)) w0
    ∧ completion (retryLoop op m b fuel attempt lastError w tr)
      = outcomeAt op
          (invocations (retryLoop op m b fuel attempt lastError w tr) - 1) w0.
Proof.
  induction fuel as [|fuel IH]; intros attempt lastError w tr Hfuel Hle Hw; [lia|].
  simpl. rewrite bool_decide_eq_true_2 by lia.
  assert (countInvoke (tr ++ [Invoke]) = S (countInvoke tr)) as Hk.
  { rewrite countInvoke_app. unfold countInvoke at 2. simpl. lia. }
  assert ((op w).2 = worldAfter op (S (countInvoke tr)) w0) as Hw'
    by (by rewrite worldAfter_S, <-Hw).
  assert ((op w).1 = outcomeAt op (countInvoke tr) w0) as Hc
    by (unfold outcomeAt; by rewrite <-Hw).
  assert (∀ c, c = (op w).1 →
            (countInvoke tr < invocations (mkOutcome c (op w).2 (tr ++ [Invoke])))%nat
            ∧ world (mkOutcome c (op w).2 (tr ++ [Invoke]))
              = worldAfter op
                  (invocations (mkOutcome c (op w).2 (tr ++ [Invoke]))) w0
            ∧ completion (mkOutcome c (op w).2 (tr ++ [Invoke]))
              = outcomeAt op
                  (invocations (mkOutcome c (op w).2 (tr ++ [Invoke])) - 1) w0)
    as Hstop.
  { intros c ->. unfold invocations. simpl. rewrite Hk.
    split_and!; [lia|done|]. rewrite Hc. f_equal. lia. }
  destruct (op w) as [[v|e] w'] eqn:E; simpl in *.
  { by apply Hstop. }
  case_bool_decide; [by apply Hstop|].
  destruct (isClientError e); [by apply Hstop|].
  destruct (IH (attempt + 1) e w'
              ((tr ++ [Invoke]) ++
               [Warn (attempt + 1) (m + 1) (b * 2 ^ attempt);
                Sleep (b * 2 ^ attempt)])) as (H1 & H2 & H3); [lia|lia| |].
  { rewrite countInvoke_app, Hk. unfold countInvoke at 2. simpl.
    rewrite Hw'. f_equal. lia. }
  rewrite countInvoke_app, Hk in H1. split_and!; [lia|done|done].
Qed.

(** With a retry count of zero or more the operation is invoked at
    least once, and the run ends as its last invocation did: it returns
    what that one returned or throws what that one rejected with
    ([undefined] included), in the world that invocation left. *)
Theorem retryOperation_invokes_once_at_least op maxRetries baseDelay w :
  0 <= default 3 maxRetries →
  (1 <= invocations (retryOperation op maxRetries baseDelay w))%nat
  ∧ completion (retryOperation op maxRetries baseDelay w)
    = outcomeAt op
        (invocations (retryOperation op maxRetries baseDelay w) - 1) w
  ∧ world (retryOperation op maxRetries baseDelay w)
    = worldAfter op (invocations (retryOperation op maxRetries baseDelay w)) w.
Proof.
  intros Hm. unfold retryOperation.
  destruct (retryLoop_last op (default 3 maxRetries) (default 1000 baseDelay) w
              (Z.to_nat (default 3 maxRetries + 1)) 0 None w [])
    as (H1 & H2 & H3); [f_equal; lia|done|done|].
  split_and!; [|done|done]. unfold countInvoke in H1 at 1. simpl in H1. lia.
Qed.

(** [n] transient failures followed by a client error. *)
Lemma retryLoop_client_error op m b e n :
  ∀ fuel attempt lastError w tr,
    (n < fuel)%nat → attempt + Z.of_nat n <= m →
    (∀ i, (i < n)%nat →
       ∃ e', outcomeAt op i w = Threw e' ∧ isClientError e' = false) →
    outcomeAt op n w = Threw e → isClientError e = true →
    retryLoop op m b fuel attempt lastError w tr
    = mkOutcome (Threw e) (worldAfter op (S n) w)
        (tr ++ backoff m b attempt n ++ [Invoke]).
Proof.
  induction n as [|n IH]; intros fuel attempt lastError w tr Hfuel Hm Hfail Hlast Hc.
  - destruct fuel as [|fuel]; [lia|]. simpl.
    rewrite bool_decide_eq_true_2 by lia.
    rewrite outcomeAt_O in Hlast. destruct (op w) as [c w'] eqn:E.
    simpl in Hlast. subst c. rewrite Hc. by case_bool_decide.
  - destruct fuel as [|fuel]; [lia|]. simpl.
    rewrite bool_decide_eq_true_2 by lia.
    destruct (Hfail 0%nat) as (e' & He' & Hc'); [lia|].
    rewrite outcomeAt_O in He'. destruct (op w) as [c w'] eqn:E.
    simpl in He'. subst c.
    rewrite bool_decide_eq_false_2 by lia. rewrite Hc'.
    rewrite (IH fuel (attempt + 1) e' w'); try lia; try done.
    + f_equal. rewrite <-!app_assoc. reflexivity.
    + intros i Hi. destruct (Hfail (S i)) as (e'' & He'' & Hc''); [lia|].
      rewrite outcomeAt_S, E in He''. eauto.
    + by rewrite outcomeAt_S, E in Hlast.
Qed.

(** A client error stops the retries wherever it occurs: after [n]
    transient failures with their backoff, the client error of the next
    attempt is thrown at once, after [n + 1] invocations in all. *)
Theorem retryOperation_stops_at_client_error op maxRetries baseDelay w
    (n : nat) e :
  Z.of_nat n <= default 3 maxRetries →
  (∀ i, (i < n)%nat →
     ∃ e', outcomeAt op i w = Threw e' ∧ isClientError e' = false) →
  outcomeAt op n w = Threw e → isClientError e = true →
  retryOperation op maxRetries baseDelay w
  = mkOutcome (Threw e) (worldAfter op (S n) w)
      (backoff (default 3 maxRetries) (default 1000 baseDelay) 0 n ++ [Invoke])
  ∧ invocations (retryOperation op maxRetries baseDelay w) = S n.
Proof.
  intros Hn Hfail Hlast Hc.
  assert (retryOperation op maxRetries baseDelay w
          = mkOutcome (Threw e) (worldAfter op (S n) w)
              (backoff (default 3 maxRetries) (default 1000 baseDelay) 0 n
               ++ [Invoke])) as ->.
  { unfold retryOperation.
    by rewrite (retryLoop_client_error op _ _ e n); [|lia|lia|..]. }
  split; [done|]. unfold invocations. simpl.
  rewrite countInvoke_app. unfold countInvoke at 2. simpl.
  assert (∀ a k, countInvoke (backoff (default 3 maxRetries)
                                (default 1000 baseDelay) a k) = k) as ->; [|lia].
  intros a k. revert a. induction k as [|k IHk]; intros a; [done|].
  simpl. unfold countInvoke in *.
  rewrite filter_cons_True by done.
  rewrite filter_cons_False by done. rewrite filter_cons_False by done.
  simpl. by rewrite IHk.
Qed.

Lemma sumDelays_app tr1 tr2 :
  sumDelays (tr1 ++ tr2) = sumDelays tr1 + sumDelays tr2.
Proof.
  unfold sumDelays. rewrite omap_app, foldr_app.
  induction (omap _ tr1) as [|d ds IH]; simpl; [lia|]. rewrite IH. lia.
Qed.

Lemma retryLoop_totalDelay op m b :
  0 <= b →
  ∀ fuel attempt lastError w tr,
    0 <= attempt <= m →
    sumDelays tr
    <= totalDelay (retryLoop op m b fuel attempt lastError w tr)
    <= sumDelays tr + b * (2 ^ m - 2 ^ attempt).
Proof.
  intros Hb. unfold totalDelay.
  assert (∀ a, 0 <= a <= m → 0 <= b * (2 ^ m - 2 ^ a)) as Hpow.
  { intros a Ha. apply Z.mul_nonneg_nonneg; [done|].
    pose proof (Z.pow_le_mono_r 2 a m). lia. }
  induction fuel as [|fuel IH]; intros attempt lastError w tr Ha; simpl.
  - fold (sumDelays tr). specialize (Hpow attempt Ha). lia.
  - specialize (Hpow attempt Ha) as Hp.
    assert (sumDelays (tr ++ [Invoke]) = sumDelays tr) as Hinv
      by (rewrite sumDelays_app; unfold sumDelays at 2; simpl; lia).
    rewrite bool_decide_eq_true_2 by lia.
    destruct (op w) as [[v|e] w']; simpl.
    { fold (sumDelays (tr ++ [Invoke])). lia. }
    case_bool_decide as Hlast; simpl.
    { fold (sumDelays (tr ++ [Invoke])). lia. }
    destruct (isClientError e); simpl.
    { fold (sumDelays (tr ++ [Invoke])). lia. }
    specialize (IH (attempt + 1) e w'
                  ((tr ++ [Invoke]) ++
                   [Warn (attempt + 1) (m + 1) (b * 2 ^ attempt);
                    Sleep (b * 2 ^ attempt)]) ltac:(lia)).
    assert (sumDelays [Warn (attempt + 1) (m + 1) (b * 2 ^ attempt);
                       Sleep (b * 2 ^ attempt)] = b * 2 ^ attempt) as Hsleep
      by (unfold sumDelays; simpl; lia).
    rewrite sumDelays_app, Hinv, Hsleep in IH.
    assert (2 ^ (attempt + 1) = 2 * 2 ^ attempt) as Hsucc
      by (rewrite Z.pow_add_r by lia; lia).
    assert (0 <= b * 2 ^ attempt)
      by (apply Z.mul_nonneg_nonneg; [done|apply Z.pow_nonneg; lia]).
    rewrite Hsucc in IH. lia.
Qed.

(** Whatever the operation does, the time a run spends asleep is at
    most [baseDelay * (2 ^ maxRetries - 1)]: seven seconds with the
    defaults. *)
Theorem retryOperation_total_delay op maxRetries baseDelay w :
  0 <= default 3 maxRetries → 0 <= default 1000 baseDelay →
  0 <= totalDelay (retryOperation op maxRetries baseDelay w)
    <= default 1000 baseDelay * (2 ^ default 3 maxRetries - 1)
  ∧ totalDelay (retryOperation op None None w) <= 7000.
Proof.
  intros Hm Hb. unfold retryOperation. split.
  - pose proof (retryLoop_totalDelay op (default 3 maxRetries)
                  (default 1000 baseDelay) Hb
                  (Z.to_nat (default 3 maxRetries + 1)) 0 None w []) as H.
    unfold sumDelays in H at 1 2. simpl in H. apply H. lia.
  - pose proof (retryLoop_totalDelay op 3 1000 ltac:(lia)
                  (Z.to_nat (3 + 1)) 0 None w []) as H.
    unfold sumDelays in H at 1 2. simpl in H. simpl. lia.
Qed.
End RetryBounds.

Lemma retryOperation_negative_retries_witness :
  ErrorHandler.retryOperation RetryExamples.flaky (Some (-1)) None 0%nat
  = ErrorHandler.mkOutcome (Threw None) 0%nat [].
Proof.
  apply (retryOperation_negative_retries RetryExamples.flaky (-1) None 0%nat).
  lia.
Defined.

Lemma retryOperation_invokes_once_at_least_witness :
  ErrorHandler.invocations
    (ErrorHandler.retryOperation RetryExamples.rejectsBare (Some 1) None 0%nat)
  = 2%nat
  ∧ ErrorHandler.completion
      (ErrorHandler.retryOperation RetryExamples.rejectsBare (Some 1) None 0%nat)
    = Threw None
  ∧ ErrorHandler.world
      (ErrorHandler.retryOperation RetryExamples.rejectsBare (Some 1) None 0%nat)
    = 2%nat.
Proof.
  destruct (retryOperation_invokes_once_at_least RetryExamples.rejectsBare
              (Some 1) None 0%nat) as (_ & H2 & H3); [simpl; lia|].
  split_and!; [reflexivity|exact H2|exact H3].
Defined.

Lemma retryOperation_stops_at_client_error_witness :
  ErrorHandler.retryOperation RetryExamples.timeoutThenMissing None None 0%nat
  = ErrorHandler.mkOutcome
      (Threw (Some (ErrorHandler.SynapseApiError "Notebook not found" 404 None)))
      2%nat
      [ErrorHandler.Invoke; ErrorHandler.Warn 1 4 1000; ErrorHandler.Sleep 1000;
       ErrorHandler.Invoke]
  ∧ ErrorHandler.invocations
      (ErrorHandler.retryOperation RetryExamples.timeoutThenMissing None None 0%nat)
    = 2%nat.
Proof.
  apply (retryOperation_stops_at_client_error RetryExamples.timeoutThenMissing
           None None 0%nat 1
           (Some (ErrorHandler.SynapseApiError "Notebook not found" 404 None))).
  - simpl. lia.
  - intros i Hi. exists (Some (ErrorHandler.Error "connect ETIMEDOUT")).
    destruct i as [|i]; [done|lia].
  - reflexivity.
  - reflexivity.
Defined.

Lemma retryOperation_total_delay_witness :
  0 <= ErrorHandlerUtils.totalDelay
         (ErrorHandler.retryOperation RetryExamples.unavailable None None 0%nat)
    <= 7000.
Proof.
  destruct (retryOperation_total_delay RetryExamples.unavailable None None 0%nat)
    as [H _]; [simpl; lia|simpl; lia|].
  simpl in H. lia.
Defined.

(** ** Error helpers *)

Section ErrorHelpers.
Import ErrorHandler ErrorHandlerUtils.

(** The extracted message is never empty, [undefined] or otherwise
    falsy, unless the error is itself the empty string. *)
Theorem extractErrorMessage_truthy (error : JsVal) :
  error ≠ JString "" → truthyVal (extractErrorMessage error) = true.
Proof.
  intros Hne. unfold extractErrorMessage.
  destruct error as [| | | |s|props]; simpl; try done.
  - apply negb_true_iff, bool_decide_eq_false. congruence.
  - destruct (truthyVal (assoc "message" props)) eqn:H1; [done|].
    destruct (truthyVal (getProp (assoc "error" props) "message")) eqn:H2; [done|].
    by destruct (truthyVal (getProp (getProp (getProp (assoc "response" props)
                   "data") "error") "message")) eqn:H3.
Qed.

Lemma length_substring_0 (n : nat) (s : string) :
  String.length (String.substring 0 n s) = Nat.min n (String.length s).
Proof.
  revert n. induction s as [|a s IH]; intros [|n]; simpl; try done.
  by rewrite IH.
Qed.

Lemma length_app_string (s1 s2 : string) :
  String.length (s1 +:+ s2) = (String.length s1 + String.length s2)%nat.
Proof. induction s1 as [|a s1 IH]; simpl; [done|]. by rewrite IH. Qed.

Lemma substring_0_prefix (n : nat) (s : string) :
  ∃ rest, s = String.substring 0 n s +:+ rest.
Proof.
  revert n. induction s as [|a s IH]; intros [|n]; simpl; eauto.
  destruct (IH n) as [rest Hrest]. exists rest.
  change (String a s = String a (String.substring 0 n s +:+ rest)).
  by f_equal.
Qed.

(** A string within the bound is returned as is; a longer one is cut
    to the bound and marked, so the result is never longer than the
    bound plus the 15 characters of the mark - which can be longer than
    the input. *)
Theorem truncateString_bound (str : string) (maxLength : option Z) :
  let n := default 1000 maxLength in
  (Z.of_nat (String.length str) <= n → truncateString str maxLength = str)
  ∧ (n < Z.of_nat (String.length str) →
       ∃ rest,
         str = String.substring 0 (Z.to_nat n) str +:+ rest
         ∧ truncateString str maxLength
           = String.substring 0 (Z.to_nat n) str +:+ "... (truncated)"
         ∧ String.length (truncateString str maxLength)
           = (Z.to_nat n + 15)%nat).
Proof.
  intros n. unfold truncateString. fold n. split.
  - intros Hle. by rewrite bool_decide_eq_true_2.
  - intros Hlt. rewrite bool_decide_eq_false_2 by lia.
    destruct (substring_0_prefix (Z.to_nat n) str) as [rest Hrest].
    exists rest. split_and!; [done|done|].
    rewrite length_app_string, length_substring_0. simpl. lia.
Qed.

(** Every status that is reported to the client as an invalid request
    is one that [retryOperation] does not retry. *)
Theorem invalidRequest_not_retried {W T : Type} (op : Operation W T)
    maxRetries baseDelay w message statusCode requestId w' :
  0 <= default 3 maxRetries →
  op w = (Threw (Some (SynapseApiError message statusCode requestId)), w') →
  mapHttpStatusToMcpError statusCode = InvalidRequest →
  invocations (retryOperation op maxRetries baseDelay w) = 1%nat
  ∧ completion (retryOperation op maxRetries baseDelay w)
    = Threw (Some (SynapseApiError message statusCode requestId)).
Proof.
  intros Hm Hop Hmap.
  assert (isClientError (Some (SynapseApiError message statusCode requestId))
          = true) as Hc.
  { unfold mapHttpStatusToMcpError in Hmap. simpl.
    repeat case_bool_decide; subst; try done; lia. }
  assert (outcomeAt op 0 w
          = Threw (Some (SynapseApiError message statusCode requestId))) as Hout
    by (unfold outcomeAt; simpl; by rewrite Hop).
  unfold retryOperation.
  rewrite (retryLoop_client_error op (default 3 maxRetries)
             (default 1000 baseDelay)
             (Some (SynapseApiError message statusCode requestId)) 0
             (Z.to_nat (default 3 maxRetries + 1)) 0 None w []
             ltac:(lia) ltac:(lia) ltac:(intros i Hi; lia) Hout Hc).
  simpl. rewrite Hop. by split.
Qed.
End ErrorHelpers.

Lemma extractErrorMessage_truthy_witness :
  ErrorHandlerUtils.truthyVal
    (ErrorHandlerUtils.extractErrorMessage
       (ErrorHandlerUtils.JObject
          [("error",
            ErrorHandlerUtils.JObject
              [("code", ErrorHandlerUtils.JString "NotFound");
               ("message", ErrorHandlerUtils.JString "Notebook nb1 not found")])]))
  = true.
Proof. apply extractErrorMessage_truthy. discriminate. Defined.

Lemma truncateString_bound_witness :
  ErrorHandlerUtils.truncateString "SELECT * FROM sales" (Some 6)
  = "SELECT... (truncated)".
Proof.
  destruct (truncateString_bound "SELECT * FROM sales" (Some 6)) as [_ H].
  destruct H as (rest & _ & -> & _); [simpl; lia|]. reflexivity.
Defined.

Lemma invalidRequest_not_retried_witness :
  ErrorHandler.invocations
    (ErrorHandler.retryOperation RetryExamples.notFound None None 0%nat) = 1%nat
  ∧ ErrorHandler.completion
      (ErrorHandler.retryOperation RetryExamples.notFound None None 0%nat)
    = Threw (Some (ErrorHandler.SynapseApiError "Notebook not found" 404 None)).
Proof.
  apply (invalidRequest_not_retried RetryExamples.notFound None None 0%nat
           "Notebook not found" 404 None 1%nat).
  - simpl. lia.
  - reflexivity.
  - reflexivity.
Defined.

(** ** Tenant registry: registration, defaults, configuration sources *)

Section RegistryMethods.
Import TenantManager TenantManagerConfig.
Implicit Types (tm : TenantManager.t) (n : string).

Lemma resolveName_explicit tm n : n ≠ "" → resolveName tm (Some n) = n.
Proof.
  intros Hn. unfold resolveName, js_or. simpl. by rewrite decide_False.
Qed.

(** [setDefaultTenant] accepts exactly the registered names; once it
    has accepted a non-empty name, an omitted tenant name resolves to
    that tenant; a rejected name is reported and nothing changes. *)
Theorem setDefaultTenant_effect tm n :
  (∀ config, tenants tm !! n = Some config →
     ∃ tm', setDefaultTenant n tm = inr tm'
            ∧ tenants tm' = tenants tm
            ∧ credentialMap tm' = credentialMap tm
            ∧ (n ≠ "" → getTenant tm' None = Some config))
  ∧ (tenants tm !! n = None →
       setDefaultTenant n tm = inl ("Tenant not found: " +:+ n)).
Proof.
  split.
  - intros config Hn. unfold setDefaultTenant. rewrite Hn.
    eexists. split_and!; try done.
    intros Hne. unfold getTenant, resolveName, js_or. simpl.
    by rewrite decide_False.
  - intros Hn. unfold setDefaultTenant. by rewrite Hn.
Qed.

End RegistryMethods.

Section RegistryLibrary.
Import TenantManager TenantManagerConfig.
Context {E : Type} `{!Identity E}.
Implicit Types (tm : TenantManager.t) (n : string).

Lemma addTenant_cases tm n config :
  (∃ c e, credentialFor (credentials config) = Some c ∧ refuses c = Some e
          ∧ addTenant n config tm = (Some e, setTenant n config tm))
  ∨ (∃ credential,
       (credentialFor (credentials config) = credential
        ∧ ∀ c, credential = Some c → refuses c = None)
       ∧ addTenant n config tm
         = (None,
            TenantManager.mk (tenants (setTenant n config tm))
              (<[n := credential]> (credentialMap tm))
              (defaultTenant tm) (tenantOrder (setTenant n config tm)))).
Proof.
  unfold addTenant, makeCredential, newCredential.
  destruct (credentialFor (credentials config)) as [c|] eqn:Hc.
  - destruct (refuses c) as [e|] eqn:He.
    + left. by exists c, e.
    + right. exists (Some c). split; [|done]. split; [done|]. by intros ? [= <-].
  - right. exists None. by split.
Qed.

(** A tenant registered under a non-empty name is found under that
    name, and the entries of other names and the default stay as they
    were, whether or not the call throws.  When the identity library
    builds the credential the declaration asks for, that credential is
    stored and handed out; when the declaration asks for none (a
    service principal with a field missing) nothing is built and the
    fallback is handed out; and when the library's constructor throws,
    the call throws that value with the configuration already stored
    and the credential entry of the name left as it was. *)
Theorem addTenant_lookup tm n config :
  n ≠ "" →
  getTenant (addTenant n config tm).2 (Some n) = Some config
  ∧ (∀ m, m ≠ n →
       tenants (addTenant n config tm).2 !! m = tenants tm !! m
       ∧ credentialMap (addTenant n config tm).2 !! m = credentialMap tm !! m)
  ∧ defaultTenant (addTenant n config tm).2 = defaultTenant tm
  ∧ (∀ c, credentialFor (credentials config) = Some c → refuses c = None →
       (addTenant n config tm).1 = None
       ∧ credentialMap (addTenant n config tm).2 !! n = Some (Some c)
       ∧ getCredential (addTenant n config tm).2 (Some n) = inr c)
  ∧ (credentialFor (credentials config) = None →
       (addTenant n config tm).1 = None
       ∧ credentialMap (addTenant n config tm).2 !! n = Some None
       ∧ getCredential (addTenant n config tm).2 (Some n)
         = newCredential DefaultAzureCredential)
  ∧ (∀ c e, credentialFor (credentials config) = Some c → refuses c = Some e →
       (addTenant n config tm).1 = Some e
       ∧ credentialMap (addTenant n config tm).2 !! n = credentialMap tm !! n).
Proof.
  intros Hn.
  destruct (addTenant_cases tm n config)
    as [(c & e & Hc & He & ->)|(credential & [Hc Hok] & ->)]; simpl.
  - split_and!.
    + unfold getTenant. rewrite resolveName_explicit by done. simpl.
      apply lookup_insert_eq.
    + intros m Hm. by rewrite lookup_insert_ne.
    + done.
    + intros c' Hc' He'. congruence.
    + intros Hnone. congruence.
    + intros c' e' Hc' He'. split; [congruence|done].
  - split_and!.
    + unfold getTenant. rewrite resolveName_explicit by done. simpl.
      apply lookup_insert_eq.
    + intros m Hm. by rewrite !lookup_insert_ne.
    + done.
    + intros c Hc' He. rewrite lookup_insert_eq. split_and!; [done|congruence|].
      unfold getCredential. rewrite resolveName_explicit by done. simpl.
      rewrite lookup_insert_eq. by rewrite <-Hc, Hc'.
    + intros Hnone. rewrite lookup_insert_eq. split_and!; [done|congruence|].
      unfold getCredential. rewrite resolveName_explicit by done. simpl.
      rewrite lookup_insert_eq. by rewrite <-Hc, Hnone.
    + intros c e Hc' He. rewrite (Hok c) in He; [done|congruence].
Qed.

Lemma coherent_setTenant tm n config :
  coherent tm → coherent (setTenant n config tm).
Proof.
  intros (Hd & Hc & Hnd & Hin). unfold coherent, keysListed. split_and!; simpl.
  - intros d Hdef. apply lookup_insert_is_Some.
    destruct (decide (n = d)); [by left|right; split; [done|by apply Hd]].
  - intros m Hm. apply lookup_insert_is_Some.
    destruct (decide (n = m)); [by left|right; split; [done|by apply Hc]].
  - destruct (tenants tm !! n) eqn:Hn; [done|].
    apply NoDup_app. split_and!; [done| |apply NoDup_singleton].
    intros m Hm ->%list_elem_of_singleton.
    apply Hin in Hm as [? Hm]. congruence.
  - intros m. rewrite lookup_insert_is_Some.
    destruct (tenants tm !! n) eqn:Hn.
    + rewrite Hin. destruct (decide (n = m)) as [<-|Hne].
      * rewrite Hn. split; [by left|eauto].
      * split; [by right|by intros [?|[_ ?]]].
    + rewrite elem_of_app, list_elem_of_singleton, Hin.
      destruct (decide (n = m)) as [<-|Hne].
      * split; [by left|by right].
      * split; [intros [Hm|Hm]; [by right|by subst]|].
        intros [?|[_ Hm]]; [done|by left].
Qed.

Lemma coherent_apply tm c : coherent tm → coherent (apply tm c).
Proof.
  intros Hco. destruct c as [n config|n|n]; simpl.
  - pose proof (coherent_setTenant tm n config Hco) as (Hd & Hc & Hnd & Hin).
    destruct (addTenant_cases tm n config)
      as [(c & e & _ & _ & ->)|(credential & _ & ->)]; simpl;
      [by split_and!|].
    unfold coherent, keysListed. split_and!; simpl; try done.
    intros m Hm. apply lookup_insert_is_Some in Hm as [<-|[_ Hm]].
    + rewrite lookup_insert_eq. eauto.
    + simpl in Hc. by apply Hc.
  - destruct Hco as (Hd & Hc & Hnd & Hin).
    unfold coherent, keysListed. split_and!; simpl.
    + intros d. destruct (decide (defaultTenant tm = Some n)) as [Heq|Hne];
        [done|]. intros Hdef. rewrite lookup_delete_ne by congruence. auto.
    + intros m. destruct (decide (n = m)) as [->|Hne].
      * rewrite lookup_delete_eq. by intros [? ?].
      * rewrite !lookup_delete_ne by done. apply Hc.
    + by apply NoDup_filter.
    + intros m. rewrite list_elem_of_filter, Hin.
      destruct (decide (n = m)) as [->|Hne].
      * rewrite lookup_delete_eq. split; [by intros [? _]|by intros [? ?]].
      * rewrite lookup_delete_ne by done. split; [by intros [_ ?]|done].
  - unfold setDefaultTenant. destruct (tenants tm !! n) eqn:Hn; [|done].
    destruct Hco as (Hd & Hc & Hnd & Hin).
    unfold coherent, keysListed. split_and!; simpl; try done.
    intros d [= <-]. eauto.
Qed.

Lemma credentialsMatch_apply tm c :
  (∀ credential, refuses credential = None) →
  credentialsMatch tm → credentialsMatch (apply tm c).
Proof.
  intros Hok Hm. destruct c as [n config|n|n]; simpl.
  - destruct (addTenant_cases tm n config)
      as [(c & e & _ & He & _)|(credential & [<- _] & ->)]; simpl.
    { by rewrite Hok in He. }
    intros m. simpl. destruct (decide (n = m)) as [->|Hne].
    + by rewrite !lookup_insert_eq.
    + rewrite !lookup_insert_ne by done. apply Hm.
  - intros m. simpl. destruct (decide (n = m)) as [->|Hne].
    + by rewrite !lookup_delete_eq.
    + rewrite !lookup_delete_ne by done. apply Hm.
  - unfold setDefaultTenant. by destruct (tenants tm !! n).
Qed.

Lemma coherent_calls (calls : list Call) :
  coherent (fold_left apply calls TenantManager.empty).
Proof.
  induction calls as [|c calls IH] using rev_ind.
  - unfold coherent, keysListed. split_and!; simpl; try done.
    + intros n. rewrite lookup_empty. by intros [? ?].
    + apply NoDup_nil_2.
    + intros n. rewrite lookup_empty.
      split; [by intros ?%elem_of_nil|by intros [? ?]].
  - rewrite fold_left_app. simpl. by apply coherent_apply.
Qed.

(** Whatever sequence of [addTenant], [removeTenant] and
    [setDefaultTenant] calls is made on an empty registry, throwing
    ones included: the default is unset or names a registered tenant -
    so that, once a non-empty default is set, an omitted name always
    resolves; only registered tenants have a credential entry; and
    [listTenants] lists the registered names, each once.  When the
    identity library refuses nothing, every tenant moreover has the
    credential its declaration asks for. *)
Theorem registry_coherent (calls : list Call) :
  let tm := fold_left apply calls TenantManager.empty in
  coherent tm
  ∧ (∀ d, defaultTenant tm = Some d → d ≠ "" → is_Some (getTenant tm None))
  ∧ NoDup (listTenants tm)
  ∧ (∀ n, n ∈ listTenants tm ↔ is_Some (tenants tm !! n))
  ∧ ((∀ credential, refuses credential = None) → credentialsMatch tm).
Proof.
  intros tm.
  assert (coherent tm) as Hco by apply coherent_calls.
  pose proof Hco as (Hdef & _ & Hnd & Hin).
  split_and!; [done| |exact Hnd|exact Hin|].
  - intros d Hd Hne.
    unfold getTenant, resolveName, js_or. simpl. rewrite Hd. simpl.
    rewrite decide_False by done. by apply Hdef.
  - intros Hok. unfold tm. clear tm Hco Hdef Hnd Hin.
    induction calls as [|c calls IH] using rev_ind.
    + intros n. simpl. by rewrite !lookup_empty.
    + rewrite fold_left_app. cbn [fold_left].
      apply credentialsMatch_apply; [exact Hok|exact IH].
Qed.
End RegistryLibrary.

Lemma setDefaultTenant_effect_witness :
  TenantManager.setDefaultTenant "initech" TenantExamples.registry
  = inl "Tenant not found: initech".
Proof.
  apply (proj2 (setDefaultTenant_effect TenantExamples.registry "initech")).
  reflexivity.
Defined.

Lemma addTenant_lookup_witness :
  (TenantManager.addTenant "umbrella" TenantExamples.mistyped
     TenantExamples.registry).1 = Some "Invalid tenant id provided."
  ∧ TenantManager.getTenant
      (TenantManager.addTenant "umbrella" TenantExamples.mistyped
         TenantExamples.registry).2 (Some "umbrella")
    = Some TenantExamples.mistyped
  ∧ TenantManager.credentialMap
      (TenantManager.addTenant "umbrella" TenantExamples.mistyped
         TenantExamples.registry).2 !! "umbrella" = None.
Proof.
  destruct (addTenant_lookup TenantExamples.registry "umbrella"
              TenantExamples.mistyped) as (H1 & _ & _ & _ & _ & H6); [done|].
  destruct (H6 (TenantManager.ClientSecretCredential "contoso corp" "cid" "s3cret")
              "Invalid tenant id provided.") as [Ha Hb];
    [reflexivity|reflexivity|].
  split_and!; [exact Ha|exact H1|]. rewrite Hb. reflexivity.
Defined.

Section ConfigurationSources.
Import TenantManager TenantManagerConfig.
Context {E : Type} `{!Identity E}.
Implicit Types (tm : TenantManager.t) (env : Env) (file : ConfigFile).

Lemma addAll_frame configs tm :
  defaultTenant (addAll configs tm).2 = defaultTenant tm.
Proof.
  revert tm. induction configs as [|config configs IH]; intros tm; [done|].
  simpl.
  destruct (addTenant_cases tm (name config) config)
    as [(c & e & _ & _ & ->)|(credential & _ & ->)]; [done|].
  by rewrite IH.
Qed.

Lemma addAll_refused configs tm config :
  config ∈ configs → ¬ accepts config → is_Some (addAll configs tm).1.
Proof.
  intros Hin Hno. revert tm.
  induction configs as [|config' configs IH]; intros tm;
    [by apply elem_of_nil in Hin|].
  simpl.
  destruct (addTenant_cases tm (name config') config')
    as [(c & e & _ & _ & ->)|(credential & [Hc Hok] & ->)]; [by eexists|].
  apply elem_of_cons in Hin as [->|Hin]; [|by apply IH].
  exfalso. apply Hno. intros c Hc'. apply Hok. congruence.
Qed.

Lemma loadFile_tenants_default file tm :
  defaultTenant tm = None →
  ∀ d, defaultTenant (loadFile file tm) = Some d → d ≠ "".
Proof.
  intros Hnone d. destruct file as [| |defaultName configs]; simpl;
    try (rewrite Hnone; done).
  destruct (addAll (default [] configs) tm) as [[e|] tm'] eqn:Hadd; simpl.
  - pose proof (addAll_frame (default [] configs) tm) as Hf.
    rewrite Hadd in Hf. simpl in Hf. rewrite Hf, Hnone. done.
  - unfold truthy. destruct defaultName as [s|]; [|done].
    destruct (decide (s = "")); [done|]. by intros [= <-].
Qed.

(** With a workspace in the environment and an identity library that
    builds the fallback credential, the registry is constructed with
    the environment's tenant registered as "default", in place of
    whatever the file registered under that name; the other tenants
    are those the file gave.  A default named by a file that was read
    to its end is kept, registered or not.  When the file names none,
    or when reading the file ended in a throw (which is caught: the
    rest of the file and its default are skipped), "default" becomes
    the default and an omitted tenant name resolves to the
    environment's tenant.  When the library refuses the fallback
    credential, the constructor throws what the library threw. *)
Theorem construct_env_tenant file env workspace :
  AZURE_SYNAPSE_WORKSPACE env = Some workspace → workspace ≠ "" →
  (refuses DefaultAzureCredential = None →
     ∃ tm,
       construct file env = inr tm
       ∧ tenants tm !! "default" = Some (envTenant env workspace)
       ∧ credentialMap tm !! "default" = Some (Some DefaultAzureCredential)
       ∧ (∀ n, n ≠ "default" →
            tenants tm !! n = tenants (loadFile file TenantManager.empty) !! n)
       ∧ (∀ d configs, file = Document (Some d) configs → d ≠ "" →
            (addAll (default [] configs) TenantManager.empty).1 = None →
            defaultTenant tm = Some d)
       ∧ (∀ d configs, file = Document d configs →
            is_Some (addAll (default [] configs) TenantManager.empty).1 →
            defaultTenant tm = Some "default"
            ∧ getTenant tm None = Some (envTenant env workspace))
       ∧ ((∀ d configs, file = Document d configs → truthy d = None) →
            defaultTenant tm = Some "default"
            ∧ getTenant tm None = Some (envTenant env workspace)))
  ∧ (∀ e, refuses DefaultAzureCredential = Some e → construct file env = inl e).
Proof.
  intros Hws Hne. unfold construct, loadConfiguration.
  rewrite Hws. simpl. rewrite decide_False by done.
  set (loaded := loadFile file TenantManager.empty).
  assert (credentialFor (credentials (envTenant env workspace))
          = Some DefaultAzureCredential) as Hfor by reflexivity.
  split.
  - intros Hok.
    destruct (addTenant_cases loaded "default" (envTenant env workspace))
      as [(c & e & Hc & He & _)|(credential & [Hc _] & ->)]; [congruence|].
    assert (credential = Some DefaultAzureCredential) as -> by congruence.
    assert (∀ tm', tenants tm' = <["default" := envTenant env workspace]> (tenants loaded) →
              defaultTenant tm' = Some "default" →
              getTenant tm' None = Some (envTenant env workspace)) as Hget.
    { intros tm' Ht Hd. unfold getTenant, resolveName, js_or. rewrite Hd. simpl.
      rewrite Ht. apply lookup_insert_eq. }
    destruct (truthy (defaultTenant loaded)) as [d|] eqn:Hd; simpl;
      rewrite ?Hd; eexists; (split; [reflexivity|]); simpl.
    + assert (defaultTenant loaded = Some d ∧ d ≠ "") as [Hd1 Hd2].
      { unfold truthy in Hd. destruct (defaultTenant loaded) as [s|]; [|done].
        destruct (decide (s = "")); [done|]. by injection Hd as <-. }
      split_and!.
      * apply lookup_insert_eq.
      * apply lookup_insert_eq.
      * intros n Hn. by rewrite lookup_insert_ne.
      * intros d' configs -> Hd' Hall. pose proof Hd1 as Hkept.
        unfold loaded in Hd1. simpl in Hd1.
        destruct (addAll (default [] configs) TenantManager.empty)
          as [[e|] tm'] eqn:Hadd; [done|]. simpl in Hd1.
        rewrite decide_False in Hd1 by done. by injection Hd1 as ->.
      * intros d' configs -> [e Hthrow]. exfalso.
        unfold loaded in Hd1. simpl in Hd1.
        pose proof (addAll_frame (default [] configs) TenantManager.empty) as Hf.
        destruct (addAll (default [] configs) TenantManager.empty)
          as [[e'|] tm'] eqn:Hadd; [|done].
        simpl in Hd1, Hf. by rewrite Hf in Hd1.
      * intros Hnone. exfalso. unfold loaded in Hd1.
        destruct file as [| |d' configs]; simpl in Hd1; try done.
        pose proof (addAll_frame (default [] configs) TenantManager.empty) as Hf.
        destruct (addAll (default [] configs) TenantManager.empty)
          as [[e'|] tm'] eqn:Hadd; simpl in Hd1, Hf.
        { by rewrite Hf in Hd1. }
        by rewrite (Hnone d' configs eq_refl) in Hd1.
    + split_and!.
      * apply lookup_insert_eq.
      * apply lookup_insert_eq.
      * intros n Hn. by rewrite lookup_insert_ne.
      * intros d' configs -> Hd' Hall. exfalso. unfold loaded in Hd. simpl in Hd.
        destruct (addAll (default [] configs) TenantManager.empty)
          as [[e|] tm'] eqn:Hadd; [done|]. simpl in Hd.
        repeat (rewrite decide_False in Hd by done; simpl in Hd). done.
      * intros d' configs _ _. split; [done|]. by apply Hget.
      * intros _. split; [done|]. by apply Hget.
  - intros e He.
    destruct (addTenant_cases loaded "default" (envTenant env workspace))
      as [(c & e' & Hc & He' & ->)|(credential & [Hc Hok] & _)].
    + congruence.
    + rewrite (Hok DefaultAzureCredential) in He; [done|congruence].
Qed.

(** The names in a list of configurations without repeated names that
    are new to the registry are added in order, each with the
    credential it asks for, when the library accepts them all. *)
Lemma addAll_accepted configs :
  ∀ tm,
    NoDup (name <$> configs) →
    (∀ config, config ∈ configs → tenants tm !! name config = None) →
    (∀ config, config ∈ configs → accepts config) →
    ∃ tm',
      addAll configs tm = (None, tm')
      ∧ tenantOrder tm' = tenantOrder tm ++ (name <$> configs)
      ∧ defaultTenant tm' = defaultTenant tm
      ∧ (∀ n, tenants tm' !! n
              = match list_find (λ c, name c = n) configs with
                | Some (_, c) => Some c
                | None => tenants tm !! n
                end)
      ∧ (∀ n, credentialMap tm' !! n
              = match list_find (λ c, name c = n) configs with
                | Some (_, c) => Some (credentialFor (credentials c))
                | None => credentialMap tm !! n
                end).
Proof.
  induction configs as [|config configs IH]; intros tm Hnd Hnew Hacc.
  - exists tm. simpl. by rewrite app_nil_r.
  - apply NoDup_cons in Hnd as [Hhead Hnd]. simpl.
    destruct (addTenant_cases tm (name config) config)
      as [(c & e & Hc & He & _)|(credential & [Hc _] & ->)].
    { rewrite (Hacc config) in He; [done|by left|done]. }
    subst credential.
    assert (tenants tm !! name config = None) as Hfresh
      by (apply Hnew; by left).
    destruct (IH (TenantManager.mk (tenants (setTenant (name config) config tm))
                    (<[name config := credentialFor (credentials config)]>
                       (credentialMap tm))
                    (defaultTenant tm)
                    (tenantOrder (setTenant (name config) config tm))))
      as (tm' & -> & Horder & Hdef & Hten & Hcred); [done| |by intros; apply Hacc; right|].
    { intros config' Hin. simpl. rewrite lookup_insert_ne.
      - apply Hnew. by right.
      - intros Heq. apply Hhead. rewrite Heq. by apply list_elem_of_fmap_2. }
    exists tm'. simpl in *. rewrite Hfresh in Horder.
    split_and!; [done|by rewrite Horder, <-app_assoc|done| |].
    + intros n. rewrite Hten. destruct (decide (name config = n)) as [<-|Hne].
      * assert (list_find (λ c, name c = name config) configs = None) as ->.
        { apply list_find_None, Forall_forall. intros c Hin Heq.
          apply Hhead. rewrite <-Heq. by apply list_elem_of_fmap_2. }
        simpl. by rewrite lookup_insert_eq.
      * destruct (list_find (λ c, name c = n) configs) as [[i c]|]; simpl; [done|].
        by rewrite lookup_insert_ne.
    + intros n. rewrite Hcred. destruct (decide (name config = n)) as [<-|Hne].
      * assert (list_find (λ c, name c = name config) configs = None) as ->.
        { apply list_find_None, Forall_forall. intros c Hin Heq.
          apply Hhead. rewrite <-Heq. by apply list_elem_of_fmap_2. }
        simpl. by rewrite lookup_insert_eq.
      * destruct (list_find (λ c, name c = n) configs) as [[i c]|]; simpl; [done|].
        by rewrite lookup_insert_ne.
Qed.

Lemma tenantValues_elem tm config :
  config ∈ tenantValues tm ↔
  ∃ n, n ∈ tenantOrder tm ∧ tenants tm !! n = Some config.
Proof. unfold tenantValues. by rewrite list_elem_of_omap. Qed.

Lemma tenantValues_names tm :
  (∀ n, n ∈ tenantOrder tm → is_Some (tenants tm !! n)) →
  (∀ n config, tenants tm !! n = Some config → name config = n) →
  name <$> tenantValues tm = tenantOrder tm.
Proof.
  intros Hin Hnames. unfold tenantValues.
  induction (tenantOrder tm) as [|n l IH]; [done|]. simpl.
  destruct (Hin n) as [config Hn]; [by left|]. rewrite Hn. simpl.
  rewrite (Hnames _ _ Hn). f_equal. apply IH. intros m Hm. apply Hin. by right.
Qed.

(** What [saveConfiguration] writes is read back by a new registry as
    the same tenants in the same order and the same default, each
    tenant with the credential its declaration asks for - provided
    every tenant is registered under the name its configuration
    carries, the environment defines no workspace, and the identity
    library accepts every tenant ([keysListed] only says that the
    model's two fields describe one [Map]).  When it refuses one of them, the
    reading ends there and the new registry has no default, whatever
    was saved. *)
Theorem save_load_roundtrip tm env :
  truthy (AZURE_SYNAPSE_WORKSPACE env) = None →
  keysListed tm →
  (∀ n config, tenants tm !! n = Some config → name config = n) →
  ((∀ n config, tenants tm !! n = Some config → accepts config) →
     ∃ tm',
       construct (saveConfiguration tm) env = inr tm'
       ∧ tenants tm' = tenants tm
       ∧ listTenants tm' = listTenants tm
       ∧ defaultTenant tm' = truthy (defaultTenant tm)
       ∧ credentialsMatch tm')
  ∧ (∀ n config, tenants tm !! n = Some config → ¬ accepts config →
       ∃ tm',
         construct (saveConfiguration tm) env = inr tm'
         ∧ defaultTenant tm' = None).
Proof.
  intros Henv (Hnd & Hin) Hnames.
  unfold construct, loadConfiguration, saveConfiguration. rewrite Henv. simpl.
  assert (name <$> tenantValues tm = tenantOrder tm) as Hvals.
  { apply tenantValues_names; [|done]. intros n. apply Hin. }
  split.
  - intros Hacc.
    destruct (addAll_accepted (tenantValues tm) TenantManager.empty)
      as (tm' & -> & Horder & Hdef & Hten & Hcred).
    { by rewrite Hvals. }
    { done. }
    { intros config (n & _ & Hn)%tenantValues_elem. by apply (Hacc n). }
    assert (∀ n, match list_find (λ c, name c = n) (tenantValues tm) with
                 | Some (_, c) => tenants tm !! n = Some c
                 | None => tenants tm !! n = None
                 end) as Hfind.
    { intros n. destruct (list_find _ _) as [[i c]|] eqn:Hf.
      - apply list_find_Some in Hf as (Hi & Hname & _).
        apply list_elem_of_lookup_2, tenantValues_elem in Hi as (n' & _ & Hn').
        by rewrite <-Hname, (Hnames _ _ Hn').
      - destruct (tenants tm !! n) as [config|] eqn:Hn; [|done]. exfalso.
        rewrite list_find_None, Forall_forall in Hf.
        apply (Hf config); [|by apply Hnames].
        apply tenantValues_elem. exists n. split; [|done]. apply Hin. eauto. }
    eexists. split; [reflexivity|]. simpl. split_and!.
    + apply map_eq. intros n. rewrite Hten. specialize (Hfind n).
      destruct (list_find _ _) as [[i c]|]; [done|]. by rewrite Hfind.
    + unfold listTenants. by rewrite Horder, Hvals.
    + done.
    + intros n. simpl. rewrite Hten, Hcred.
      by destruct (list_find _ _) as [[i c]|].
  - intros n config Hn Hno.
    destruct (addAll_refused (tenantValues tm) TenantManager.empty config)
      as [e He]; [|done|].
    { apply tenantValues_elem. exists n. split; [|done]. apply Hin. eauto. }
    pose proof (addAll_frame (tenantValues tm) TenantManager.empty) as Hf.
    destruct (addAll (tenantValues tm) TenantManager.empty) as [[e'|] tm'];
      [|done].
    eexists. split; [reflexivity|]. done.
Qed.
End ConfigurationSources.

Lemma construct_env_tenant_witness :
  ∃ tm,
    TenantManagerConfig.construct ConfigExamples.fileRefused ConfigExamples.env
    = inr tm
    ∧ TenantManager.tenants tm !! "default"
      = Some (TenantManagerConfig.envTenant ConfigExamples.env "ws-acme")
    ∧ TenantManager.defaultTenant tm = Some "default".
Proof.
  destruct (construct_env_tenant ConfigExamples.fileRefused ConfigExamples.env
              "ws-acme") as [H _]; [reflexivity|done|].
  destruct H as (tm & H1 & H2 & _ & _ & _ & H6 & _); [reflexivity|].
  exists tm. split_and!; [exact H1|exact H2|].
  apply (H6 (Some "prod")
            (Some [TenantExamples.mistyped; ConfigExamples.fileDefault]));
    [reflexivity|by eexists].
Defined.

Lemma save_load_roundtrip_witness :
  ∃ tm,
    TenantManagerConfig.construct
      (TenantManagerConfig.saveConfiguration TenantExamples.registry)
      ConfigExamples.noEnv = inr tm
    ∧ TenantManager.tenants tm = TenantManager.tenants TenantExamples.registry
    ∧ TenantManager.listTenants tm = ["acme"; "globex"].
Proof.
  assert (∀ n config,
            TenantManager.tenants TenantExamples.registry !! n = Some config →
            TenantManager.name config = n) as Hnames.
  { intros n config Hn.
    refine (map_Forall_lookup_1 (λ n config, TenantManager.name config = n)
              (TenantManager.tenants TenantExamples.registry) n config _ Hn).
    apply map_Forall_to_list. vm_compute. repeat constructor. }
  destruct (save_load_roundtrip TenantExamples.registry ConfigExamples.noEnv)
    as [H _]; [reflexivity| |exact Hnames|].
  - exact (proj2 (proj2 (coherent_calls
             [TenantManagerConfig.AddTenant "acme" TenantExamples.acme;
              TenantManagerConfig.AddTenant "globex" TenantExamples.globex;
              TenantManagerConfig.SetDefaultTenant "acme"]))).
  - destruct H as (tm & H1 & H2 & H3 & _).
    + intros n config Hn.
      refine (map_Forall_lookup_1 (λ _ config, TenantManagerConfig.accepts config)
                (TenantManager.tenants TenantExamples.registry) n config _ Hn).
      apply map_Forall_to_list.
      eassert (map_to_list (TenantManager.tenants TenantExamples.registry) = _)
        as -> by (vm_compute; reflexivity).
      repeat (apply Forall_cons; split;
              [intros c Hc; vm_compute in Hc; simplify_eq; reflexivity|]).
      apply Forall_nil_2.
    + exists tm. split_and!; [exact H1|exact H2|exact H3].
Defined.

(** ** Token service: what a call leaves in the cache *)

Section TokenResult.
Import ErrorHandler AzureAuthService.
Context {C : Type} `{!TokenCredential C}.

(** After any call the cache agrees with the answer: a returned token
    is the cached one, and a call that throws has emptied the cache and
    throws an [AuthenticationError] that begins "Failed to acquire
    access token: ". *)
Theorem getAccessToken_result_cached (s : AzureAuthService.t C) (now : Z) :
  match getAccessToken now s with
  | (Returned tok, s') => ∃ t, cachedToken s' = Some t ∧ token t = tok
  | (Threw e, s') =>
      cachedToken s' = None
      ∧ ∃ m, e = AuthenticationError ("Failed to acquire access token: " +:+ m)
  end.
Proof.
  assert (match acquire s with
          | (Returned tok, s') => ∃ t, cachedToken s' = Some t ∧ token t = tok
          | (Threw e, s') =>
              cachedToken s' = None
              ∧ ∃ m, e = AuthenticationError
                           ("Failed to acquire access token: " +:+ m)
          end) as Hacq.
  { unfold acquire, onFailure.
    destruct (getToken (credential s) scope) as [[t| |e] c]; simpl.
    - eauto.
    - eauto.
    - destruct (messageOf e); simpl; eauto. }
  unfold getAccessToken. destruct (cachedToken s) as [tok|] eqn:Hc; [|done].
  destruct (isTokenValid now tok); [|done]. eauto.
Qed.
End TokenResult.

Section CredentialChoice.
Import ErrorHandler AzureAuthSetup.
Context `{!Identity}.

Lemma finish_fallback (config : Config) :
  finish [] config
  = match refuses (Single (DefaultAzureCredential (tenantId config))) with
    | Some e => Threw e
    | None => Returned (Single (DefaultAzureCredential (tenantId config)))
    end.
Proof. unfold finish, newCredential. by destruct (refuses _). Qed.

Lemma finish_chain (c : Credential) (config : Config) :
  finish [c] config
  = match refuses (Single (DefaultAzureCredential (tenantId config))) with
    | Some e => Threw e
    | None =>
        match refuses (ChainedTokenCredential
                         [c; DefaultAzureCredential (tenantId config)]) with
        | Some e => Threw e
        | None =>
            Returned (ChainedTokenCredential
                        [c; DefaultAzureCredential (tenantId config)])
        end
    end.
Proof. unfold finish, newCredential. by destruct (refuses _). Qed.

(** Whatever [createCredential] returns tries the default credential
    of the configured tenant last, preceded by the client secret when -
    and only when - the method is client credentials.  What it throws
    is its own [AuthenticationError], for client credentials with an
    empty field or for an unknown method, or else the value that a
    constructor of the identity library threw, handed on as it is.
    With a library that refuses nothing it throws exactly in the first
    two cases. *)
Theorem createCredential_chain (config : Config) :
  (∀ o, createCredential config = Returned o →
     last (chain o) = Some (DefaultAzureCredential (tenantId config))
     ∧ (authMethod config = "client_credentials" →
        o = ChainedTokenCredential
              [ClientSecretCredential (tenantId config) (clientId config)
                 (clientSecret config);
               DefaultAzureCredential (tenantId config)])
     ∧ (authMethod config ≠ "client_credentials" →
        o = Single (DefaultAzureCredential (tenantId config))))
  ∧ (∀ e, createCredential config = Threw e →
       (authMethod config = "client_credentials"
        ∧ (clientId config = "" ∨ clientSecret config = "" ∨ tenantId config = "")
        ∧ ∃ m, e = AuthenticationError m)
       ∨ (authMethod config ≠ "client_credentials"
          ∧ authMethod config ≠ "managed_identity"
          ∧ authMethod config ≠ "azure_cli"
          ∧ e = AuthenticationError
                  ("Unsupported authentication method: " +:+ authMethod config))
       ∨ (∃ o, refuses o = Some e))
  ∧ ((∀ o, refuses o = None) →
     ((∃ e, createCredential config = Threw e) ↔
      (authMethod config = "client_credentials"
       ∧ (clientId config = "" ∨ clientSecret config = "" ∨ tenantId config = ""))
      ∨ (authMethod config ≠ "client_credentials"
         ∧ authMethod config ≠ "managed_identity"
         ∧ authMethod config ≠ "azure_cli"))).
Proof.
  unfold createCredential.
  destruct (decide (authMethod config = "client_credentials")) as [Hcc|Hcc].
  - destruct (decide (clientId config = "")) as [Hi|Hi];
      [rewrite (bool_decide_eq_true_2 _ Hi)|rewrite (bool_decide_eq_false_2 _ Hi)];
      simpl.
    { split_and!; [done| |].
      - intros e [= <-]. left. eauto.
      - intros _. split; [intros _; left; eauto|eauto]. }
    destruct (decide (clientSecret config = "")) as [Hs|Hs];
      [rewrite (bool_decide_eq_true_2 _ Hs)|rewrite (bool_decide_eq_false_2 _ Hs)];
      simpl.
    { split_and!; [done| |].
      - intros e [= <-]. left. eauto 6.
      - intros _. split; [intros _; left; eauto|eauto]. }
    destruct (decide (tenantId config = "")) as [Ht|Ht];
      [rewrite (bool_decide_eq_true_2 _ Ht)|rewrite (bool_decide_eq_false_2 _ Ht)];
      simpl.
    { split_and!; [done| |].
      - intros e [= <-]. left. eauto 6.
      - intros _. split; [intros _; left; eauto|eauto]. }
    unfold newCredential.
    destruct (refuses (Single (ClientSecretCredential _ _ _))) as [e1|] eqn:H1;
      simpl.
    { split_and!; [done| |].
      - intros e [= <-]. right. right. eauto.
      - intros Hok. by rewrite Hok in H1. }
    rewrite finish_chain.
    destruct (refuses (Single (DefaultAzureCredential _))) as [e2|] eqn:H2.
    { split_and!; [done| |].
      - intros e [= <-]. right. right. eauto.
      - intros Hok. by rewrite Hok in H2. }
    destruct (refuses (ChainedTokenCredential _)) as [e3|] eqn:H3.
    { split_and!; [done| |].
      - intros e [= <-]. right. right. eauto.
      - intros Hok. by rewrite Hok in H3. }
    split_and!.
    + intros o [= <-]. by split_and!.
    + done.
    + intros _. split; [by intros [e He]|].
      intros [(_ & [?|[?|?]])|(? & _)]; done.
  - destruct (decide (authMethod config = "managed_identity")) as [Hmi|Hmi];
      [|destruct (decide (authMethod config = "azure_cli")) as [Hcli|Hcli]].
    1, 2: rewrite finish_fallback;
      destruct (refuses (Single (DefaultAzureCredential _))) as [e2|] eqn:H2;
      [split_and!; [done| |];
         [intros e [= <-]; right; right; eauto
         |intros Hok; by rewrite Hok in H2]
      |split_and!;
         [intros o [= <-]; by split_and!
         |done
         |intros _; split; [by intros [e He]|]]].
    + intros [(? & _)|(_ & ? & _)]; done.
    + intros [(? & _)|(_ & _ & ?)]; done.
    + split_and!; [done| |].
      * intros e [= <-]. right. left. by split_and!.
      * intros _. split; [intros _; by right|eauto].
Qed.
End CredentialChoice.

(** ** Artifact requests: how failures are retried *)

Section ArtifactRequests.
Import ErrorHandler ErrorHandlerUtils AzureAuthService ArtifactService.
Context {C H : Type} `{!TokenCredential C} `{!HttpClient H}.
Variable clockAt : nat → Z.
Implicit Types (w : World C H).

Abbreviation operation := (ArtifactService.operation clockAt).
Abbreviation makeRequest := (ArtifactService.makeRequest clockAt).

(** A response with a status in [400,500) ends the call after the one
    request: it is turned into a [SynapseApiError] with that status and
    the server's request id, and nothing is retried. *)
Theorem makeRequest_client_error method url data w authHeader a message r h :
  getAuthorizationHeader (clockAt (attempts w)) (auth w)
  = (Returned authHeader, a) →
  request (http w) (mkHttpRequest method url data authHeader)
  = (Refused message r, h) →
  400 <= status r < 500 →
  ∃ text,
    makeRequest method url data w
    = mkOutcome
        (Threw (Some (SynapseApiError text (status r)
                        (header "x-ms-request-id" (headers r)))))
        (mkWorld a h (sent w ++ [mkHttpRequest method url data authHeader])
                 (S (attempts w)))
        [Invoke].
Proof.
  intros Hauth Hreq Hstatus. eexists.
  unfold ArtifactService.makeRequest, retryOperation. simpl.
  unfold ArtifactService.operation at 1. rewrite Hauth, Hreq.
  unfold isClientError. rewrite !bool_decide_eq_true_2 by lia. reflexivity.
Qed.

Lemma operation_denied method url data w :
  cachedToken (auth w) = None →
  (∀ c, causeOf (getToken c scope).1 ≠ None) →
  ∃ m c,
    operation method url data w
    = (Threw (Some (AuthenticationError m)),
       mkWorld (AzureAuthService.mk c None (S (acquisitions (auth w))))
               (http w) (sent w) (S (attempts w))).
Proof.
  intros Hc Hfail. unfold ArtifactService.operation, getAuthorizationHeader,
    getAccessToken. rewrite Hc.
  destruct (causeOf (getToken (credential (auth w)) scope).1) as [cause|] eqn:Hcause;
    [|by destruct (Hfail (credential (auth w)))].
  rewrite (acquire_failure _ _ Hcause). eauto.
Qed.

Lemma worldAfter_denied method url data (n : nat) :
  (∀ c, causeOf (getToken c scope).1 ≠ None) →
  ∀ w, cachedToken (auth w) = None →
    cachedToken (auth (worldAfter (operation method url data) n w)) = None
    ∧ sent (worldAfter (operation method url data) n w) = sent w
    ∧ acquisitions (auth (worldAfter (operation method url data) n w))
      = (n + acquisitions (auth w))%nat
    ∧ ∃ m, outcomeAt (operation method url data) n w
           = Threw (Some (AuthenticationError m)).
Proof.
  intros Hfail. induction n as [|n IH]; intros w Hc.
  - simpl. split_and!; try done.
    destruct (operation_denied method url data w Hc Hfail) as (m & c & Hop).
    exists m. unfold outcomeAt. simpl. by rewrite Hop.
  - destruct (operation_denied method url data w Hc Hfail) as (m & c & Hop).
    rewrite outcomeAt_S. simpl. rewrite Hop. simpl.
    destruct (IH (mkWorld (AzureAuthService.mk c None (S (acquisitions (auth w))))
                    (http w) (sent w) (S (attempts w))) eq_refl)
      as (H1 & H2 & H3 & H4).
    split_and!; try done. simpl in H3. lia.
Qed.

(** A failure to get a token is retried like any transient failure:
    with a credential that never yields a token the call makes four
    attempts to acquire one, sleeps seven seconds between them in all,
    sends no request, and throws the [AuthenticationError]. *)
Theorem makeRequest_auth_failure_retried method url data w :
  cachedToken (auth w) = None →
  (∀ c, causeOf (getToken c scope).1 ≠ None) →
  invocations (makeRequest method url data w) = 4%nat
  ∧ sent (world (makeRequest method url data w)) = sent w
  ∧ acquisitions (auth (world (makeRequest method url data w)))
    = (4 + acquisitions (auth w))%nat
  ∧ (∃ m, completion (makeRequest method url data w)
          = Threw (Some (AuthenticationError m)))
  ∧ totalDelay (makeRequest method url data w) = 7000.
Proof.
  intros Hc Hfail.
  destruct (worldAfter_denied method url data 3 Hfail w Hc)
    as (_ & _ & _ & m & Hlast).
  assert (makeRequest method url data w
          = mkOutcome (Threw (Some (AuthenticationError m)))
              (worldAfter (operation method url data) 4 w)
              (backoff 3 1000 0 3 ++ [Invoke])) as ->.
  { unfold ArtifactService.makeRequest, retryOperation. simpl default.
    apply (retryLoop_exhausted (operation method url data) 3 1000
             (Some (AuthenticationError m)) 3); [simpl; lia|lia| |done].
    intros i Hi.
    destruct (worldAfter_denied method url data i Hfail w Hc)
      as (_ & _ & _ & m' & Hi').
    by exists (Some (AuthenticationError m')). }
  destruct (worldAfter_denied method url data 4 Hfail w Hc)
    as (_ & Hsent & Hacq & _).
  split_and!; try done. by exists m.
Qed.
End ArtifactRequests.

Lemma makeRequest_client_error_witness :
  ErrorHandler.effects
    (ArtifactService.makeRequest ArtifactExamples.clock "GET" "/notebooks/nb1"
       ErrorHandlerUtils.JUndefined ArtifactExamples.world404)
  = [ErrorHandler.Invoke]
  ∧ ErrorHandler.completion
      (ArtifactService.makeRequest ArtifactExamples.clock "GET" "/notebooks/nb1"
         ErrorHandlerUtils.JUndefined ArtifactExamples.world404)
    = Threw (Some (ErrorHandler.SynapseApiError "Notebook nb1 not found" 404
                     (Some "req-42"))).
Proof.
  destruct (makeRequest_client_error ArtifactExamples.clock "GET" "/notebooks/nb1"
              ErrorHandlerUtils.JUndefined ArtifactExamples.world404
              "Bearer eyJ.A"
              (AzureAuthService.mk [] (Some AuthExamples.tokenA) 1)
              "Request failed with status code 404"
              (ArtifactService.mkHttpResponse 404 "Not Found"
                 (ErrorHandlerUtils.JObject
                    [("error",
                      ErrorHandlerUtils.JObject
                        [("code", ErrorHandlerUtils.JString "NotebookNotFound");
                         ("message",
                          ErrorHandlerUtils.JString "Notebook nb1 not found")])])
                 [("content-type", "application/json");
                  ("x-ms-request-id", "req-42")])
              []) as [text Htext]; [reflexivity|reflexivity|simpl; lia|].
  split; [by rewrite Htext|reflexivity].
Defined.

Lemma makeRequest_auth_failure_retried_witness :
  ErrorHandler.invocations
    (ArtifactService.makeRequest ArtifactExamples.clock "GET" "/notebooks/nb1"
       ErrorHandlerUtils.JUndefined ArtifactExamples.worldDenied) = 4%nat
  ∧ ArtifactService.sent
      (ErrorHandler.world
         (ArtifactService.makeRequest ArtifactExamples.clock "GET" "/notebooks/nb1"
            ErrorHandlerUtils.JUndefined ArtifactExamples.worldDenied)) = [].
Proof.
  destruct (makeRequest_auth_failure_retried ArtifactExamples.clock "GET"
              "/notebooks/nb1" ErrorHandlerUtils.JUndefined
              ArtifactExamples.worldDenied) as (H1 & H2 & _);
    [reflexivity|by intros []|].
  split; [exact H1|exact H2].
Defined.

(** ** Stored procedures: quoting of string parameters *)

Section ProcedureStatement.
Import StoredProcedureOperations.

(** A string parameter cannot end its own literal: read back the way
    T-SQL reads a quoted literal, the escaped text is the value. *)
Theorem escapeQuotes_readLiteral (value : string) :
  readLiteral (escapeQuotes value) = Some value.
Proof.
  induction value as [|a value IH]; [done|]. simpl.
  destruct (decide (a = "'"%char)) as [->|Hne]; simpl.
  - by rewrite IH.
  - rewrite decide_False by done. by rewrite IH.
Qed.
End ProcedureStatement.

(** ** Connection pool: keys, the life of a creation, shutdown *)

Section PoolLifecycle.
Import ErrorHandler ConnectionPool.
Context {B : Type} `{!Driver B}.
Variable JSON_stringify : Parameters → string.
Implicit Types (s : ConnectionPool.t B) (p q : nat) (key : string).

Abbreviation reachable := (ConnectionPool.reachable JSON_stringify).

Lemma append_assoc_string (a b c : string) : (a +:+ b) +:+ c = a +:+ (b +:+ c).
Proof.
  induction a as [|x a IH]; [done|].
  change (String x ((a +:+ b) +:+ c) = String x (a +:+ b +:+ c)). by f_equal.
Qed.

(** The pool key is not injective: a hyphen can sit in the workspace
    name or in the database name, and the two readings share one key -
    hence one session and one creation. *)
Theorem getConnectionKey_collision (w x d k : string) :
  getConnectionKey (w +:+ "-" +:+ x) d k = getConnectionKey w (x +:+ "-" +:+ d) k
  ∧ ∀ cs s, getConnection cs (w +:+ "-" +:+ x) d k s
            = getConnection cs w (x +:+ "-" +:+ d) k s.
Proof.
  assert (getConnectionKey (w +:+ "-" +:+ x) d k
          = getConnectionKey w (x +:+ "-" +:+ d) k) as Hkey.
  { unfold getConnectionKey. by rewrite !append_assoc_string. }
  split; [done|]. intros cs s. unfold getConnection. by rewrite Hkey.
Qed.

(** What the state looks like once a creation started by a call has
    connected (or failed) and the call has resumed. *)
Lemma creation_steps cs w d k s err :
  let key := getConnectionKey w d k in
  let p := nextId s in
  let s3 := resume p (onConnect p err (getConnection cs w d k s).2) in
  ¬ ready s key → connectionPromises s !! key = None →
  (getConnection cs w d k s).1 = Awaiting p
  ∧ connectionPromises s3 !! key = None
  ∧ nextId s3 = S p
  ∧ createLog s3 = createLog s ++ [(p, key)]
  ∧ promiseState s3 !! p
    = Some (match err with Some e => Rejected e | None => Fulfilled p end)
  ∧ connState s3
    = <[p := match err with Some _ => FINAL | None => LOGGED_IN end]>
        (<[p := CONNECTING]> (connState s))
  ∧ connections s3
    = match err with
      | Some _ => connections s
      | None => <[key := p]> (connections s)
      end.
Proof.
  intros key p s3 Hnr Hnone. unfold s3.
  destruct (getConnection_cases cs w d k s)
    as [(c & Hc & Hst & _)|[(_ & p' & Hp' & _)|(_ & _ & ->)]].
  - exfalso. apply Hnr. by exists c.
  - fold key in Hp'. congruence.
  - fold key p. simpl. unfold onConnect. simpl.
    rewrite lookup_insert_eq. destruct err as [e|]; simpl.
    + unfold resume. simpl. rewrite decide_True by set_solver.
      rewrite !lookup_insert_eq. simpl.
      split_and!; try done; [apply lookup_delete_eq|apply lookup_insert_eq].
    + unfold resume. simpl. rewrite decide_True by set_solver.
      rewrite !lookup_insert_eq. simpl.
      split_and!; try done; [apply lookup_delete_eq|apply lookup_insert_eq].
Qed.

(** A creation that connects: the waiting caller is answered with the
    new connection, the connection is pooled, and the next call for the
    key gets it at once, without another creation. *)
Theorem creation_success_pools cs cs' w d k s :
  let key := getConnectionKey w d k in
  let p := nextId s in
  let s3 := resume p (onConnect p None (getConnection cs w d k s).2) in
  ¬ ready s key → connectionPromises s !! key = None →
  (getConnection cs w d k s).1 = Awaiting p
  ∧ observed s3 (Awaiting p) = Some (Returned p)
  ∧ connections s3 !! key = Some p
  ∧ connectionPromises s3 !! key = None
  ∧ getConnection cs' w d k s3 = (Resolved p, countCall s3)
  ∧ createLog (getConnection cs' w d k s3).2 = createLog s ++ [(p, key)].
Proof.
  intros key p s3 Hnr Hnone.
  destruct (creation_steps cs w d k s None Hnr Hnone)
    as (H1 & H2 & H3 & H4 & H5 & H6 & H7).
  fold key p s3 in H1, H2, H3, H4, H5, H6, H7.
  assert (connections s3 !! key = Some p) as Hconn
    by (rewrite H7; apply lookup_insert_eq).
  assert (connState s3 !! p = Some LOGGED_IN) as Hstate
    by (rewrite H6; apply lookup_insert_eq).
  assert (getConnection cs' w d k s3 = (Resolved p, countCall s3)) as Hnext.
  { destruct (getConnection_cases cs' w d k s3)
      as [(c & Hc & Hst & ->)|[(Hnr' & _)|(Hnr' & _)]].
    - fold key in Hc. congruence.
    - exfalso. apply Hnr'. by exists p.
    - exfalso. apply Hnr'. by exists p. }
  split_and!; try done.
  - simpl. by rewrite H5.
  - by rewrite Hnext.
Qed.

(** A creation that fails: the waiting caller is answered with the
    error, nothing is pooled and nothing stays in the promise map, so
    the failure is not remembered - the next call for the key starts a
    new creation. *)
Theorem creation_failure_forgotten cs cs' w d k s e :
  let key := getConnectionKey w d k in
  let p := nextId s in
  let s3 := resume p (onConnect p (Some e) (getConnection cs w d k s).2) in
  ¬ ready s key → connectionPromises s !! key = None →
  (getConnection cs w d k s).1 = Awaiting p
  ∧ observed s3 (Awaiting p) = Some (Threw e)
  ∧ connections s3 = connections s
  ∧ connectionPromises s3 !! key = None
  ∧ (getConnection cs' w d k s3).1 = Awaiting (S p)
  ∧ createLog (getConnection cs' w d k s3).2
    = createLog s ++ [(p, key); (S p, key)].
Proof.
  intros key p s3 Hnr Hnone.
  destruct (creation_steps cs w d k s (Some e) Hnr Hnone)
    as (H1 & H2 & H3 & H4 & H5 & H6 & H7).
  fold key p s3 in H1, H2, H3, H4, H5, H6, H7.
  assert (¬ ready s3 key) as Hnr3.
  { intros (c & Hc & Hst). rewrite H7 in Hc. rewrite H6 in Hst.
    destruct (decide (p = c)) as [<-|Hne].
    - by rewrite lookup_insert_eq in Hst.
    - rewrite !lookup_insert_ne in Hst by done. apply Hnr. by exists c. }
  assert (getConnection cs' w d k s3
          = (Awaiting (nextId s3), (startCreation cs' key (countCall s3)).2))
    as Hnext.
  { destruct (getConnection_cases cs' w d k s3)
      as [(c & Hc & Hst & _)|[(_ & p' & Hp' & _)|(_ & _ & ->)]]; [| |done].
    - exfalso. apply Hnr3. by exists c.
    - fold key in Hp'. congruence. }
  split_and!; try done.
  - simpl. by rewrite H5.
  - by rewrite Hnext, H3.
  - rewrite Hnext. simpl. rewrite H3, H4. by rewrite <-app_assoc.
Qed.

(** After [closeAll] the pool reports no connection and no cached
    query. A creation in flight is not cancelled, though: when it
    connects afterwards its session is pooled all the same. *)
Theorem closeAll_stats s :
  getConnectionStats (closeAllEnd (closeAllBegin s)) = (0%nat, 0%nat, [])
  ∧ connectionPromises (closeAllEnd (closeAllBegin s)) = connectionPromises s
  ∧ (reachable s →
     ∀ key p, connectionPromises s !! key = Some p →
              promiseState s !! p = Some Pending →
       connections
         (resume p (onConnect p None (closeAllEnd (closeAllBegin s)))) !! key
       = Some p).
Proof.
  split_and!; [done|done|].
  intros Hreach key p Hcp Hpending.
  assert (consistent s) as Hs by (by apply (reachable_consistent JSON_stringify)).
  destruct (promise_inFlight s Hs key p Hcp) as [Hk Haw].
  unfold onConnect. simpl. rewrite Hpending. simpl.
  unfold resume. simpl. rewrite decide_True by done.
  rewrite Hk, lookup_insert_eq. simpl. apply lookup_insert_eq.
Qed.

(** After [closeConnection] the next call for the key connects anew
    (when no creation is in flight for it), and the sessions pooled
    under other keys are still there. *)
Theorem closeConnection_then_reconnect cs w d k s :
  let key := getConnectionKey w d k in
  connectionPromises s !! key = None →
  connections (closeConnection w d k s) !! key = None
  ∧ (getConnection cs w d k (closeConnection w d k s)).1 = Awaiting (nextId s)
  ∧ (∀ key', key' ≠ key →
       connections (closeConnection w d k s) !! key' = connections s !! key').
Proof.
  intros key Hnone.
  assert (connections (closeConnection w d k s) !! key = None) as Hgone.
  { unfold closeConnection. fold key.
    destruct (connections s !! key) eqn:Hc; [|done]. simpl.
    apply lookup_delete_eq. }
  assert (connectionPromises (closeConnection w d k s) = connectionPromises s
          ∧ nextId (closeConnection w d k s) = nextId s) as [Hcp Hid].
  { unfold closeConnection. by destruct (connections s !! _). }
  split_and!; [done| |].
  - destruct (getConnection_cases cs w d k (closeConnection w d k s))
      as [(c & Hc & _)|[(_ & p' & Hp' & _)|(_ & _ & ->)]].
    + fold key in Hc. congruence.
    + fold key in Hp'. congruence.
    + simpl. by rewrite Hid.
  - intros key' Hne. unfold closeConnection. fold key.
    destruct (connections s !! key) eqn:Hc; [|done]. simpl.
    by rewrite lookup_delete_ne.
Qed.
End PoolLifecycle.

Lemma creation_success_pools_witness :
  ConnectionPool.getConnection PoolExamples.dedicatedCs "ws" "db1" "dedicated"
    (ConnectionPool.resume 0
       (ConnectionPool.onConnect 0 None
          (ConnectionPool.getConnection PoolExamples.dedicatedCs "ws" "db1"
             "dedicated" PoolExamples.fresh).2))
  = (ConnectionPool.Resolved 0,
     ConnectionPool.countCall
       (ConnectionPool.resume 0
          (ConnectionPool.onConnect 0 None
             (ConnectionPool.getConnection PoolExamples.dedicatedCs "ws" "db1"
                "dedicated" PoolExamples.fresh).2))).
Proof.
  destruct (creation_success_pools PoolExamples.dedicatedCs PoolExamples.dedicatedCs
              "ws" "db1" "dedicated" PoolExamples.fresh)
    as (_ & _ & _ & _ & H & _).
  - intros (c & Hc & _). vm_compute in Hc. discriminate.
  - reflexivity.
  - exact H.
Defined.

Lemma creation_failure_forgotten_witness :
  (ConnectionPool.getConnection PoolExamples.dedicatedCs "ws" "db1" "dedicated"
     (ConnectionPool.resume 0
        (ConnectionPool.onConnect 0 (Some (ErrorHandler.Error "Login failed"))
           (ConnectionPool.getConnection PoolExamples.dedicatedCs "ws" "db1"
              "dedicated" PoolExamples.fresh).2))).1
  = ConnectionPool.Awaiting 1.
Proof.
  destruct (creation_failure_forgotten PoolExamples.dedicatedCs
              PoolExamples.dedicatedCs "ws" "db1" "dedicated" PoolExamples.fresh
              (ErrorHandler.Error "Login failed"))
    as (_ & _ & _ & _ & H & _).
  - intros (c & Hc & _). vm_compute in Hc. discriminate.
  - reflexivity.
  - exact H.
Defined.

Lemma closeAll_stats_witness :
  ConnectionPool.connections
    (ConnectionPool.resume 1
       (ConnectionPool.onConnect 1 None
          (ConnectionPool.closeAllEnd
             (ConnectionPool.closeAllBegin
                (ConnectionPool.run PoolExamples.stringify PoolExamples.fresh
                   PoolExamples.busyTrace)))))
    !! "ws-db1-dedicated" = Some 1%nat.
Proof.
  destruct (closeAll_stats PoolExamples.stringify
              (ConnectionPool.run PoolExamples.stringify PoolExamples.fresh
                 PoolExamples.busyTrace)) as (_ & _ & H).
  apply H.
  - by exists 300, [PoolExamples.oneRow], PoolExamples.busyTrace.
  - by vm_compute.
  - by vm_compute.
Defined.

Lemma closeConnection_then_reconnect_witness :
  (ConnectionPool.getConnection PoolExamples.dedicatedCs "ws" "db1" "dedicated"
     (ConnectionPool.closeConnection "ws" "db1" "dedicated"
        (ConnectionPool.resume 0
           (ConnectionPool.onConnect 0 None
              (ConnectionPool.getConnection PoolExamples.dedicatedCs "ws" "db1"
                 "dedicated" PoolExamples.fresh).2)))).1
  = ConnectionPool.Awaiting 1.
Proof.
  destruct (closeConnection_then_reconnect PoolExamples.dedicatedCs
              "ws" "db1" "dedicated"
              (ConnectionPool.resume 0
                 (ConnectionPool.onConnect 0 None
                    (ConnectionPool.getConnection PoolExamples.dedicatedCs "ws"
                       "db1" "dedicated" PoolExamples.fresh).2)))
    as (_ & H & _).
  - by vm_compute.
  - exact H.
Defined.

(** ** Result cache: when a statement is sent again, what a row holds *)

Section CacheMisses.
Import ErrorHandler ConnectionPool.
Context {B : Type} `{!Driver B}.
Variable JSON_stringify : Parameters → string.
Implicit Types (s : ConnectionPool.t B).

Abbreviation executeQuery := (ConnectionPool.executeQuery JSON_stringify).
Abbreviation cacheKeyOf := (ConnectionPool.cacheKeyOf JSON_stringify).

Lemma executeQuery_miss s connection query parameters now doneAt :
  (NodeCache.get (cacheKeyOf query parameters) now (cache s)).1 = None →
  submitted (executeQuery connection query parameters now doneAt s).2
  = submitted s ++ [(connection, query)]
  ∧ (executeQuery connection query parameters now doneAt s).1
    = match execErr (execSql (backend s) connection
                       (makeRequest query parameters)).1 with
      | Some err => Threw err
      | None =>
          Returned (buildRow <$> rowEvents
                      (execSql (backend s) connection
                         (makeRequest query parameters)).1)
      end.
Proof.
  intros Hmiss. unfold ConnectionPool.executeQuery.
  destruct (NodeCache.get _ now (cache s)) as [[hit|] c]; [done|].
  by destruct (execSql (backend s) connection (makeRequest query parameters))
    as [res b].
Qed.

(** The cache answers for a limited time only: once the time to live
    of an entry has passed, the same statement is sent to the server
    again; and after [clearCache] every statement is sent again,
    whatever its age. *)
Theorem executeQuery_resubmits s connection connection' query parameters
    now doneAt now' doneAt' :
  let first := executeQuery connection query parameters now doneAt s in
  let ttl := NodeCache.stdTTL (cache s) in
  ((NodeCache.get (cacheKeyOf query parameters) now (cache s)).1 = None →
   (∃ rows, first.1 = Returned rows) →
   ttl ≠ 0 → doneAt + ttl * 1000 ≠ 0 → doneAt + ttl * 1000 < now' →
   submitted (executeQuery connection' query parameters now' doneAt' first.2).2
   = submitted s ++ [(connection, query); (connection', query)])
  ∧ submitted (executeQuery connection' query parameters now' doneAt'
                 (clearCache first.2)).2
    = submitted first.2 ++ [(connection', query)].
Proof.
  intros first ttl. split.
  - intros Hmiss [rows Hrows] Httl Hnz Hlate.
    destruct (executeQuery_miss s connection query parameters now doneAt Hmiss)
      as [Hsub _]. fold first in Hsub.
    destruct (executeQuery_miss first.2 connection' query parameters now' doneAt')
      as [Hsub' _]; [|by rewrite Hsub', Hsub, <-app_assoc].
    unfold first, ConnectionPool.executeQuery in Hrows |- *.
    destruct (NodeCache.get (cacheKeyOf query parameters) now (cache s))
      as [[hit|] c] eqn:Hget; [done|].
    apply get_miss in Hget as (Hstd & _ & _).
    destruct (execSql (backend s) connection (makeRequest query parameters))
      as [res b].
    destruct (execErr res) as [err|]; [done|]. simpl.
    unfold NodeCache.get, NodeCache.set. simpl. rewrite lookup_insert_eq.
    unfold NodeCache.expired. simpl. unfold Rows in *. rewrite !Hstd. fold ttl.
    rewrite decide_False by done.
    rewrite bool_decide_eq_true_2 by done.
    by rewrite bool_decide_eq_true_2 by lia.
  - destruct (executeQuery_miss (clearCache first.2) connection' query
                parameters now' doneAt') as [Hsub _]; [|done].
    unfold NodeCache.get. simpl. by rewrite lookup_empty.
Qed.










End CacheMisses.

Lemma executeQuery_resubmits_witness :
  ConnectionPool.submitted
    (ConnectionPool.executeQuery PoolExamples.stringify 0 "SELECT 1" None
       400000 400100
       (ConnectionPool.executeQuery PoolExamples.stringify 0 "SELECT 1" None
          1000 1200 PoolExamples.fresh).2).2
  = [(0%nat, "SELECT 1"); (0%nat, "SELECT 1")].
Proof.
  destruct (executeQuery_resubmits PoolExamples.stringify PoolExamples.fresh
              0%nat 0%nat "SELECT 1" None 1000 1200 400000 400100) as [H _].
  apply H.
  - reflexivity.
  - by eexists.
  - simpl. lia.
  - simpl. lia.
  - simpl. lia.
Defined.


(** ** SQL entry point: empty connection strings, failed connections,
    answers from the cache *)

Section SqlEntryPointMore.
Import ErrorHandler ConnectionPool SynapseOperations.
Context {B : Type} `{!Driver B}.
Variable JSON_stringify : Parameters → string.
Implicit Types (pool : ConnectionPool.t B) (tm : TenantManager.t).

Abbreviation executeSqlQuery := (SynapseOperations.executeSqlQuery JSON_stringify).
Abbreviation executeQuery := (ConnectionPool.executeQuery JSON_stringify).
Abbreviation cacheKeyOf := (ConnectionPool.cacheKeyOf JSON_stringify).

(** A pool that is registered with an empty connection string counts
    as not configured: the call answers with the "No ... pool
    configured" failure and does not enter [getConnection]. *)
Theorem executeSqlQuery_empty_connection_string tm (params : Params)
    (during : list Event) (clock : Clock) pool :
  let kind := default TenantManager.serverless (poolType params) in
  TenantManager.getConnectionString tm (tenant params) (Some kind) = Some "" →
  executeSqlQuery tm params during clock pool
  = (Some (failurePayload params
             (Error ("No " +:+ TenantManager.PoolType_str kind +:+
                     " pool configured for tenant: " +:+
                     js_or (tenant params) "default"))),
     pool).
Proof.
  intros kind Hcs. unfold SynapseOperations.executeSqlQuery. fold kind.
  by rewrite Hcs.
Qed.

(** When the connection cannot be established, the call answers with
    a failure payload carrying the message of the connect error; no
    statement is submitted, and neither a session nor a pending
    creation is left behind for the key. *)
Theorem executeSqlQuery_connect_failure tm (params : Params) (clock : Clock)
    pool cs e :
  let kind := default TenantManager.serverless (poolType params) in
  let key := getConnectionKey (workspace params) (database params)
               (TenantManager.PoolType_str kind) in
  let answer :=
    executeSqlQuery tm params [EmitConnect (nextId pool) (Some e)] clock pool in
  TenantManager.getConnectionString tm (tenant params) (Some kind) = Some cs →
  cs ≠ "" → ¬ ready pool key → connectionPromises pool !! key = None →
  answer.1 = Some (failurePayload params e)
  ∧ submitted answer.2 = submitted pool
  ∧ connections answer.2 = connections pool
  ∧ connectionPromises answer.2 !! key = None.
Proof.
  intros kind key answer Hcs Hne Hnr Hnone.
  destruct (getConnection_cases cs (workspace params) (database params)
              (TenantManager.PoolType_str kind) pool)
    as [(c & Hc & Hst & _)|[(_ & p' & Hp' & _)|(_ & _ & Heq)]].
  - exfalso. apply Hnr. by exists c.
  - fold key in Hp'. congruence.
  - fold key in Heq.
    unfold answer, SynapseOperations.executeSqlQuery. fold kind.
    rewrite Hcs. simpl. rewrite decide_False by done. rewrite Heq.
    simpl. unfold onConnect. simpl. rewrite lookup_insert_eq.
    unfold resume. simpl.
    rewrite decide_True by (apply elem_of_union_l; by apply elem_of_singleton).
    repeat (rewrite lookup_insert_eq; simpl).
    split_and!; try done. apply lookup_delete_eq.
Qed.

(** The result cache is keyed by the statement text and nothing else:
    once a statement has been answered for one database, the same
    statement asked of another workspace or database within the time to
    live is answered with the first one's rows, and the other database
    is not asked. *)
Theorem executeSqlQuery_cache_ignores_database tm (params : Params)
    (during : list Event) (clock : Clock) pool connection rows now doneAt
    cs connection' :
  let kind := default TenantManager.serverless (poolType params) in
  let key := getConnectionKey (workspace params) (database params)
               (TenantManager.PoolType_str kind) in
  let pool1 := (executeQuery connection (query params) None now doneAt pool).2 in
  (NodeCache.get (cacheKeyOf (query params) None) now (cache pool)).1 = None →
  (executeQuery connection (query params) None now doneAt pool).1
  = Returned rows →
  NodeCache.stdTTL (cache pool) = 0
  ∨ tQuery clock <= doneAt + NodeCache.stdTTL (cache pool) * 1000 →
  TenantManager.getConnectionString tm (tenant params) (Some kind) = Some cs →
  cs ≠ "" →
  connections pool !! key = Some connection' →
  connState pool !! connection' = Some LOGGED_IN →
  executeSqlQuery tm params during clock pool1
  = (Some (Success (length rows) rows
             (mkMetadata (workspace params) (database params) kind
                (Some (tReturn clock)) (js_or (tenant params) "default"))),
     countCall pool1).
Proof.
  intros kind key pool1 Hmiss Hrows Hlive Hcs Hne Hconn Hstate.
  unfold pool1, ConnectionPool.executeQuery in Hrows |- *.
  destruct (NodeCache.get (cacheKeyOf (query params) None) now (cache pool))
    as [[hit|] c] eqn:Hget; [done|].
  apply get_miss in Hget as (Hstd & _ & _).
  destruct (execSql (backend pool) connection (makeRequest (query params) None))
    as [res b].
  destruct (execErr res) as [err|]; [done|]. simpl in Hrows |- *.
  injection Hrows as <-.
  unfold SynapseOperations.executeSqlQuery. fold kind.
  rewrite Hcs. simpl. rewrite decide_False by done.
  unfold getConnection. fold key. simpl. rewrite Hconn.
  unfold loggedIn. simpl. rewrite bool_decide_eq_true_2 by done.
  unfold runQuery, ConnectionPool.executeQuery. simpl.
  fold (cacheKeyOf (query params) None).
  rewrite get_set_live; [done|].
  unfold Rows in *. by rewrite Hstd.
Qed.
End SqlEntryPointMore.

Lemma executeSqlQuery_empty_connection_string_witness :
  (SynapseOperations.executeSqlQuery PoolExamples.stringify
     ConfigExamples.envRegistry
     (SynapseOperations.mkParams "ws-acme" "db1" "SELECT 1"
        (Some TenantManager.dedicated) None)
     [] (SynapseOperations.mkClock 10 20 30) PoolExamples.fresh).2
  = PoolExamples.fresh.
Proof.
  rewrite (executeSqlQuery_empty_connection_string PoolExamples.stringify
             ConfigExamples.envRegistry
             (SynapseOperations.mkParams "ws-acme" "db1" "SELECT 1"
                (Some TenantManager.dedicated) None)
             [] (SynapseOperations.mkClock 10 20 30) PoolExamples.fresh).
  - reflexivity.
  - reflexivity.
Defined.

Lemma executeSqlQuery_connect_failure_witness :
  (SynapseOperations.executeSqlQuery PoolExamples.stringify TenantExamples.registry
     (SynapseOperations.mkParams "ws" "db1" "SELECT 1"
        (Some TenantManager.dedicated) (Some "acme"))
     [ConnectionPool.EmitConnect 0 (Some (ErrorHandler.Error "Login failed for user"))]
     (SynapseOperations.mkClock 10 20 30) PoolExamples.fresh).1
  = Some (SynapseOperations.failurePayload
            (SynapseOperations.mkParams "ws" "db1" "SELECT 1"
               (Some TenantManager.dedicated) (Some "acme"))
            (ErrorHandler.Error "Login failed for user")).
Proof.
  destruct (executeSqlQuery_connect_failure PoolExamples.stringify
              TenantExamples.registry
              (SynapseOperations.mkParams "ws" "db1" "SELECT 1"
                 (Some TenantManager.dedicated) (Some "acme"))
              (SynapseOperations.mkClock 10 20 30) PoolExamples.fresh
              "Server=tcp:a,1433;Database=d1"
              (ErrorHandler.Error "Login failed for user")) as (H & _).
  - reflexivity.
  - done.
  - intros (c & Hc & _). vm_compute in Hc. discriminate.
  - reflexivity.
  - exact H.
Defined.

Lemma executeSqlQuery_cache_ignores_database_witness :
  (SynapseOperations.executeSqlQuery PoolExamples.stringify TenantExamples.registry
     (SynapseOperations.mkParams "ws" "db1" "SELECT 1"
        (Some TenantManager.dedicated) (Some "acme"))
     [] (SynapseOperations.mkClock 5000 5100 5200)
     (ConnectionPool.executeQuery PoolExamples.stringify 7 "SELECT 1" None
        1000 1200 PoolExamples.pooled).2).1
  = Some (SynapseOperations.Success 1 [[("n", ConnectionPool.VNumber 1)]]
            (SynapseOperations.mkMetadata "ws" "db1" TenantManager.dedicated
               (Some 5200) "acme")).
Proof.
  rewrite (executeSqlQuery_cache_ignores_database PoolExamples.stringify
             TenantExamples.registry
             (SynapseOperations.mkParams "ws" "db1" "SELECT 1"
                (Some TenantManager.dedicated) (Some "acme"))
             [] (SynapseOperations.mkClock 5000 5100 5200) PoolExamples.pooled
             7%nat [[("n", ConnectionPool.VNumber 1)]] 1000 1200
             "Server=tcp:a,1433;Database=d1" 0%nat).
  - reflexivity.
  - reflexivity.
  - reflexivity.
  - right. vm_compute. discriminate.
  - reflexivity.
  - done.
  - by vm_compute.
  - by vm_compute.
Defined.

Lemma createCredential_chain_witness :
  AzureAuthSetup.createCredential
    (AzureAuthSetup.mkConfig "client_credentials" "contoso corp" "cid" "s3cret")
  = Threw (ErrorHandler.Error "Invalid tenant id provided.")
  ∧ ((∃ m, ErrorHandler.Error "Invalid tenant id provided."
           = ErrorHandler.AuthenticationError m)
     ∨ ∃ o, AzureAuthSetup.refuses o
            = Some (ErrorHandler.Error "Invalid tenant id provided.")).
Proof.
  split; [reflexivity|].
  destruct (createCredential_chain
              (AzureAuthSetup.mkConfig "client_credentials" "contoso corp" "cid"
                 "s3cret")) as (_ & H & _).
  destruct (H (ErrorHandler.Error "Invalid tenant id provided.") eq_refl)
    as [(_ & _ & Hm)|[(Hne & _)|Ho]].
  - by left.
  - by destruct Hne.
  - by right.
Defined.

(** ** Connection strings *)

Section ConnectionStrings.
Import ConnectionString.
Implicit Types (c a : ascii) (s x y : string).

Lemma app_assoc_string (x y z : string) : (x +:+ y) +:+ z = x +:+ (y +:+ z).
Proof.
  induction x as [|a x IH]; [done|].
  change (String a ((x +:+ y) +:+ z) = String a (x +:+ y +:+ z)). by f_equal.
Qed.

Lemma app_cons_string a x y : String a x +:+ y = String a (x +:+ y).
Proof. reflexivity. Qed.

Lemma without_app c x y : without c x → without c y → without c (x +:+ y).
Proof.
  induction x as [|a x IH]; [done|]. intros [Ha Hx] Hy.
  rewrite app_cons_string. split; [done|]. by apply IH.
Qed.

Lemma split_without c s : without c s → split c s = [s].
Proof.
  induction s as [|a s IH]; [done|]. intros [Ha Hs]. simpl.
  rewrite decide_False by done. by rewrite IH.
Qed.

Lemma split_nonempty c s : split c s ≠ [].
Proof.
  destruct s as [|a s]; [done|]. simpl.
  destruct (decide (a = c)); [done|]. by destruct (split c s).
Qed.

Lemma split_app c x y : split c (x +:+ String c y) = split c x ++ split c y.
Proof.
  induction x as [|a x IH].
  - simpl. by rewrite decide_True.
  - rewrite app_cons_string. simpl. destruct (decide (a = c)) as [->|Hne].
    + by rewrite IH.
    + rewrite IH. pose proof (split_nonempty c x).
      by destruct (split c x).
Qed.

Lemma split_cons_without c x y :
  without c x → split c (x +:+ String c y) = x :: split c y.
Proof. intros Hx. by rewrite split_app, split_without. Qed.

(** Only the text between the first and the second [=] of a part is
    its value: whatever follows a second [=] - the rest of a password,
    say - is dropped without notice. *)
Theorem parseConnectionString_value_cut (before after key value rest : string) :
  without ";" key → without ";" value → without ";" rest →
  without "=" key → without "=" value →
  parseConnectionString
    (before +:+ ";" +:+ key +:+ "=" +:+ value +:+ "=" +:+ rest +:+ ";" +:+ after)
  = parseConnectionString
      (before +:+ ";" +:+ key +:+ "=" +:+ value +:+ ";" +:+ after).
Proof.
  intros Hk Hv Hr Hk' Hv'.
  assert (readParams
            (before +:+ ";" +:+ key +:+ "=" +:+ value +:+ "=" +:+ rest +:+ ";" +:+ after)
          = readParams (before +:+ ";" +:+ key +:+ "=" +:+ value +:+ ";" +:+ after))
    as Hparams; [|unfold parseConnectionString; by rewrite Hparams].
  unfold readParams.
  change (before +:+ ";" +:+ key +:+ "=" +:+ value +:+ "=" +:+ rest +:+ ";" +:+ after)
    with (before +:+ String ";" (key +:+ "=" +:+ value +:+ "=" +:+ rest
                                   +:+ String ";" after)).
  change (before +:+ ";" +:+ key +:+ "=" +:+ value +:+ ";" +:+ after)
    with (before +:+ String ";" (key +:+ "=" +:+ value +:+ String ";" after)).
  rewrite !split_app.
  assert (key +:+ "=" +:+ value +:+ "=" +:+ rest +:+ String ";" after
          = (key +:+ "=" +:+ value +:+ "=" +:+ rest) +:+ String ";" after) as ->
    by (by rewrite !app_assoc_string).
  assert (key +:+ "=" +:+ value +:+ String ";" after
          = (key +:+ "=" +:+ value) +:+ String ";" after) as ->
    by (by rewrite !app_assoc_string).
  rewrite !split_cons_without
    by (repeat (apply without_app; try done); by split).
  rewrite !fold_left_app. simpl. f_equal.
  unfold addPart.
  change (key +:+ "=" +:+ value +:+ "=" +:+ rest)
    with (key +:+ String "=" (value +:+ String "=" rest)).
  change (key +:+ "=" +:+ value) with (key +:+ String "=" value).
  rewrite !split_cons_without by done.
  rewrite (split_without "=" value) by done.
  by destruct (split "=" rest).
Qed.

(** Without a comma in the [Server] value - or without a [Server]
    value - the port is 1433. *)
Theorem parseConnectionString_default_port (connectionString : string) :
  (∀ x, readParams connectionString !! "server" = Some x → without "," x) →
  port (parseConnectionString connectionString) = Exact 1433.
Proof.
  intros Hserver. unfold parseConnectionString. simpl.
  destruct (readParams connectionString !! "server") as [x|] eqn:Hx; [|done].
  by rewrite (split_without "," x) by (by apply Hserver).
Qed.

Lemma digit_char a :
  is_Some (digitValue 10 a) →
  isWhiteSpace a = false
  ∧ a ≠ "-"%char ∧ a ≠ "+"%char ∧ a ≠ "x"%char ∧ a ≠ "X"%char
  ∧ a ≠ ";"%char ∧ a ≠ "="%char ∧ a ≠ ","%char.
Proof.
  intros [v Hv].
  destruct a as [[] [] [] [] [] [] [] []]; vm_compute in Hv; try discriminate;
    by split_and!.
Qed.

Lemma allDigits_without c s :
  digitValue 10 c = None → allDigits s → without c s.
Proof.
  intros Hc. induction s as [|a s IH]; [done|]. intros [[v Hv] Hs].
  split; [congruence|by apply IH].
Qed.

Lemma readDigits_continues (acc : Z) s :
  is_Some (readDigits 10 (Some acc) s).
Proof.
  revert acc. induction s as [|a s IH]; intros acc; simpl; [eauto|].
  destruct (digitValue 10 a); [apply IH|eauto].
Qed.

Lemma parseInt_decimal s :
  decimal s → valueOfDecimal s <= 2 ^ 53 → parseInt s = Exact (valueOfDecimal s).
Proof.
  intros [Hne Hall] Hsafe. destruct s as [|a s]; [done|]. destruct Hall as [Ha Hs].
  assert (parseInt (String a s)
          = match readDigits 10 None (String a s) with
            | Some mathInt => numberFor 1 mathInt
            | None => NaN
            end) as ->.
  { destruct (digit_char a Ha) as (Hws & Hm & Hp & _).
    unfold parseInt. simpl trimStart. rewrite Hws.
    destruct s as [|b s].
    - destruct Ha as [v Hv].
      destruct a as [[] [] [] [] [] [] [] []]; vm_compute in Hv;
        try discriminate; reflexivity.
    - destruct Hs as [Hb _]. destruct (digit_char b Hb) as (_ & _ & _ & Hx & HX & _).
      destruct Ha as [v Hv].
      destruct a as [[] [] [] [] [] [] [] []]; vm_compute in Hv;
        try discriminate; try reflexivity.
      destruct b as [[] [] [] [] [] [] [] []]; try done; reflexivity. }
  unfold valueOfDecimal in *.
  assert (∀ acc t, 0 <= acc → allDigits t →
            ∃ r, readDigits 10 (Some acc) t = Some r ∧ 0 <= r) as Hnonneg.
  { intros acc t. revert acc. induction t as [|c t IH]; intros acc Hacc Ht.
    - exists acc. by split.
    - destruct Ht as [[d Hd] Ht]. simpl. rewrite Hd. apply IH; [|done].
      assert (0 <= d); [|simpl; lia].
      unfold digitValue in Hd.
      repeat (case_match; simplify_eq); lia. }
  simpl in *. destruct Ha as [v Hv]. rewrite Hv in *.
  destruct (Hnonneg (0 * 10 + v) s) as (r & Hr & Hr0); [|done|].
  { assert (0 <= v); [|lia]. unfold digitValue in Hv.
    repeat (case_match; simplify_eq); lia. }
  rewrite Hr in *. simpl in Hsafe. unfold numberFor.
  destruct (r =? 0) eqn:H0.
  - apply Z.eqb_eq in H0 as ->. reflexivity.
  - rewrite (proj2 (Z.leb_le r (2 ^ 53))) by done. simpl default.
    f_equal. lia.
Qed.

Lemma trimEnd_app x y : trimEnd y = y → y ≠ "" → trimEnd (x +:+ y) = x +:+ y.
Proof.
  intros Hy Hne. induction x as [|a x IH]; [done|].
  rewrite app_cons_string. simpl. rewrite IH.
  destruct (x +:+ y) eqn:Hxy; [|done].
  destruct x; [by destruct Hne|discriminate Hxy].
Qed.

Lemma trimEnd_digits s : allDigits s → trimEnd s = s.
Proof.
  induction s as [|a s IH]; [done|]. intros [Ha Hs]. simpl.
  rewrite IH by done. destruct s; [|done].
  by destruct (digit_char a Ha) as [-> _].
Qed.

Lemma removeFirst_prefix needle x : removeFirst needle (needle +:+ x) = x.
Proof.
  assert (String.prefix needle (needle +:+ x) = true) as Hp.
  { induction needle as [|a n IH]; [by destruct x|].
    rewrite app_cons_string. simpl. rewrite IH. by destruct (ascii_dec a a). }
  assert (dropChars (String.length needle) (needle +:+ x) = x) as Hd.
  { clear Hp. induction needle as [|a n IH]; [done|].
    rewrite app_cons_string. exact IH. }
  assert (∀ s, removeFirst needle s
               = if String.prefix needle s
                 then dropChars (String.length needle) s
                 else match s with
                      | EmptyString => EmptyString
                      | String a s => String a (removeFirst needle s)
                      end) as -> by (by intros []).
  by rewrite Hp.
Qed.

(** The documented form [Server=tcp:host,port;Database=db] is read as
    that host, that port and that database, with default
    authentication, no user and no password, encryption on and both
    timeouts at 30 seconds - for a port of at most [2^53], which
    [parseInt] reads exactly. *)
Theorem parseConnectionString_standard (host portText db : string) :
  without ";" host → without "=" host → without "," host →
  decimal portText → valueOfDecimal portText <= 2 ^ 53 →
  without ";" db → without "=" db → db ≠ "" → trim db = db →
  parseConnectionString
    ("Server=tcp:" +:+ host +:+ "," +:+ portText +:+ ";Database=" +:+ db)
  = mkConnectionConfig host default_authentication None None db
      true false 30000 30000 (Exact (valueOfDecimal portText)).
Proof.
  intros Hh1 Hh2 Hh3 [Hpne Hpall] Hsafe Hd1 Hd2 Hdne Hdtrim.
  pose proof (allDigits_without ";" portText eq_refl Hpall) as Hp1.
  pose proof (allDigits_without "=" portText eq_refl Hpall) as Hp2.
  pose proof (allDigits_without "," portText eq_refl Hpall) as Hp3.
  set (V := "tcp:" +:+ host +:+ String "," portText).
  assert (readParams
            ("Server=tcp:" +:+ host +:+ "," +:+ portText +:+ ";Database=" +:+ db)
          = <["database" := db]> (<["server" := V]> ∅)) as Hparams.
  { assert ("Server=tcp:" +:+ host +:+ "," +:+ portText +:+ ";Database=" +:+ db
            = ("Server" +:+ String "=" V) +:+ String ";" ("Database" +:+ String "=" db))
      as ->.
    { unfold V. repeat (rewrite app_assoc_string || rewrite app_cons_string).
      reflexivity. }
    unfold readParams.
    rewrite split_cons_without; last first.
    { apply without_app; [by repeat split|]. split; [done|].
      unfold V. repeat (apply without_app || split); done. }
    rewrite split_without; last first.
    { apply without_app; [by repeat split|]. by split. }
    simpl fold_left. unfold addPart.
    rewrite (split_cons_without "=" "Server" V) by (by repeat split).
    rewrite (split_without "=" V); last first.
    { unfold V. repeat (apply without_app || split); done. }
    assert (trim V = V) as HV.
    { unfold trim. assert (trimStart V = V) as -> by reflexivity.
      unfold V.
      assert ("tcp:" +:+ host +:+ String "," portText
              = ("tcp:" +:+ host +:+ ",") +:+ portText) as ->
        by (repeat (rewrite app_assoc_string || rewrite app_cons_string);
            reflexivity).
      apply trimEnd_app; [by apply trimEnd_digits|done]. }
    assert (V ≠ "") as HVne by done.
    rewrite (bool_decide_eq_false_2 ("Server" = "")) by done.
    rewrite (bool_decide_eq_false_2 (V = "")) by done.
    simpl negb. simpl andb. cbv iota. rewrite HV.
    rewrite (split_cons_without "=" "Database" db) by (by repeat split).
    rewrite (split_without "=" db) by done.
    rewrite (bool_decide_eq_false_2 ("Database" = "")) by done.
    rewrite (bool_decide_eq_false_2 (db = "")) by done.
    simpl negb. simpl andb. cbv iota. rewrite Hdtrim. reflexivity. }
  unfold parseConnectionString. rewrite Hparams.
  rewrite !(lookup_insert_ne _ "database") by done.
  rewrite lookup_insert_eq, !lookup_insert_ne, !lookup_empty by done.
  rewrite lookup_insert_eq. simpl orElse.
  assert (removeFirst "tcp:" V = host +:+ String "," portText) as ->
    by apply removeFirst_prefix.
  rewrite split_cons_without by done. rewrite (split_without "," portText) by done.
  assert (V = ("tcp:" +:+ host) +:+ String "," portText) as ->
    by (unfold V; repeat (rewrite app_assoc_string || rewrite app_cons_string);
        reflexivity).
  rewrite split_cons_without by (apply without_app; [by repeat split|done]).
  rewrite (split_without "," portText) by done. simpl.
  assert (js_or (Some host) "" = host) as ->.
  { unfold js_or. simpl. by destruct (decide (host = "")). }
  assert (js_or (Some portText) "1433" = portText) as ->.
  { unfold js_or. simpl. by rewrite decide_False. }
  assert (∀ other, js_or (Some db) other = db) as ->.
  { intros other. unfold js_or. simpl. by rewrite decide_False. }
  by rewrite parseInt_decimal.
Qed.
End ConnectionStrings.

Lemma parseConnectionString_value_cut_witness :
  ConnectionString.parseConnectionString
    ("Server=tcp:ws.sql.azuresynapse.net,1433" +:+ ";" +:+ "Password" +:+ "="
     +:+ "pa" +:+ "=" +:+ "ss" +:+ ";" +:+ "Database=sales")
  = ConnectionString.parseConnectionString
      ("Server=tcp:ws.sql.azuresynapse.net,1433" +:+ ";" +:+ "Password" +:+ "="
       +:+ "pa" +:+ ";" +:+ "Database=sales").
Proof.
  apply (parseConnectionString_value_cut
           "Server=tcp:ws.sql.azuresynapse.net,1433" "Database=sales"
           "Password" "pa" "ss");
    by repeat split.
Defined.

Lemma parseConnectionString_default_port_witness :
  ConnectionString.port
    (ConnectionString.parseConnectionString
       "Server=ws.sql.azuresynapse.net;Database=sales")
  = ConnectionString.Exact 1433.
Proof.
  apply (parseConnectionString_default_port
           "Server=ws.sql.azuresynapse.net;Database=sales").
  intros x Hx. vm_compute in Hx. injection Hx as <-. by repeat split.
Defined.

Lemma parseConnectionString_standard_witness :
  ConnectionString.parseConnectionString
    ("Server=tcp:" +:+ "ws.sql.azuresynapse.net" +:+ "," +:+ "1433"
     +:+ ";Database=" +:+ "sales")
  = ConnectionString.mkConnectionConfig "ws.sql.azuresynapse.net"
      ConnectionString.default_authentication None None "sales"
      true false 30000 30000 (ConnectionString.Exact 1433).
Proof.
  apply (parseConnectionString_standard "ws.sql.azuresynapse.net" "1433" "sales");
    by repeat split.
Defined.
